(** * versi-riflessi: the HTML minimiser of [hooks/minimize.py]

    A shallow embedding of [minify_css], [minify_js], [minify_html] and
    [minify_file], and the properties the specification states about them.

    Text is a Python [str]: a sequence of Unicode code points.  Every
    [re.sub] of the source is a left-to-right scan that, at each position
    it has not consumed, tries the pattern and either replaces the match or
    keeps the character. *)

From Stdlib Require Import NArith ZArith QArith List String Ascii Lia Bool.
From Stdlib Require Import DecimalString DecimalNat DecimalFacts.
From stdpp Require Import base option list gmap strings.

Set Warnings "-comment-terminator-in-string".

Local Open Scope N_scope.

(** ** Text *)

Module Text.

(** A character is a code point; a [str] is the list of its characters. *)
Abbreviation char := N (only parsing).
Abbreviation str := (list N) (only parsing).

Fixpoint lit (s : string) : str :=
  match s with
  | EmptyString => []
  | String a r => N_of_ascii a :: lit r
  end.

(** Named characters. *)
Definition NL : char := 10.
Definition SP : char := 32.

(** [lines [l1; l2; ...]] is the text of the lines [l1], [l2], ... joined
    by the newline character. *)
Fixpoint lines (ls : list string) : str :=
  match ls with
  | [] => []
  | [l] => lit l
  | l :: r => lit l ++ NL :: lines r
  end.

(** Membership in a set of characters written as a string, as in a
    bracket expression. *)
Definition one_of (set : string) (c : char) : bool :=
  existsb (N.eqb c) (lit set).

(** [str.isspace] on one character, which is also the "\s" class of a
    [str] pattern: the ASCII white space and separators, then the
    white space of the other planes. *)
Definition is_space (c : char) : bool :=
  ((9 <=? c) && (c <=? 13)) || ((28 <=? c) && (c <=? 32))
  || (c =? 133) || (c =? 160) || (c =? 5760)
  || ((8192 <=? c) && (c <=? 8202))
  || (c =? 8232) || (c =? 8233) || (c =? 8239) || (c =? 8287)
  || (c =? 12288).

(** The bracket expression [[a-zA-Z0-9_$]] of the two keyword patterns. *)
Definition is_ident (c : char) : bool :=
  ((97 <=? c) && (c <=? 122)) || ((65 <=? c) && (c <=? 90))
  || ((48 <=? c) && (c <=? 57)) || (c =? 95) || (c =? 36).

(** The bracket expression [[^x]], and the dot without [re.DOTALL] when
    [x] is the newline. *)
Definition other_than (x c : char) : bool := negb (c =? x).

(** [s.startswith(p)], also returning what follows the prefix. *)
Fixpoint strip_prefix (p s : str) : option str :=
  match p, s with
  | [], _ => Some s
  | a :: p', b :: s' => if a =? b then strip_prefix p' s' else None
  | _ :: _, [] => None
  end.

Definition starts_with (p s : str) : bool :=
  match strip_prefix p s with Some _ => true | None => false end.

(** The number of leading characters of [s] that satisfy [p]: what a
    greedy "p*" consumes. *)
Fixpoint span_len (p : char -> bool) (s : str) : nat :=
  match s with
  | c :: t => if p c then S (span_len p t) else O
  | [] => O
  end.

(** [s.lstrip()], [s.rstrip()] and [s.strip()]. *)
Fixpoint lstrip (s : str) : str :=
  match s with
  | c :: t => if is_space c then lstrip t else s
  | [] => []
  end.

Fixpoint rstrip (s : str) : str :=
  match s with
  | [] => []
  | c :: t =>
      match rstrip t with
      | [] => if is_space c then [] else [c]
      | r => c :: r
      end
  end.

Definition strip (s : str) : str := rstrip (lstrip s).

(** Decimal rendering of an index, as an f-string formats an [int]. *)
Definition decimal (n : nat) : str :=
  lit (NilZero.string_of_uint (Nat.to_uint n)).

End Text.
Import Text.

(** ** Regular-expression substitution *)

Module Re.

(** What a pattern does at one position: given the character before the
    position (if any) and the text from the position on, the number of
    characters the match consumes together with what the replacement
    needs of it (the replacement text, or the captured groups).  No pattern
    of the program matches the empty string, so the count is positive. *)
Definition matcher (G : Type) := option char -> str -> option (nat * G).

(** [re.sub(pattern, template, s)]: scan [s] from the left; [skip] counts
    the characters still covered by the last match. *)
Fixpoint sub_scan (m : matcher str) (skip : nat) (prev : option char)
    (s : str) : str :=
  match s with
  | [] => []
  | c :: t =>
      match skip with
      | S k => sub_scan m k (Some c) t
      | O =>
          match m prev s with
          | Some (n, r) => r ++ sub_scan m (Nat.pred n) (Some c) t
          | None => c :: sub_scan m O (Some c) t
          end
      end
  end.

Definition sub (m : matcher str) (s : str) : str := sub_scan m O None s.

(** [re.sub(pattern, function, s)] where the function reads and updates
    a state of type [St] (the registry the callback appends to). *)
Fixpoint sub_fn_scan {G St : Type} (m : matcher G)
    (f : G -> St -> str * St) (skip : nat) (prev : option char)
    (s : str) (st : St) : str * St :=
  match s with
  | [] => ([], st)
  | c :: t =>
      match skip with
      | S k => sub_fn_scan m f k (Some c) t st
      | O =>
          match m prev s with
          | Some (n, g) =>
              let '(r, st1) := f g st in
              let '(out, st2) := sub_fn_scan m f (Nat.pred n) (Some c) t st1 in
              (r ++ out, st2)
          | None =>
              let '(out, st1) := sub_fn_scan m f O (Some c) t st in
              (c :: out, st1)
          end
      end
  end.

Definition sub_fn {G St : Type} (m : matcher G) (f : G -> St -> str * St)
    (s : str) (st : St) : str * St :=
  sub_fn_scan m f O None s st.

(** What the scan of a pattern meets, in order: a character it keeps, or
    a match with its groups (the matches are those of [re.finditer]). *)
Inductive piece (G : Type) :=
| Kept (c : char)
| Found (g : G).
Arguments Kept {G} c.
Arguments Found {G} g.

Fixpoint pieces_scan {G : Type} (m : matcher G) (skip : nat)
    (prev : option char) (s : str) : list (piece G) :=
  match s with
  | [] => []
  | c :: t =>
      match skip with
      | S k => pieces_scan m k (Some c) t
      | O =>
          match m prev s with
          | Some (n, g) => Found g :: pieces_scan m (Nat.pred n) (Some c) t
          | None => Kept c :: pieces_scan m O (Some c) t
          end
      end
  end.

Definition pieces {G : Type} (m : matcher G) (s : str) : list (piece G) :=
  pieces_scan m O None s.

(** The groups of the matches, in order. *)
Fixpoint found {G : Type} (ps : list (piece G)) : list G :=
  match ps with
  | [] => []
  | Kept _ :: ps => found ps
  | Found g :: ps => g :: found ps
  end.

(** The text in which the matches are replaced by [r idx], [r (idx + 1)],
    ... in order. *)
Fixpoint fill {G : Type} (r : nat -> str) (idx : nat) (ps : list (piece G))
    : str :=
  match ps with
  | [] => []
  | Kept c :: ps => c :: fill r idx ps
  | Found _ :: ps => r idx ++ fill r (S idx) ps
  end.

(** The offset of the first position of [s] at which [stop] holds of the
    remaining text: where a lazy ".*?" followed by [stop] ends. *)
Fixpoint find (stop : str -> bool) (s : str) : option nat :=
  if stop s then Some O
  else match s with
       | [] => None
       | _ :: t => option_map S (find stop t)
       end.

(** [s.replace(old, new)] for a non-empty [old]. *)
Definition literal (old new : str) : matcher str :=
  fun _ s => if starts_with old s then Some (length old, new) else None.

Definition replace (old new s : str) : str := sub (literal old new) s.

(** A pattern without a look-behind: the match at a position does not
    depend on the character before it. *)
Definition blind {G : Type} (m : matcher G) : Prop :=
  forall p q s, m p s = m q s.

(** "\s+" replaced by [r]. *)
Definition spaces (r : str) : matcher str :=
  fun _ s => match span_len is_space s with
             | O => None
             | n => Some (n, r)
             end.

(** "\s*([set])\s*" replaced by the group. *)
Definition padded (set : string) : matcher str :=
  fun _ s =>
    let a := span_len is_space s in
    match drop a s with
    | c :: t => if one_of set c
                then Some ((a + 1 + span_len is_space t)%nat, [c])
                else None
    | [] => None
    end.

(** "open.*?close" with [re.DOTALL], replaced by the empty string. *)
Definition delimited (opening closing : str) : matcher str :=
  fun _ s =>
    match strip_prefix opening s with
    | Some t =>
        match find (starts_with closing) t with
        | Some k => Some ((length opening + k + length closing)%nat, [])
        | None => None
        end
    | None => None
    end.

(** "//.*?$" with [re.MULTILINE], replaced by the empty string: the dot
    stops at a newline, and the end-of-line anchor holds before a newline
    and at the end of the text. *)
Definition line_comment : matcher str :=
  fun _ s =>
    match strip_prefix (lit "//") s with
    | Some t => Some ((2 + span_len (other_than NL) t)%nat, [])
    | None => None
    end.

(** ">\s+<" replaced by "><". *)
Definition tag_gap : matcher str :=
  fun _ s =>
    match s with
    | c :: t =>
        if c =? 62 then
          match span_len is_space t with
          | O => None
          | n => match drop n t with
                 | b :: _ => if b =? 60 then Some ((n + 2)%nat, lit "><") else None
                 | [] => None
                 end
          end
        else None
    | [] => None
    end.

(** *** Case-insensitive literals ([re.IGNORECASE] on a [str] pattern)

    A cased letter of the pattern is compiled to its lowercase [p] and
    matches a character whose simple lowercase mapping is [p], or is one
    of the case-folding equivalents of [p].  The characters that lowercase
    to an ASCII letter are the letter, its capital, U+0130 (for i) and
    U+212A (for k); the equivalents are U+0131 for i and U+017F for s.
    A character without case matches itself only. *)
Definition is_lower_letter (p : char) : bool := (97 <=? p) && (p <=? 122).

Definition ci_eq (p c : char) : bool :=
  (p =? c)
  || (is_lower_letter p
      && ((c =? p - 32)
          || ((p =? 105) && ((c =? 304) || (c =? 305)))
          || ((p =? 115) && (c =? 383))
          || ((p =? 107) && (c =? 8490)))).

Fixpoint ci_strip_prefix (p s : str) : option str :=
  match p, s with
  | [], _ => Some s
  | a :: p', b :: s' => if ci_eq a b then ci_strip_prefix p' s' else None
  | _ :: _, [] => None
  end.

Definition ci_starts_with (p s : str) : bool :=
  match ci_strip_prefix p s with Some _ => true | None => false end.

(** The pattern "<tag([^>]*)>(.*?)</tag>" with [re.DOTALL | re.IGNORECASE]: the groups
    are the attribute text and the inner content.  The greedy "[^>]*" can
    only end at the first ">"; the lazy ".*?" ends at the first closing
    tag after it. *)
Definition block (tag : string) : matcher (str * str) :=
  fun _ s =>
    let opening := lit "<" ++ lit tag in
    let closing := lit "</" ++ lit tag ++ lit ">" in
    match ci_strip_prefix opening s with
    | Some t =>
        let a := span_len (other_than 62) t in
        match drop a t with
        | 62 :: u =>
            match find (ci_starts_with closing) u with
            | Some k =>
                Some ((length opening + a + 1 + k + length closing)%nat,
                      (take a t, take k u))
            | None => None
            end
        | _ => None
        end
    | None => None
    end.

(** *** Word boundaries

    "\w" on a [str] pattern is [str.isalnum] or the underscore.  Below
    128, [str.isalnum] is the ASCII letters and digits; above, it is read
    from the interpreter's Unicode database, which is a parameter here. *)
Section Words.

Variable wide_alnum : char -> bool.

Definition is_word (c : char) : bool :=
  if c <? 128
  then ((97 <=? c) && (c <=? 122)) || ((65 <=? c) && (c <=? 90))
       || ((48 <=? c) && (c <=? 57)) || (c =? 95)
  else wide_alnum c.

Definition word_at (c : option char) : bool :=
  match c with Some c => is_word c | None => false end.

(** "\b" between the character [a] before a position and the character
    [b] at it. *)
Definition boundary (a b : option char) : bool :=
  xorb (word_at a) (word_at b).

(** One alternative [k] of a keyword group followed by "\b": what
    follows the keyword, when both match. *)
Definition keyword_then_boundary (k s : str) : option str :=
  match strip_prefix k s with
  | Some t => if boundary (last k) (head t) then Some t else None
  | None => None
  end.

(** "\b(k1|k2|...)\b([a-zA-Z0-9_$])" replaced by "\1 \2"; the
    alternatives are tried in order. *)
Fixpoint keyword_ident (ks : list str) (s : str) : option (nat * str) :=
  match ks with
  | [] => None
  | k :: ks' =>
      match keyword_then_boundary k s with
      | Some (c :: _) =>
          if is_ident c then Some (S (length k), k ++ [SP; c])
          else keyword_ident ks' s
      | _ => keyword_ident ks' s
      end
  end.

Definition space_after_keyword (ks : list str) : matcher str :=
  fun prev s => if boundary prev (head s) then keyword_ident ks s else None.

(** "([a-zA-Z0-9_$])\b(k1|k2|...)\b" replaced by "\1 \2". *)
Fixpoint ident_keyword (c : char) (ks : list str) (s : str)
    : option (nat * str) :=
  match ks with
  | [] => None
  | k :: ks' =>
      match keyword_then_boundary k s with
      | Some _ => Some (S (length k), c :: SP :: k)
      | None => ident_keyword c ks' s
      end
  end.

Definition space_before_keyword (ks : list str) : matcher str :=
  fun _ s =>
    match s with
    | c :: t =>
        if is_ident c && boundary (Some c) (head t)
        then ident_keyword c ks t
        else None
    | [] => None
    end.

End Words.

End Re.


(** ** The CSS minifier *)

(** [minify_css], lines 12-29. *)
Definition minify_css (css_code : str) : str :=
  (* re.sub("/\*.*?\*/", "", css_code, flags=re.DOTALL) *)
  let css_code := Re.sub (Re.delimited (lit "/*") (lit "*/")) css_code in
  (* re.sub("\s+", " ", css_code) *)
  let css_code := Re.sub (Re.spaces [SP]) css_code in
  (* re.sub("\s*([{}:;,>+~])\s*", "\1", css_code) *)
  let css_code := Re.sub (Re.padded "{}:;,>+~") css_code in
  (* re.sub("\s*([()])\s*", "\1", css_code) *)
  let css_code := Re.sub (Re.padded "()") css_code in
  (* re.sub(";\}", "}", css_code) *)
  let css_code := Re.sub (Re.literal (lit ";}") (lit "}")) css_code in
  strip css_code.

(** ** The JavaScript and HTML minifiers *)

Inductive exn := ZeroDivisionError.

Inductive outcome :=
| Returned (b : bool)
| Raised (e : exn).

(** What [minify_file] prints, one constructor per [print] call. *)
Inductive message :=
| MissingFile (input_file : string)
| SavedTo (output_path : string)
| OriginalSize (n : nat)
| MinifiedSize (n : nat)
| Reduction (percent : Q).

Record world := { files : gmap string str; stdout : list message }.

Section Minifier.

(** [str.isalnum] above the ASCII range (see [Re.is_word]). *)
Variable wide_alnum : char -> bool.

Definition keywords : list str :=
  map lit ["return"; "var"; "let"; "const"; "if"; "else"; "for"; "while";
           "function"; "class"; "new"; "typeof"; "delete"; "instanceof"].

(** [minify_js], lines 32-56. *)
Definition minify_js (js_code : str) : str :=
  (* re.sub("//.*?$", "", js_code, flags=re.MULTILINE) *)
  let js_code := Re.sub Re.line_comment js_code in
  (* re.sub("/\*.*?\*/", "", js_code, flags=re.DOTALL) *)
  let js_code := Re.sub (Re.delimited (lit "/*") (lit "*/")) js_code in
  (* re.sub("\s+", " ", js_code) *)
  let js_code := Re.sub (Re.spaces [SP]) js_code in
  (* re.sub("\s*([{}()\[\];,:<>!=+\-*/%&|^])\s*", "\1", js_code) *)
  let js_code := Re.sub (Re.padded "{}()[];,:<>!=+-*/%&|^") js_code in
  (* re.sub("\b(return|...|instanceof)\b([a-zA-Z0-9_$])", "\1 \2", js_code) *)
  let js_code := Re.sub (Re.space_after_keyword wide_alnum keywords) js_code in
  (* re.sub("([a-zA-Z0-9_$])\b(return|...|instanceof|in|of)\b", "\1 \2", js_code) *)
  let js_code :=
    Re.sub (Re.space_before_keyword wide_alnum (keywords ++ [lit "in"; lit "of"]))
           js_code in
  let js_code := Re.sub (Re.literal (lit ")in(") (lit ") in(")) js_code in
  let js_code := Re.sub (Re.literal (lit ")in[") (lit ") in[")) js_code in
  let js_code := Re.sub (Re.literal (lit ")of(") (lit ") of(")) js_code in
  let js_code := Re.sub (Re.literal (lit ")of[") (lit ") of[")) js_code in
  strip js_code.

(** The placeholders [f'___STYLE_BLOCK_{idx}___'] and
    [f'___SCRIPT_BLOCK_{idx}___']. *)
Definition style_placeholder (idx : nat) : str :=
  lit "___STYLE_BLOCK_" ++ decimal idx ++ lit "___".

Definition script_placeholder (idx : nat) : str :=
  lit "___SCRIPT_BLOCK_" ++ decimal idx ++ lit "___".

(** [replace_style], lines 66-70; the match gives group 1 (the pattern
    has no group for the attribute text) and the callback appends to
    [style_blocks]. *)
Definition replace_style (group1 : str) (style_blocks : list str)
    : str * list str :=
  let minified := minify_css group1 in
  let idx := length style_blocks in
  (style_placeholder idx,
   style_blocks ++ [lit "<style>" ++ minified ++ lit "</style>"]).

(** [replace_script], lines 75-88. *)
Definition replace_script (groups : str * str) (script_blocks : list str)
    : str * list str :=
  let opening_tag := fst groups in
  let js_content := snd groups in
  let minified :=
    match strip js_content with
    | [] => js_content
    | _ => minify_js js_content
    end in
  let idx := length script_blocks in
  (script_placeholder idx,
   script_blocks
     ++ [lit "<script" ++ opening_tag ++ lit ">" ++ minified ++ lit "</script>"]).

(** The loops of lines 105-106 and 109-110: [enumerate] numbers the blocks
    from [idx]. *)
Fixpoint restore (placeholder : nat -> str) (idx : nat) (blocks : list str)
    (html_code : str) : str :=
  match blocks with
  | [] => html_code
  | block :: rest =>
      restore placeholder (S idx) rest
        (Re.replace (placeholder idx) block html_code)
  end.

(** The patterns of lines 72 and 90, with the groups their callbacks read:
    "<style[^>]*>(.*?)</style>" has one group, the inner content;
    "<script([^>]*)>(.*?)</script>" has the attribute text and the inner
    content. *)
Definition style_pattern : Re.matcher str :=
  fun p s => option_map (fun '(n, g) => (n, snd g)) (Re.block "style" p s).

Definition script_pattern : Re.matcher (str * str) := Re.block "script".

(** [minify_html], lines 59-102: the working text once the blocks are
    extracted and the markup is collapsed, with the two registries. *)
Definition collapse_markup (html_code : str) : str * list str * list str :=
  (* re.sub("<style[^>]*>(.*?)</style>", replace_style, html_code,
     flags=re.DOTALL | re.IGNORECASE) *)
  let '(html_code, style_blocks) :=
    Re.sub_fn style_pattern replace_style html_code [] in
  (* re.sub("<script([^>]*)>(.*?)</script>", replace_script, html_code,
     flags=re.DOTALL | re.IGNORECASE) *)
  let '(html_code, script_blocks) :=
    Re.sub_fn script_pattern replace_script html_code [] in
  (* re.sub("<!--.*?-->", "", html_code, flags=re.DOTALL) *)
  let html_code := Re.sub (Re.delimited (lit "<!--") (lit "-->")) html_code in
  (* re.sub("\s+", " ", html_code) *)
  let html_code := Re.sub (Re.spaces [SP]) html_code in
  (* re.sub(">\s+<", "><", html_code) *)
  let html_code := Re.sub Re.tag_gap html_code in
  (strip html_code, style_blocks, script_blocks).

(** [minify_html], lines 59-112. *)
Definition minify_html (html_code : str) : str :=
  let '(html_code, style_blocks, script_blocks) := collapse_markup html_code in
  let html_code := restore style_placeholder 0 style_blocks html_code in
  let html_code := restore script_placeholder 0 script_blocks html_code in
  html_code.

(** *** [minify_file], lines 115-150

    The file system maps a path to the text that reading it returns;
    standard output is the list of printed messages.  The model covers the
    runs in which the input path names nothing or a regular file of UTF-8
    text, and in which the output file can be written: a directory, a file
    that does not decode and an output path that cannot be opened make
    [open], [read] or [write] raise, and have no counterpart here.  A path
    is its spelling: two spellings of one file are two keys.  The sibling
    path [input_path.parent / f"{input_path.stem}.min{input_path.suffix}"]
    is computed by [pathlib], a parameter here. *)
Variable min_sibling : string -> string.

(** [a / b] on two [int]s. *)
Definition truediv (a b : Z) : exn + Q :=
  if (b =? 0)%Z then inl ZeroDivisionError else inr (inject_Z a / inject_Z b)%Q.

Definition minify_file (input_file : string) (output_file : option string)
    (w : world) : world * outcome :=
  match files w !! input_file with
  | None =>
      (* if not input_path.exists(): print(...); return False *)
      ({| files := files w; stdout := stdout w ++ [MissingFile input_file] |},
       Returned false)
  | Some html_content =>
      let minified_html := minify_html html_content in
      let output_path :=
        match output_file with
        | None => min_sibling input_file
        | Some o => o
        end in
      (* f.write(minified_html) *)
      let w := {| files := <[output_path := minified_html]> (files w);
                  stdout := stdout w |} in
      let original_size := Z.of_nat (length html_content) in
      let minified_size := Z.of_nat (length minified_html) in
      (* reduction = ((original_size - minified_size) / original_size) * 100 *)
      match truediv (original_size - minified_size) original_size with
      | inl e => (w, Raised e)
      | inr q =>
          let reduction := (q * 100)%Q in
          ({| files := files w;
              stdout := stdout w ++ [SavedTo output_path;
                                     OriginalSize (length html_content);
                                     MinifiedSize (length minified_html);
                                     Reduction reduction] |},
           Returned true)
      end
  end.

End Minifier.


(** A Unicode table without letters or digits above ASCII, for the concrete
    runs below; on ASCII text every table gives the same result. *)
Definition ascii_only : char -> bool := fun _ => false.

(** A file system with one empty file, and nothing printed yet. *)
Definition one_empty_file : world :=
  {| files := {["index.html"%string := ([] : str)]}; stdout := [] |}.

(** A file system with one page, and nothing printed yet. *)
Definition one_page : world :=
  {| files := {["index.html"%string := lit "<p> a </p>  <p> b </p>"]};
     stdout := [] |}.

(** The end-to-end example of the specification. *)
Definition example_document : str := lines
  ["<!-- c -->"; "<div>"; "  <p>Hi</p>"; "</div>"; "<style>";
   "  a  {  color : red ;  }"; "</style>"; "<script>";
   "  var x = 1; // note"; "  if (x) { return x; }"; "</script>"].

Definition example_expected : str :=
  lit "<div><p>Hi</p></div><style>a{color:red}</style><script>var x=1;if(x){return x;}</script>".

(** ** Shapes of text the properties speak of *)

Module Shape.

(** Some suffix of [s] satisfies [p]: the pattern [p] occurs in [s]. *)
Fixpoint anywhere (p : str -> bool) (s : str) : bool :=
  p s || match s with
         | [] => false
         | _ :: t => anywhere p t
         end.

(** [old in s]. *)
Definition contains (old s : str) : bool := anywhere (starts_with old) s.

(** Two consecutive space characters. *)
Definition has_double_space (s : str) : bool := contains [SP; SP] s.

(** [s] is one or more white-space characters followed by [x]. *)
Fixpoint spaces_then (x : char) (s : str) : bool :=
  match s with
  | c :: t =>
      is_space c
      && (match t with b :: _ => b =? x | [] => false end || spaces_then x t)
  | [] => false
  end.

(** White space directly between a ">" and a "<". *)
Definition gap_here (s : str) : bool :=
  match s with
  | c :: t => (c =? 62) && spaces_then 60 t
  | [] => false
  end.

Definition has_tag_gap (s : str) : bool := anywhere gap_here s.

Definition head_space (s : str) : bool :=
  match s with c :: _ => is_space c | [] => false end.

Definition tail_space (s : str) : bool :=
  match last s with Some c => is_space c | None => false end.

(** The characters of [s] that are not white space, in their order. *)
Definition ink (s : str) : str := List.filter (fun c => negb (is_space c)) s.

(** Every white-space character of [s] is a space, and no two are
    adjacent. *)
Fixpoint single_spaced (s : str) : bool :=
  match s with
  | [] => true
  | c :: t =>
      (negb (is_space c) || ((c =? SP) && negb (head_space t)))
      && single_spaced t
  end.

(** [s] starts with [rem] and [closing] occurs somewhere after it. *)
Definition comment_tail (closing rem s : str) : bool :=
  match strip_prefix rem s with
  | Some w => contains closing w
  | None => false
  end.

(** A comment: [opening], followed later by [closing]. *)
Definition has_comment (opening closing s : str) : bool :=
  anywhere (comment_tail closing opening) s.

(** *** Looking for a comment from left to right

    While the opening delimiter is sought, and then the closing one, the
    state holds what is left to read of each occurrence that has begun. *)
Inductive seek :=
| Seeking (pending : list str)
| Inside (pending : list str)
| Accepted.

Definition advance (x : char) (pending : list str) : list str :=
  omap (fun rem => match rem with
                   | y :: rest => if y =? x then Some rest else None
                   | [] => None
                   end) pending.

Definition completed (pending : list str) : bool :=
  existsb (fun rem => match rem with [] => true | _ => false end) pending.

Definition seek_step (opening closing : str) (st : seek) (x : char) : seek :=
  match st with
  | Seeking pending =>
      let pending := advance x (opening :: pending) in
      if completed pending then Inside [] else Seeking pending
  | Inside pending =>
      let pending := advance x (closing :: pending) in
      if completed pending then Accepted else Inside pending
  | Accepted => Accepted
  end.

Definition seek_run (opening closing : str) (st : seek) (s : str) : seek :=
  fold_left (seek_step opening closing) s st.

Definition accepted (st : seek) : bool :=
  match st with Accepted => true | _ => false end.

(** What a state stands for: what the rest of the text must hold for a
    comment to be found. *)
Definition seek_sem (opening closing : str) (st : seek) (s : str) : bool :=
  match st with
  | Seeking pending =>
      existsb (fun rem => comment_tail closing rem s) pending
      || has_comment opening closing s
  | Inside pending =>
      existsb (fun rem => starts_with rem s) pending || contains closing s
  | Accepted => true
  end.

(** The suffixes of a text, the text itself first. *)
Fixpoint tails (s : str) : list str :=
  s :: match s with
       | [] => []
       | _ :: t => tails t
       end.

(** The states the scan goes through: every pending remainder is a
    non-empty suffix of the delimiter that is sought. *)
Definition pending_ok (p : str) (pending : list str) : Prop :=
  Forall (fun rem => rem <> [] /\ In rem (tails p)) pending.

Definition seek_ok (opening closing : str) (st : seek) : Prop :=
  match st with
  | Seeking pending => pending_ok opening pending
  | Inside pending => pending_ok closing pending
  | Accepted => True
  end.

(** A character of neither delimiter. *)
Definition irrelevant (opening closing : str) (x : char) : bool :=
  negb (existsb (N.eqb x) opening) && negb (existsb (N.eqb x) closing).

(** What a state forgets when it reads a character that is in neither
    delimiter. *)
Definition forget (st : seek) : seek :=
  match st with
  | Seeking _ => Seeking []
  | Inside _ => Inside []
  | Accepted => Accepted
  end.

(** No white-space character of [s] is next to a character of the class
    [sp]. *)
Definition clash (sp : char -> bool) (a b : char) : bool :=
  (is_space a && sp b) || (sp a && is_space b).

Definition no_clash (sp : char -> bool) (a : char) (next : option char) : bool :=
  match next with
  | Some b => negb (clash sp a b)
  | None => true
  end.

Fixpoint tight (sp : char -> bool) (s : str) : bool :=
  match s with
  | [] => true
  | a :: t => no_clash sp a (head t) && tight sp t
  end.

(** The text [replace_style] registers for an inner content, and the text
    [replace_script] registers for an attribute text and an inner
    content. *)
Definition style_block (content : str) : str :=
  lit "<style>" ++ minify_css content ++ lit "</style>".

Definition script_block (wide : char -> bool) (groups : str * str) : str :=
  lit "<script" ++ fst groups ++ lit ">"
  ++ match strip (snd groups) with
     | [] => snd groups
     | _ => minify_js wide (snd groups)
     end
  ++ lit "</script>".

(** The working text of [minify_html] once the style blocks, then the
    script blocks, are replaced by their placeholders (after line 90). *)
Definition with_placeholders (doc : str) : str :=
  Re.fill script_placeholder 0
    (Re.pieces script_pattern
       (Re.fill style_placeholder 0 (Re.pieces style_pattern doc))).

(** The text of [minify_js] once the comments are removed (after line 38),
    and what [minify_js] does with it (lines 41-56). *)
Definition js_uncommented (js_code : str) : str :=
  Re.sub (Re.delimited (lit "/*") (lit "*/")) (Re.sub Re.line_comment js_code).

Definition js_collapse (wide : char -> bool) (js_code : str) : str :=
  let js_code := Re.sub (Re.spaces [SP]) js_code in
  let js_code := Re.sub (Re.padded "{}()[];,:<>!=+-*/%&|^") js_code in
  let js_code := Re.sub (Re.space_after_keyword wide keywords) js_code in
  let js_code :=
    Re.sub (Re.space_before_keyword wide (keywords ++ [lit "in"; lit "of"]))
           js_code in
  let js_code := Re.sub (Re.literal (lit ")in(") (lit ") in(")) js_code in
  let js_code := Re.sub (Re.literal (lit ")in[") (lit ") in[")) js_code in
  let js_code := Re.sub (Re.literal (lit ")of(") (lit ") of(")) js_code in
  let js_code := Re.sub (Re.literal (lit ")of[") (lit ") of[")) js_code in
  strip js_code.

End Shape.
Import Shape.

(** ** Pages

    A page is markup text in which style and script blocks stand: a first
    text, then the blocks, each followed by a text. *)

Module Page.

Inductive block :=
| StyleBlock (opening attrs content closing : str)
| ScriptBlock (opening attrs content closing : str).

Definition is_script (b : block) : bool :=
  match b with
  | StyleBlock _ _ _ _ => false
  | ScriptBlock _ _ _ _ => true
  end.

(** The text of a block in the document, and the text [minify_html]
    registers for it. *)
Definition source (b : block) : str :=
  match b with
  | StyleBlock o a c cl | ScriptBlock o a c cl => o ++ a ++ 62 :: c ++ cl
  end.

Definition rebuilt (wide : char -> bool) (b : block) : str :=
  match b with
  | StyleBlock _ _ c _ => style_block c
  | ScriptBlock _ a c _ => script_block wide (a, c)
  end.

(** The blocks and the texts after them laid out in order: [f] gives the
    text for a block from the numbers of style and of script blocks before
    it, [g] the text for a markup text. *)
Fixpoint laid (f : nat -> nat -> block -> str) (g : str -> str)
    (ns nc : nat) (rest : list (block * str)) : str :=
  match rest with
  | [] => []
  | (b, t) :: r =>
      f ns nc b ++ g t
      ++ laid f g (if is_script b then ns else S ns)
                  (if is_script b then S nc else nc) r
  end.

Definition page (t0 : str) (rest : list (block * str)) : str :=
  t0 ++ laid (fun _ _ => source) (fun t => t) 0 0 rest.

(** Lines 93-99 on one markup text. *)
Definition markup (t : str) : str :=
  Re.sub Re.tag_gap
    (Re.sub (Re.spaces [SP])
       (Re.sub (Re.delimited (lit "<!--") (lit "-->")) t)).

(** The minified markup texts with every block rebuilt in its place. *)
Definition minified_page (wide : char -> bool) (t0 : str)
    (rest : list (block * str)) : str :=
  strip (markup t0 ++ laid (fun _ _ => rebuilt wide) markup 0 0 rest).

Definition placeholder (script : bool) (idx : nat) : str :=
  if script then script_placeholder idx else style_placeholder idx.

(** A block in the working text after the style blocks are extracted
    (line 72). *)
Definition half (ns nc : nat) (b : block) : str :=
  if is_script b then source b else style_placeholder ns.

(** The groups the callbacks of lines 66 and 75 receive, in order. *)
Definition style_contents (rest : list (block * str)) : list str :=
  flat_map (fun bt => match fst bt with
                      | StyleBlock _ _ c _ => [c]
                      | ScriptBlock _ _ _ _ => []
                      end) rest.

Definition script_groups (rest : list (block * str)) : list (str * str) :=
  flat_map (fun bt => match fst bt with
                      | StyleBlock _ _ _ _ => []
                      | ScriptBlock _ a c _ => [(a, c)]
                      end) rest.

Definition hole (ns nc : nat) (b : block) : str :=
  placeholder (is_script b) (if is_script b then nc else ns).

(** No opening tag of the kind starts in [s], in any letter case. *)
Definition tag_free (tag : string) (s : str) : bool :=
  negb (anywhere (Re.ci_starts_with (lit "<" ++ lit tag)) s).

(** Every "<!--" of [s] is followed, later in [s], by a "-->". *)
Definition comments_closed (s : str) : bool :=
  negb (anywhere
          (fun u => starts_with (lit "<!--") u
                    && negb (comment_tail (lit "-->") (lit "<!--") u)) s).

(** A text between blocks: no style or script opening tag, no comment
    left open. *)
Definition markup_text (t : str) : bool :=
  tag_free "style" t && tag_free "script" t && comments_closed t.

(** [o] is the tag [p] in some letter case. *)
Definition is_tag (p o : str) : bool :=
  match Re.ci_strip_prefix p o with
  | Some [] => true
  | _ => false
  end.

(** The four parts are those of a block the patterns of lines 72 and 90
    match: the attribute text has no ">", the content does not hold the
    closing tag; and no style opening tag stands inside a script block. *)
Definition well_formed (b : block) : bool :=
  match b with
  | StyleBlock o a c cl =>
      is_tag (lit "<style") o && forallb (other_than 62) a
      && is_tag (lit "</style>") cl
      && negb (anywhere (Re.ci_starts_with (lit "</style>")) c)
  | ScriptBlock o a c cl =>
      is_tag (lit "<script") o && forallb (other_than 62) a
      && is_tag (lit "</script>") cl
      && negb (anywhere (Re.ci_starts_with (lit "</script>")) c)
      && tag_free "style" a && tag_free "style" c
  end.

(** Every block is one the patterns match, and every text after a block
    is markup text. *)
Definition regular (rest : list (block * str)) : bool :=
  forallb (fun bt => well_formed (fst bt) && markup_text (snd bt)) rest.

(** The text does not hold the word that every placeholder holds. *)
Definition inert (s : str) : bool := negb (contains (lit "BLOCK") s).

(** The working text while the placeholders are restored (lines 104-110):
    the style blocks numbered below [a] and the script blocks numbered
    below [b] are back in their places. *)
Definition partly (wide : char -> bool) (a b ns nc : nat) (x : block) : str :=
  if (if is_script x then nc <? b else ns <? a)%nat
  then rebuilt wide x
  else hole ns nc x.

(** The registry of one kind that [collapse_markup] returns for a page. *)
Definition registered (wide : char -> bool) (script : bool)
    (rest : list (block * str)) : list str :=
  if script then map (script_block wide) (script_groups rest)
  else map style_block (style_contents rest).

(** What follows a text in the working text: nothing, a restored block or
    a placeholder. *)
Definition boundary (r : str) : Prop :=
  r = [] \/ head r = Some 60 \/ exists r', r = lit "___" ++ r'.

(** The number of opening tags of one kind that start in [s], in any
    letter case. *)
Fixpoint openings (tag : string) (s : str) : nat :=
  ((if Re.ci_starts_with (lit "<" ++ lit tag) s then 1 else 0)
   + match s with
     | [] => 0
     | _ :: t => openings tag t
     end)%nat.

(** The tag name of a kind of block. *)
Definition tag_name (script : bool) : string :=
  if script then "script"%string else "style"%string.

(** No style or script opening tag starts in [s]. *)
Definition tagless (s : str) : bool := tag_free "style" s && tag_free "script" s.

(** The opening and the closing tag of a block are those of its kind. *)
Definition tagged (x : block) : bool :=
  match x with
  | StyleBlock o _ _ cl => is_tag (lit "<style") o && is_tag (lit "</style>") cl
  | ScriptBlock o _ _ cl => is_tag (lit "<script") o && is_tag (lit "</script>") cl
  end.

(** No opening tag starts in the attribute text or in the content of a
    block. *)
Definition plain_parts (x : block) : bool :=
  match x with
  | StyleBlock _ a c _ | ScriptBlock _ a c _ => tagless a && tagless c
  end.

(** The block whose text in a document is the text [minify_html]
    registers for [x]. *)
Definition canonical (wide : char -> bool) (x : block) : block :=
  match x with
  | StyleBlock _ _ c _ =>
      StyleBlock (lit "<style") [] (minify_css c) (lit "</style>")
  | ScriptBlock _ a c _ =>
      ScriptBlock (lit "<script") a
        match strip c with
        | [] => c
        | _ => minify_js wide c
        end
        (lit "</script>")
  end.

(** The number of blocks of one kind in a page. *)
Definition blocks_of (script : bool) (rest : list (block * str)) : nat :=
  length (List.filter (fun bt => Bool.eqb (is_script (fst bt)) script) rest).

End Page.
Import Page.

(** Two pages for the concrete runs below: markup with a comment, three
    blocks in mixed letter case of which two are style blocks; and markup
    with a script block before a style block, both with attributes. *)
Definition three_blocks_first_text : str := lit "<p> a </p> <!-- c -->  ".

Definition three_blocks : list (block * str) :=
  [(StyleBlock (lit "<style") (lit " media=x") (lit " p { color : red ; } ")
      (lit "</style>"),
    lit " <b> _x_ </b> ");
   (ScriptBlock (lit "<SCRIPT") (lit " src='a'") (lit " var  a = 1 ; ")
      (lit "</SCRIPT>"),
    lit "<i>t</i>  ");
   (StyleBlock (lit "<STYLE") [] (lit "b { }") (lit "</STYLE>"), [])].

Definition two_blocks_first_text : str := lit "<h1> T </h1>  ".

Definition two_blocks : list (block * str) :=
  [(ScriptBlock (lit "<script") (lit " type='module'  defer") (lit " f ( ) ; ")
      (lit "</script>"),
    lit " <p>  x");
   (StyleBlock (lit "<Style") (lit " media='print'") (lit " a { b : c } ")
      (lit "</Style>"),
    lit " </p> ")].

(** * Properties *)

Local Arguments N.eqb : simpl never.
Local Arguments N.leb : simpl never.
Local Arguments N.ltb : simpl never.
Local Arguments lit : simpl never.

(** ** Substitution: unfolding and induction *)

Module ReFacts.
Import Re.

Lemma length_ind {A : Type} (P : list A -> Prop) :
  (forall s, (forall t, (length t < length s)%nat -> P t) -> P s) ->
  forall s, P s.
Proof.
  intros step s. remember (length s) as n eqn:Hn. revert s Hn.
  induction n as [n IH] using lt_wf_ind. intros s ->.
  apply step. intros t Ht. exact (IH (length t) Ht t eq_refl).
Qed.

Lemma sub_scan_blind (m : matcher str) (Hb : blind m) n p q s :
  sub_scan m n p s = sub_scan m n q s.
Proof.
  revert n p q. induction s as [|c t IH]; intros n p q; [reflexivity|].
  destruct n as [|n]; simpl; [|apply IH].
  rewrite (Hb p q). destruct (m q (c :: t)) as [[k r]|]; reflexivity.
Qed.

Lemma sub_skip (m : matcher str) (Hb : blind m) n p s :
  sub_scan m n p s = sub m (drop n s).
Proof.
  revert p s. induction n as [|n IH]; intros p s.
  - rewrite drop_0. apply sub_scan_blind, Hb.
  - destruct s as [|c t]; [reflexivity|]. simpl. apply IH.
Qed.

(** One step of the scan. *)
Lemma sub_cons (m : matcher str) (Hb : blind m) c t :
  sub m (c :: t)
  = match m None (c :: t) with
    | Some (n, r) => r ++ sub m (drop (Nat.pred n) t)
    | None => c :: sub m t
    end.
Proof.
  unfold sub at 1. simpl. destruct (m None (c :: t)) as [[n r]|].
  - f_equal. apply sub_skip, Hb.
  - f_equal. apply sub_scan_blind, Hb.
Qed.

Lemma sub_nil (m : matcher str) : sub m [] = [].
Proof. reflexivity. Qed.

(** Induction along the scan of a pattern without look-behind. *)
Lemma sub_ind (m : matcher str) (Hb : blind m) (P : str -> str -> Prop) :
  P [] [] ->
  (forall c t, m None (c :: t) = None ->
     P t (sub m t) -> P (c :: t) (c :: sub m t)) ->
  (forall c t n r, m None (c :: t) = Some (n, r) ->
     (forall u, (length u <= length t)%nat -> P u (sub m u)) ->
     P (c :: t) (r ++ sub m (drop (Nat.pred n) t))) ->
  forall s, P s (sub m s).
Proof.
  intros Hnil Hkeep Hmatch. induction s as [s IH] using length_ind.
  destruct s as [|c t]; [exact Hnil|].
  rewrite (sub_cons m Hb). destruct (m None (c :: t)) as [[n r]|] eqn:Hm.
  - apply (Hmatch c t n r Hm). intros u Hu. apply IH. simpl. lia.
  - apply (Hkeep c t Hm). apply IH. simpl. lia.
Qed.

Lemma blind_literal old new : blind (literal old new).
Proof. intros p q s. reflexivity. Qed.
Lemma blind_spaces r : blind (spaces r).
Proof. intros p q s. reflexivity. Qed.
Lemma blind_padded set : blind (padded set).
Proof. intros p q s. reflexivity. Qed.
Lemma blind_delimited o c : blind (delimited o c).
Proof. intros p q s. reflexivity. Qed.
Lemma blind_line_comment : blind line_comment.
Proof. intros p q s. reflexivity. Qed.
Lemma blind_tag_gap : blind tag_gap.
Proof. intros p q s. reflexivity. Qed.

(** Every replacement made of characters that satisfy [P] keeps a text
    made of such characters so. *)
Lemma sub_scan_forallb (m : matcher str) (P : char -> bool) :
  (forall p s n r, forallb P s = true -> m p s = Some (n, r) ->
     forallb P r = true) ->
  forall s k prev, forallb P s = true -> forallb P (sub_scan m k prev s) = true.
Proof.
  intros Hm. induction s as [|c t IH]; intros k prev Hs; [reflexivity|].
  pose proof Hs as Hs'. simpl in Hs'. apply andb_true_iff in Hs' as [Hc Ht].
  destruct k as [|k]; simpl; [|by apply IH].
  destruct (m prev (c :: t)) as [[n r]|] eqn:E.
  - rewrite forallb_app, (Hm _ _ _ _ Hs E). by apply IH.
  - cbn [forallb]. rewrite Hc. by apply IH.
Qed.

Lemma sub_keeps (m : matcher str) (P : char -> bool) s :
  (forall p s n r, forallb P s = true -> m p s = Some (n, r) ->
     forallb P r = true) ->
  forallb P s = true -> forallb P (sub m s) = true.
Proof. intros Hm Hs. by apply sub_scan_forallb. Qed.

(** The scan written out at a position where nothing is skipped, for
    patterns that may look behind. *)
Lemma sub_scan_cons (m : matcher str) p c t :
  sub_scan m O p (c :: t)
  = match m p (c :: t) with
    | Some (n, r) => r ++ sub_scan m (Nat.pred n) (Some c) t
    | None => c :: sub_scan m O (Some c) t
    end.
Proof. reflexivity. Qed.

Lemma sub_scan_skip (m : matcher str) k p s :
  exists q, sub_scan m k p s = sub_scan m O q (drop k s).
Proof.
  revert p s. induction k as [|k IH]; intros p s; [by exists p|].
  destruct s as [|c t]; [by exists p|]. simpl. apply IH.
Qed.

(** A pattern that matches nowhere in texts of a class closed under
    taking the rest leaves such a text as it is. *)
Lemma sub_scan_none (m : matcher str) (P : char -> bool) :
  (forall p s, forallb P s = true -> m p s = None) ->
  forall s p, forallb P s = true -> sub_scan m O p s = s.
Proof.
  intros Hm. induction s as [|c t IH]; intros p Hs; [reflexivity|].
  rewrite sub_scan_cons, (Hm p _ Hs). f_equal. apply IH.
  simpl in Hs. by apply andb_true_iff in Hs as [_ Hs].
Qed.

(** A substitution whose replacements are no longer than what they
    replace does not lengthen the text. *)
Lemma sub_length_consumed (m : matcher str) (Hb : blind m) :
  (forall s n r, m None s = Some (n, r) ->
     (length r <= n)%nat /\ (n <= length s)%nat) ->
  forall s, (length (sub m s) <= length s)%nat.
Proof.
  intros Hm. induction s as [s IH] using length_ind.
  destruct s as [|c t]; [done|]. rewrite (sub_cons m Hb).
  destruct (m None (c :: t)) as [[n r]|] eqn:E.
  - rewrite length_app. destruct (Hm _ _ _ E) as [Hr Hn].
    assert (length (sub m (drop (Nat.pred n) t))
            <= length (drop (Nat.pred n) t))%nat as Hrest
      by (apply IH; rewrite length_drop; simpl; lia).
    rewrite length_drop in Hrest. simpl in *. lia.
  - simpl. pose proof (IH t ltac:(simpl; lia)). lia.
Qed.

(** What a substitution does to the characters a filter keeps, when each
    replacement is related to the text it replaces. *)
Lemma sub_scan_filter (m : matcher str) (f : char -> bool)
    (R : str -> str -> Prop) :
  (forall l, R l l) ->
  (forall a b c d, R a b -> R c d -> R (a ++ c) (b ++ d)) ->
  (forall p s n r, m p s = Some (n, r) ->
     (1 <= n)%nat /\ R (List.filter f r) (List.filter f (take n s))) ->
  forall s k p,
    R (List.filter f (sub_scan m k p s)) (List.filter f (drop k s)).
Proof.
  intros Hrefl Happ Hm. induction s as [|c t IH]; intros k p.
  - destruct k; apply Hrefl.
  - destruct k as [|k]; [|apply IH]. rewrite sub_scan_cons, drop_0.
    destruct (m p (c :: t)) as [[n r]|] eqn:E.
    + destruct (Hm _ _ _ _ E) as [Hn Hr].
      destruct n as [|n]; [lia|]. cbn [Nat.pred].
      assert (List.filter f (c :: t)
              = List.filter f (take (S n) (c :: t)) ++ List.filter f (drop n t))
        as ->.
      { change (drop n t) with (drop (S n) (c :: t)).
        by rewrite <- List.filter_app, take_drop. }
      rewrite List.filter_app. apply Happ; [exact Hr|]. apply IH.
    + pose proof (IH O (Some c)) as Hrest. rewrite drop_0 in Hrest.
      cbn [List.filter]. destruct (f c); [|exact Hrest].
      apply (Happ [c] [c]); [apply Hrefl|exact Hrest].
Qed.

End ReFacts.
Import ReFacts.

Local Arguments Re.sub : simpl never.
Local Arguments Re.sub_scan : simpl never.

(** ** Prefixes and suffixes *)

Lemma anywhere_drop p n s : anywhere p (drop n s) = true -> anywhere p s = true.
Proof.
  revert s. induction n as [|n IH]; intros s H; [by rewrite drop_0 in H|].
  destruct s as [|c t]; [exact H|]. simpl in *.
  rewrite (IH t H). apply orb_true_r.
Qed.

Lemma anywhere_app_l p s1 s2 :
  (forall a b, p a = true -> p (a ++ b) = true) ->
  anywhere p s1 = true -> anywhere p (s1 ++ s2) = true.
Proof.
  intros Hmono. induction s1 as [|c t IH]; intros H.
  - simpl in H. rewrite orb_false_r in H.
    apply (Hmono [] s2) in H. destruct s2; simpl in *; rewrite H; reflexivity.
  - simpl in *. apply orb_true_iff in H as [H|H].
    + apply (Hmono (c :: t) s2) in H. simpl in H. rewrite H. reflexivity.
    + rewrite (IH H). apply orb_true_r.
Qed.

Lemma lstrip_is_drop s : exists n, lstrip s = drop n s.
Proof.
  induction s as [|c t [n IH]]; [by exists O|]. simpl.
  destruct (is_space c); [by exists (S n)|by exists O].
Qed.

Lemma rstrip_is_prefix s : exists w, s = rstrip s ++ w.
Proof.
  induction s as [|c t [w IH]]; [by exists []|]. simpl.
  destruct (rstrip t) as [|d r] eqn:Hr.
  - destruct (is_space c); [by exists (c :: t)|]. exists w. simpl in IH. by rewrite <- IH.
  - exists w. simpl. f_equal. exact IH.
Qed.

Lemma single_spaced_drop n s : single_spaced s = true -> single_spaced (drop n s) = true.
Proof.
  revert s. induction n as [|n IH]; intros s H; [by rewrite drop_0|].
  destruct s as [|c t]; [reflexivity|]. simpl in *.
  apply andb_true_iff in H as [_ H]. by apply IH.
Qed.

Lemma head_space_app_l s1 s2 : s1 <> [] -> head_space (s1 ++ s2) = head_space s1.
Proof. destruct s1; [done|reflexivity]. Qed.

Lemma single_spaced_app_l s1 s2 :
  single_spaced (s1 ++ s2) = true -> single_spaced s1 = true.
Proof.
  induction s1 as [|c t IH]; [reflexivity|]. simpl. intros H.
  apply andb_true_iff in H as [H1 H2]. rewrite (IH H2), andb_true_r.
  destruct t as [|d t']; [|exact H1]. simpl.
  destruct (is_space c), (c =? SP); simpl in *; try reflexivity; discriminate.
Qed.

Lemma single_spaced_strip s : single_spaced s = true -> single_spaced (strip s) = true.
Proof.
  intros H. unfold strip. destruct (lstrip_is_drop s) as [n Hn].
  destruct (rstrip_is_prefix (lstrip s)) as [w Hw].
  apply (single_spaced_app_l _ w). rewrite <- Hw, Hn. by apply single_spaced_drop.
Qed.

Lemma single_spaced_no_double s :
  single_spaced s = true -> has_double_space s = false.
Proof.
  unfold has_double_space, contains.
  induction s as [|c t IH]; [reflexivity|]. simpl. intros H.
  apply andb_true_iff in H as [H1 H2]. rewrite (IH H2), orb_false_r.
  unfold starts_with. simpl.
  destruct (SP =? c) eqn:Hc; [|reflexivity]. apply N.eqb_eq in Hc. subst c.
  destruct t as [|d t']; [reflexivity|]. simpl in *.
  destruct (SP =? d) eqn:Hd; [|reflexivity]. apply N.eqb_eq in Hd. subst d.
  discriminate.
Qed.

Lemma spaces_then_app x s1 s2 :
  spaces_then x s1 = true -> spaces_then x (s1 ++ s2) = true.
Proof.
  induction s1 as [|c t IH]; [discriminate|]. simpl. intros H.
  apply andb_true_iff in H as [Hc H]. rewrite Hc. simpl.
  apply orb_true_iff in H as [H|H].
  - destruct t as [|b t']; [discriminate|]. simpl. by rewrite H.
  - rewrite (IH H). apply orb_true_r.
Qed.

Lemma gap_here_app s1 s2 : gap_here s1 = true -> gap_here (s1 ++ s2) = true.
Proof.
  destruct s1 as [|c t]; [discriminate|]. simpl. intros H.
  apply andb_true_iff in H as [Hc H]. by rewrite Hc, (spaces_then_app _ _ _ H).
Qed.

Lemma no_tag_gap_strip s : has_tag_gap s = false -> has_tag_gap (strip s) = false.
Proof.
  intros H. unfold strip, has_tag_gap in *. destruct (lstrip_is_drop s) as [n Hn].
  destruct (rstrip_is_prefix (lstrip s)) as [w Hw].
  destruct (anywhere gap_here (rstrip (lstrip s))) eqn:Hg; [|reflexivity].
  apply (anywhere_app_l _ _ w gap_here_app) in Hg. rewrite <- Hw, Hn in Hg.
  apply anywhere_drop in Hg. congruence.
Qed.

(** ** White-space collapse of the markup *)

Lemma head_space_after_span t : head_space (drop (span_len is_space t) t) = false.
Proof.
  induction t as [|c t IH]; [reflexivity|]. simpl.
  destruct (is_space c) eqn:Hc; [exact IH|]. simpl. exact Hc.
Qed.

Lemma spaces_sub_head r u :
  head_space u = false -> head (Re.sub (Re.spaces r) u) = head u.
Proof.
  destruct u as [|c t]; [reflexivity|]. simpl. intros Hc.
  rewrite (sub_cons _ (blind_spaces r)). unfold Re.spaces at 1. simpl.
  by rewrite Hc.
Qed.

Lemma head_space_head (a b : str) : head a = head b -> head_space a = head_space b.
Proof. destruct a, b; simpl; congruence. Qed.

Lemma collapse_single_spaced s : single_spaced (Re.sub (Re.spaces [SP]) s) = true.
Proof.
  induction s as [s IH] using length_ind. destruct s as [|c t]; [reflexivity|].
  rewrite (sub_cons _ (blind_spaces _)). unfold Re.spaces at 1. simpl.
  destruct (is_space c) eqn:Hc.
  - simpl. rewrite IH by (rewrite length_drop; simpl; lia).
    rewrite (head_space_head _ _ (spaces_sub_head [SP] _ (head_space_after_span t))).
    by rewrite head_space_after_span.
  - simpl. rewrite Hc. simpl. apply IH. simpl. lia.
Qed.

Lemma spaces_then_span x t :
  is_space x = false ->
  spaces_then x t
  = match span_len is_space t with
    | O => false
    | n => match drop n t with b :: _ => b =? x | [] => false end
    end.
Proof.
  intros Hx. induction t as [|c t IH]; [reflexivity|]. simpl.
  destruct (is_space c) eqn:Hc; [|reflexivity]. simpl. rewrite IH.
  destruct t as [|b t']; [reflexivity|]. simpl.
  destruct (is_space b) eqn:Hb.
  - destruct (b =? x) eqn:Hbx; [|reflexivity].
    apply N.eqb_eq in Hbx. congruence.
  - by rewrite orb_false_r.
Qed.

Lemma tag_gap_none s : Re.tag_gap None s = None -> gap_here s = false.
Proof.
  destruct s as [|c t]; [reflexivity|]. simpl.
  destruct (c =? 62) eqn:Hc; [|reflexivity].
  rewrite (spaces_then_span 60 t eq_refl). simpl.
  destruct (span_len is_space t) as [|k]; [reflexivity|].
  destruct (drop (S k) t) as [|b u]; [reflexivity|].
  destruct (b =? 60) eqn:Hb; [discriminate|reflexivity].
Qed.

Lemma tag_gap_some s n r :
  Re.tag_gap None s = Some (n, r) ->
  exists t k u, s = 62 :: t /\ span_len is_space t = S k
                /\ drop (S k) t = 60 :: u /\ n = (S k + 2)%nat /\ r = [62; 60].
Proof.
  destruct s as [|c t]; [discriminate|]. simpl.
  destruct (c =? 62) eqn:Hc; [|discriminate]. apply N.eqb_eq in Hc. subst c.
  destruct (span_len is_space t) as [|k] eqn:Hk; [discriminate|].
  destruct (drop (S k) t) as [|b u] eqn:Hd; [discriminate|].
  destruct (b =? 60) eqn:Hb; [|discriminate]. apply N.eqb_eq in Hb. subst b.
  intros [= <- <-]. by exists t, k, u.
Qed.

Lemma tag_gap_sub_shape s :
  has_tag_gap (Re.sub Re.tag_gap s) = false
  /\ head (Re.sub Re.tag_gap s) = head s
  /\ spaces_then 60 (Re.sub Re.tag_gap s) = spaces_then 60 s
  /\ (single_spaced s = true -> single_spaced (Re.sub Re.tag_gap s) = true).
Proof.
  apply (sub_ind _ blind_tag_gap
           (fun s out => has_tag_gap out = false /\ head out = head s
                         /\ spaces_then 60 out = spaces_then 60 s
                         /\ (single_spaced s = true -> single_spaced out = true))).
  - done.
  - intros c t Hm (Hg & Hh & Hs & Hss). repeat split.
    + unfold has_tag_gap in *. simpl. rewrite Hg, orb_false_r, Hs.
      apply tag_gap_none in Hm. exact Hm.
    + simpl. rewrite Hs. by destruct (Re.sub Re.tag_gap t), t; simplify_eq/=.
    + simpl. intros H. apply andb_true_iff in H as [H1 H2].
      rewrite (Hss H2), andb_true_r, (head_space_head _ _ Hh). exact H1.
  - intros c t n r Hm IH.
    apply tag_gap_some in Hm as (t' & k & u & [= -> <-] & Hk & Hd & -> & ->).
    replace (Nat.pred (S k + 2)) with (S (S k)) by lia.
    assert (drop (S (S k)) t = u) as Hu'.
    { replace (S (S k)) with (S k + 1)%nat by lia. by rewrite <- drop_drop, Hd. }
    rewrite Hu'.
    assert (length u <= length t)%nat as Hu.
    { apply (f_equal length) in Hd. rewrite length_drop in Hd. simpl in Hd. lia. }
    destruct (IH u Hu) as (Hg & Hh & Hs & Hss). repeat split.
    + unfold has_tag_gap in *. simpl. exact Hg.
    + simpl. intros H. apply Hss.
      rewrite <- Hu'. exact (single_spaced_drop (S (S (S k))) (62 :: t) H).
Qed.

(** ** Recognising a block *)

Lemma ci_strip_prefix_length p o :
  Re.ci_strip_prefix p o = Some [] -> length o = length p.
Proof.
  revert o. induction p as [|a p IH]; intros [|b o]; simpl; try done.
  destruct (Re.ci_eq a b); [|done]. intros H. by rewrite (IH o H).
Qed.

Lemma ci_strip_prefix_app p o rest :
  Re.ci_strip_prefix p o = Some [] -> Re.ci_strip_prefix p (o ++ rest) = Some rest.
Proof.
  revert o. induction p as [|a p IH]; intros [|b o]; simpl; try done.
  destruct (Re.ci_eq a b); [|done]. apply IH.
Qed.

Lemma span_len_stop f a c rest :
  forallb f a = true -> f c = false -> span_len f (a ++ c :: rest) = length a.
Proof.
  intros Ha Hc. induction a as [|b a IH]; simpl in *; [by rewrite Hc|].
  apply andb_true_iff in Ha as [Hb Ha]. by rewrite Hb, (IH Ha).
Qed.

Lemma find_app stop content rest :
  stop rest = true ->
  (forall i, (i < length content)%nat -> stop (drop i content ++ rest) = false) ->
  Re.find stop (content ++ rest) = Some (length content).
Proof.
  intros Hrest. induction content as [|c t IH]; intros Hno.
  - destruct rest; simpl; by rewrite Hrest.
  - pose proof (Hno O ltac:(simpl; lia)) as H0. rewrite drop_0 in H0.
    simpl in *. rewrite H0, IH; [reflexivity|].
    intros i Hi. apply (Hno (S i)). lia.
Qed.

Lemma anywhere_false_drop p i s :
  anywhere p s = false -> p (drop i s) = false.
Proof.
  intros H. destruct (p (drop i s)) eqn:Hp; [|reflexivity].
  assert (anywhere p (drop i s) = true) as Ha
    by (destruct (drop i s); simpl; by rewrite Hp).
  apply anywhere_drop in Ha. congruence.
Qed.

(** A literal cannot start inside [u] and end inside [v] when [v] starts
    with "<" and the literal has no "<" left to match. *)
Lemma no_straddle q u v :
  Re.ci_starts_with q u = false ->
  head v = Some 60 ->
  forallb (fun h => negb (Re.ci_eq h 60)) q = true ->
  Re.ci_starts_with q (u ++ v) = false.
Proof.
  unfold Re.ci_starts_with. revert u. induction q as [|a q IH]; intros u Hu Hv Hq.
  - by destruct u.
  - simpl in Hq. apply andb_true_iff in Hq as [Ha Hq].
    destruct u as [|b u]; simpl in *.
    + destruct v as [|x v]; [done|]. simpl in Hv. injection Hv as ->.
      by destruct (Re.ci_eq a 60).
    + destruct (Re.ci_eq a b); [|done]. by apply IH.
Qed.

Lemma ci_eq_uncased p c : Re.is_lower_letter p = false -> Re.ci_eq p c = (p =? c).
Proof. intros H. unfold Re.ci_eq. rewrite H. simpl. apply orb_false_r. Qed.

Lemma block_at tag prev o attrs content cl rest :
  Re.ci_strip_prefix (lit "<" ++ lit tag) o = Some [] ->
  forallb (other_than 62) attrs = true ->
  Re.ci_strip_prefix (lit "</" ++ lit tag ++ lit ">") cl = Some [] ->
  anywhere (Re.ci_starts_with (lit "</" ++ lit tag ++ lit ">")) content = false ->
  forallb (fun h => negb (Re.ci_eq h 60)) (lit "/" ++ lit tag ++ lit ">") = true ->
  Re.block tag prev (o ++ attrs ++ 62 :: content ++ cl ++ rest)
  = Some (length (o ++ attrs ++ 62 :: content ++ cl), (attrs, content)).
Proof.
  change (lit "</") with [60; 47]. change (lit "<") with [60].
  change (lit "/") with [47]. change (lit ">") with [62].
  intros Ho Hattrs Hcl Hcontent Htag. unfold Re.block.
  change (lit "</") with [60; 47]. change (lit "<") with [60].
  change (lit ">") with [62].
  rewrite (ci_strip_prefix_app _ _ _ Ho).
  rewrite (span_len_stop (other_than 62) attrs 62 _ Hattrs eq_refl).
  rewrite drop_app_length, take_app_length.
  cbv beta iota zeta. change (62 =? 62) with true. cbv iota.
  assert (Re.find (Re.ci_starts_with ([60; 47] ++ lit tag ++ [62]))
            (content ++ cl ++ rest) = Some (length content)) as ->.
  { apply find_app.
    - unfold Re.ci_starts_with. by rewrite (ci_strip_prefix_app _ _ _ Hcl).
    - intros i Hi.
      assert (head (cl ++ rest) = Some 60) as Hhead.
      { destruct cl as [|x cl]; [done|]. simpl in Hcl |- *.
        rewrite (ci_eq_uncased 60 x eq_refl) in Hcl.
        destruct (60 =? x) eqn:Hx; [apply N.eqb_eq in Hx; by subst|done]. }
      pose proof (anywhere_false_drop _ i _ Hcontent) as Hu.
      destruct (drop i content) as [|b u] eqn:Hd.
      { apply (f_equal length) in Hd. rewrite length_drop in Hd. simpl in Hd. lia. }
      unfold Re.ci_starts_with in *. simpl in *.
      destruct (Re.ci_eq 60 b); [|done].
      by apply (no_straddle ([47] ++ lit tag ++ [62])). }
  rewrite take_app_length. f_equal. f_equal.
  apply ci_strip_prefix_length in Ho, Hcl.
  rewrite !length_app. simpl. rewrite !length_app, Ho, Hcl.
  rewrite !length_app. simpl. lia.
Qed.

(** ** Extraction numbers the blocks *)

Lemma sub_fn_scan_numbers {G : Type} (m : Re.matcher G) (ph : nat -> str)
    (mk : G -> str) skip prev s (st : list str) :
  Re.sub_fn_scan m (fun g st => (ph (length st), st ++ [mk g])) skip prev s st
  = (Re.fill ph (length st) (Re.pieces_scan m skip prev s),
     st ++ map mk (Re.found (Re.pieces_scan m skip prev s))).
Proof.
  revert skip prev st. induction s as [|c t IH]; intros skip prev st.
  - simpl. by rewrite app_nil_r.
  - simpl. destruct skip as [|k]; [|apply IH].
    destruct (m prev (c :: t)) as [[n g]|].
    + rewrite IH. simpl. rewrite length_app. simpl.
      replace (length st + 1)%nat with (S (length st)) by lia.
      by rewrite <- app_assoc.
    + by rewrite IH.
Qed.

Lemma extract_styles_numbers s st :
  Re.sub_fn_scan style_pattern replace_style O None s st
  = (Re.fill style_placeholder (length st) (Re.pieces style_pattern s),
     st ++ map style_block (Re.found (Re.pieces style_pattern s))).
Proof. exact (sub_fn_scan_numbers style_pattern style_placeholder style_block O None s st). Qed.

Lemma extract_scripts_numbers wide s st :
  Re.sub_fn_scan script_pattern (replace_script wide) O None s st
  = (Re.fill script_placeholder (length st) (Re.pieces script_pattern s),
     st ++ map (script_block wide) (Re.found (Re.pieces script_pattern s))).
Proof.
  exact (sub_fn_scan_numbers script_pattern script_placeholder (script_block wide)
           O None s st).
Qed.

Lemma pieces_scan_skip_all {G : Type} (m : Re.matcher G) k p s :
  (length s <= k)%nat -> Re.pieces_scan m k p s = [].
Proof.
  revert k p. induction s as [|c t IH]; intros k p Hk; [reflexivity|].
  destruct k as [|k]; simpl in *; [lia|]. apply IH. lia.
Qed.

(** A match that covers the whole text is the only piece. *)
Lemma pieces_whole {G : Type} (m : Re.matcher G) s g :
  s <> [] -> m None s = Some (length s, g) -> Re.pieces m s = [Re.Found g].
Proof.
  intros Hs Hm. destruct s as [|c t]; [done|]. unfold Re.pieces. simpl.
  rewrite Hm. f_equal. apply pieces_scan_skip_all. simpl. lia.
Qed.

(** Where the pattern matches nowhere, every character is kept. *)
Lemma pieces_scan_no_match {G : Type} (m : Re.matcher G) p s :
  (forall q i, m q (drop i s) = None) -> Re.pieces_scan m O p s = map Re.Kept s.
Proof.
  revert p. induction s as [|c t IH]; intros p Hno; [reflexivity|]. simpl.
  pose proof (Hno p O) as H0. rewrite drop_0 in H0. rewrite H0. f_equal.
  apply IH. intros q i. exact (Hno q (S i)).
Qed.

Lemma fill_kept {G : Type} (r : nat -> str) idx s :
  Re.fill r idx (map (@Re.Kept G) s) = s /\ Re.found (map (@Re.Kept G) s) = [].
Proof. induction s as [|c t [IH1 IH2]]; [done|]. simpl. by rewrite IH1, IH2. Qed.

Lemma block_needs_opening tag p s :
  Re.ci_starts_with (lit "<" ++ lit tag) s = false -> Re.block tag p s = None.
Proof.
  unfold Re.block, Re.ci_starts_with.
  by destruct (Re.ci_strip_prefix (lit "<" ++ lit tag) s).
Qed.

(** ** Documents that are one block *)

Lemma single_style_block (wide : char -> bool) o attrs content cl :
  Re.ci_strip_prefix (lit "<style") o = Some [] ->
  forallb (other_than 62) attrs = true ->
  Re.ci_strip_prefix (lit "</style>") cl = Some [] ->
  anywhere (Re.ci_starts_with (lit "</style>")) content = false ->
  minify_html wide (o ++ attrs ++ 62 :: content ++ cl) = style_block content.
Proof.
  intros Ho Hattrs Hcl Hcontent.
  assert (style_pattern None (o ++ attrs ++ 62 :: content ++ cl)
          = Some (length (o ++ attrs ++ 62 :: content ++ cl), content)) as Hm.
  { unfold style_pattern.
    pose proof (block_at "style" None o attrs content cl [] Ho Hattrs Hcl
                  Hcontent eq_refl) as H.
    rewrite app_nil_r in H. by rewrite H. }
  assert (o ++ attrs ++ 62 :: content ++ cl <> []) as Hne by (by destruct o, attrs).
  unfold minify_html, collapse_markup, Re.sub_fn.
  rewrite extract_styles_numbers, (pieces_whole _ _ _ Hne Hm).
  cbn [Re.found Re.fill map app length].
  generalize (style_block content). intros b. vm_compute. apply app_nil_r.
Qed.

Lemma single_script_block (wide : char -> bool) o attrs content cl :
  Re.ci_strip_prefix (lit "<script") o = Some [] ->
  forallb (other_than 62) attrs = true ->
  Re.ci_strip_prefix (lit "</script>") cl = Some [] ->
  anywhere (Re.ci_starts_with (lit "</script>")) content = false ->
  anywhere (Re.ci_starts_with (lit "<style")) (o ++ attrs ++ 62 :: content ++ cl)
  = false ->
  minify_html wide (o ++ attrs ++ 62 :: content ++ cl)
  = script_block wide (attrs, content).
Proof.
  intros Ho Hattrs Hcl Hcontent Hstyle.
  assert (script_pattern None (o ++ attrs ++ 62 :: content ++ cl)
          = Some (length (o ++ attrs ++ 62 :: content ++ cl), (attrs, content)))
    as Hm.
  { unfold script_pattern.
    pose proof (block_at "script" None o attrs content cl [] Ho Hattrs Hcl
                  Hcontent eq_refl) as H.
    by rewrite app_nil_r in H. }
  assert (o ++ attrs ++ 62 :: content ++ cl <> []) as Hne by (by destruct o, attrs).
  unfold minify_html, collapse_markup, Re.sub_fn.
  rewrite extract_styles_numbers. unfold Re.pieces at 1 2.
  rewrite pieces_scan_no_match.
  2:{ intros q i. unfold style_pattern. rewrite block_needs_opening; [done|].
      by apply anywhere_false_drop. }
  destruct (fill_kept (G := str) style_placeholder (length (@nil str))
              (o ++ attrs ++ 62 :: content ++ cl)) as [-> ->].
  rewrite extract_scripts_numbers, (pieces_whole _ _ _ Hne Hm).
  cbn [Re.found Re.fill map app length].
  generalize (script_block wide (attrs, content)). intros b.
  vm_compute. apply app_nil_r.
Qed.

(** ** Blank text *)

Lemma lstrip_blank s : forallb is_space s = true -> lstrip s = [].
Proof.
  induction s as [|c t IH]; [reflexivity|]. simpl. intros H.
  apply andb_true_iff in H as [Hc Ht]. rewrite Hc. by apply IH.
Qed.

Lemma strip_blank s : forallb is_space s = true -> strip s = [].
Proof. intros H. unfold strip. by rewrite (lstrip_blank s H). Qed.

Lemma lstrip_head s : head_space (lstrip s) = false.
Proof.
  induction s as [|c t IH]; [reflexivity|]. simpl.
  destruct (is_space c) eqn:Hc; [exact IH|]. simpl. exact Hc.
Qed.

Lemma rstrip_head s : head_space s = false -> head_space (rstrip s) = false.
Proof.
  destruct s as [|c t]; [reflexivity|]. simpl. intros Hc.
  destruct (rstrip t); simpl; by rewrite Hc.
Qed.

Lemma strip_head s : head_space (strip s) = false.
Proof. apply rstrip_head, lstrip_head. Qed.

Lemma blank_has_no_tag q content :
  forallb is_space content = true ->
  anywhere (Re.ci_starts_with (60 :: q)) content = false.
Proof.
  induction content as [|c t IH]; [reflexivity|]. simpl. intros H.
  apply andb_true_iff in H as [Hc Ht]. rewrite (IH Ht), orb_false_r.
  unfold Re.ci_starts_with. simpl. rewrite (ci_eq_uncased 60 c eq_refl).
  destruct (60 =? c) eqn:E; [|reflexivity]. apply N.eqb_eq in E. by subst c.
Qed.

(** A text without "<" before a text [b] adds no occurrence of a literal
    that starts with "<". *)
Lemma anywhere_skip_no_lt q a b :
  forallb (other_than 60) a = true ->
  anywhere (Re.ci_starts_with (60 :: q)) (a ++ b)
  = anywhere (Re.ci_starts_with (60 :: q)) b.
Proof.
  induction a as [|c t IH]; [reflexivity|]. simpl. intros H.
  apply andb_true_iff in H as [Hc Ht]. rewrite (IH Ht).
  unfold Re.ci_starts_with at 1. simpl. rewrite (ci_eq_uncased 60 c eq_refl).
  unfold other_than in Hc. rewrite N.eqb_sym in Hc.
  by destruct (60 =? c).
Qed.

Lemma script_document_has_no_style attrs content :
  forallb (other_than 60) attrs = true ->
  forallb is_space content = true ->
  anywhere (Re.ci_starts_with (lit "<style"))
    (lit "<script" ++ attrs ++ 62 :: content ++ lit "</script>") = false.
Proof.
  intros Hattrs Hcontent.
  change (lit "<style") with (60 :: lit "style").
  change (lit "<script") with ([60] ++ lit "script").
  rewrite <- app_assoc. cbn [app anywhere].
  rewrite (anywhere_skip_no_lt _ (lit "script") _ eq_refl).
  rewrite (anywhere_skip_no_lt _ attrs _ Hattrs).
  change (62 :: content ++ lit "</script>") with ([62] ++ content ++ lit "</script>").
  rewrite (anywhere_skip_no_lt _ [62] _ eq_refl).
  rewrite (anywhere_skip_no_lt _ content).
  2:{ clear -Hcontent. induction content as [|c t IH]; [reflexivity|]. simpl in *.
      apply andb_true_iff in Hcontent as [Hc Ht]. rewrite (IH Ht), andb_true_r.
      unfold other_than. destruct (c =? 60) eqn:E; [|reflexivity].
      apply N.eqb_eq in E. by subst c. }
  replace (anywhere _ (lit "</script>")) with false by (vm_compute; reflexivity).
  rewrite orb_false_r. generalize (attrs ++ [62] ++ content ++ lit "</script>").
  intros x. vm_compute. reflexivity.
Qed.

(** ** What [collapse_markup] registers *)

Lemma collapse_markup_numbers (wide : char -> bool) (doc : str) :
  let styles := Re.pieces style_pattern doc in
  let h1 := Re.fill style_placeholder 0 styles in
  let scripts := Re.pieces script_pattern h1 in
  let h2 := Re.fill script_placeholder 0 scripts in
  collapse_markup wide doc
  = (strip (Re.sub Re.tag_gap
              (Re.sub (Re.spaces [SP])
                 (Re.sub (Re.delimited (lit "<!--") (lit "-->")) h2))),
     map style_block (Re.found styles),
     map (script_block wide) (Re.found scripts)).
Proof.
  unfold collapse_markup, Re.sub_fn.
  rewrite extract_styles_numbers. cbn [length app].
  rewrite extract_scripts_numbers. reflexivity.
Qed.

(** ** Substitutions that shorten, and substitutions that change nothing *)

Lemma sub_length (m : Re.matcher str) (Hb : Re.blind m) :
  (forall s n r, m None s = Some (n, r) -> (length r <= 1)%nat) ->
  forall s, (length (Re.sub m s) <= length s)%nat.
Proof.
  intros Hm. induction s as [s IH] using length_ind.
  destruct s as [|c t]; [done|]. rewrite (sub_cons m Hb).
  destruct (m None (c :: t)) as [[n r]|] eqn:E.
  - rewrite length_app. pose proof (Hm _ _ _ E).
    assert (length (Re.sub m (drop (Nat.pred n) t)) <= length t)%nat.
    { etrans; [apply IH; rewrite length_drop; simpl; lia|].
      rewrite length_drop. lia. }
    simpl. lia.
  - simpl. pose proof (IH t ltac:(simpl; lia)). lia.
Qed.

(** A substitution that replaces every match by the matched text returns
    its argument. *)
Lemma sub_same (m : Re.matcher str) (Hb : Re.blind m) s :
  (forall i n r, m None (drop i s) = Some (n, r) ->
     (1 <= n)%nat /\ r = take n (drop i s)) ->
  Re.sub m s = s.
Proof.
  induction s as [s IH] using length_ind. intros Hsame.
  destruct s as [|c t]; [done|]. rewrite (sub_cons m Hb).
  destruct (m None (c :: t)) as [[n r]|] eqn:E.
  - destruct (Hsame O n r E) as [Hn ->]. rewrite drop_0.
    destruct n as [|n]; [lia|]. cbn [Nat.pred].
    rewrite IH.
    + change (drop n t) with (drop (S n) (c :: t)). apply take_drop.
    + rewrite length_drop. simpl. lia.
    + intros i k r Hm. specialize (Hsame (S n + i)%nat k r).
      rewrite <- drop_drop in Hsame. exact (Hsame Hm).
  - f_equal. apply IH; [simpl; lia|].
    intros i k r Hm. exact (Hsame (S i) k r Hm).
Qed.

Lemma sub_no_match (m : Re.matcher str) (Hb : Re.blind m) s :
  (forall i, m None (drop i s) = None) -> Re.sub m s = s.
Proof.
  intros Hno. apply (sub_same m Hb). intros i n r Hm. by rewrite Hno in Hm.
Qed.

(** ** White space around the structural characters *)

Lemma tight_drop sp n s : tight sp s = true -> tight sp (drop n s) = true.
Proof.
  revert s. induction n as [|n IH]; intros s H; [by rewrite drop_0|].
  destruct s as [|c t]; [reflexivity|]. simpl in *.
  apply andb_true_iff in H as [_ H]. by apply IH.
Qed.

Lemma tight_app_l sp s1 s2 : tight sp (s1 ++ s2) = true -> tight sp s1 = true.
Proof.
  induction s1 as [|c t IH]; [reflexivity|]. simpl. intros H.
  apply andb_true_iff in H as [H1 H2]. rewrite (IH H2), andb_true_r.
  destruct t as [|d t']; [reflexivity|]. exact H1.
Qed.

Lemma tight_strip sp s : tight sp s = true -> tight sp (strip s) = true.
Proof.
  intros H. unfold strip. destruct (lstrip_is_drop s) as [n Hn].
  destruct (rstrip_is_prefix (lstrip s)) as [w Hw].
  apply (tight_app_l _ _ w). rewrite <- Hw, Hn. by apply tight_drop.
Qed.

Section Padded.

Variable set : string.
Hypothesis set_not_space : forall c, one_of set c = true -> is_space c = false.

Lemma padded_some s n r :
  Re.padded set None s = Some (n, r) ->
  exists c t, drop (span_len is_space s) s = c :: t /\ one_of set c = true
              /\ n = (span_len is_space s + 1 + span_len is_space t)%nat
              /\ r = [c].
Proof.
  unfold Re.padded. cbv zeta.
  destruct (drop (span_len is_space s) s) as [|c t]; [done|].
  destruct (one_of set c) eqn:Hc; [|done]. intros [= <- <-]. by exists c, t.
Qed.

Lemma padded_none_space c t :
  is_space c = true -> Re.padded set None (c :: t) = None ->
  Re.padded set None t = None.
Proof.
  unfold Re.padded. simpl. intros ->. simpl.
  destruct (drop (span_len is_space t) t) as [|d u]; [done|].
  by destruct (one_of set d).
Qed.

Lemma padded_none_other c t :
  is_space c = false -> Re.padded set None (c :: t) = None -> one_of set c = false.
Proof.
  unfold Re.padded. simpl. intros ->. simpl. by destruct (one_of set c).
Qed.

Lemma padded_some_space c t n r :
  is_space c = true -> Re.padded set None t = Some (n, r) ->
  Re.padded set None (c :: t) = Some (S n, r).
Proof.
  unfold Re.padded. simpl. intros ->. simpl.
  destruct (drop (span_len is_space t) t) as [|d u]; [done|].
  destruct (one_of set d); [|done]. by intros [= <- <-].
Qed.

(** What follows a match does not start with white space. *)
Lemma padded_rest s n r :
  Re.padded set None s = Some (n, r) -> head_space (drop n s) = false.
Proof.
  intros H. apply padded_some in H as (c & t & Hd & _ & -> & _).
  replace (span_len is_space s + 1 + span_len is_space t)%nat
    with (span_len is_space s + (1 + span_len is_space t))%nat by lia.
  rewrite <- drop_drop, Hd. simpl. apply head_space_after_span.
Qed.

Lemma padded_sub_head s :
  head (Re.sub (Re.padded set) s)
  = match Re.padded set None s with
    | Some (_, r) => head r
    | None => head s
    end.
Proof.
  destruct s as [|c t]; [reflexivity|]. rewrite (sub_cons _ (blind_padded set)).
  destruct (Re.padded set None (c :: t)) as [[n r]|] eqn:E; [|reflexivity].
  apply padded_some in E as (d & u & _ & _ & _ & ->). reflexivity.
Qed.

Lemma padded_sub_head_space s :
  head_space s = false -> head_space (Re.sub (Re.padded set) s) = false.
Proof.
  intros Hs. pose proof (padded_sub_head s) as H.
  destruct (Re.padded set None s) as [[n r]|] eqn:E.
  - apply padded_some in E as (d & u & _ & Hd & _ & ->).
    destruct (Re.sub (Re.padded set) s) as [|x y]; [done|]. simpl in *.
    injection H as ->. by apply set_not_space.
  - by rewrite (head_space_head _ _ H).
Qed.

(** After the substitution no white space is next to a character of the
    set. *)
Lemma padded_tight s : tight (one_of set) (Re.sub (Re.padded set) s) = true.
Proof.
  induction s as [s IH] using length_ind. destruct s as [|c t]; [reflexivity|].
  rewrite (sub_cons _ (blind_padded set)).
  destruct (Re.padded set None (c :: t)) as [[n r]|] eqn:E.
  - pose proof (padded_rest _ _ _ E) as Hrest.
    apply padded_some in E as (d & u & _ & Hd & -> & ->).
    replace (Nat.pred (span_len is_space (c :: t) + 1 + span_len is_space u))
      with (span_len is_space (c :: t) + span_len is_space u)%nat by lia.
    replace (span_len is_space (c :: t) + 1 + span_len is_space u)%nat
      with (S (span_len is_space (c :: t) + span_len is_space u)) in Hrest by lia.
    simpl in Hrest. apply padded_sub_head_space in Hrest.
    set (out := Re.sub _ _) in *.
    assert (tight (one_of set) out = true) as Hout
      by (apply IH; rewrite length_drop; simpl; lia).
    simpl. rewrite Hout, andb_true_r. destruct out as [|b out']; [done|].
    unfold no_clash, clash. simpl in *.
    by rewrite Hrest, (set_not_space d Hd), andb_false_r.
  - pose proof (IH t ltac:(simpl; lia)) as Hout.
    pose proof (padded_sub_head t) as Hh.
    simpl. rewrite Hout, andb_true_r.
    destruct (Re.sub (Re.padded set) t) as [|b out'] eqn:Eo; [done|].
    unfold no_clash, clash. cbn [head]. destruct (is_space c) eqn:Hc.
    + rewrite (padded_none_space c t Hc E) in Hh.
      destruct (one_of set c) eqn:Hsc; [by rewrite (set_not_space c Hsc) in Hc|].
      simpl. rewrite orb_false_r. destruct t as [|b' t']; [done|].
      simpl in Hh. injection Hh as ->.
      destruct (is_space b') eqn:Hb.
      * destruct (one_of set b') eqn:Hsb; [|done].
        by rewrite (set_not_space b' Hsb) in Hb.
      * by rewrite (padded_none_other b' t' Hb (padded_none_space c _ Hc E)).
    + by rewrite (padded_none_other c t Hc E).
Qed.

Lemma padded_preserves sp s :
  (single_spaced s = true -> single_spaced (Re.sub (Re.padded set) s) = true)
  /\ (tight sp s = true -> tight sp (Re.sub (Re.padded set) s) = true).
Proof.
  induction s as [s IH] using length_ind. destruct s as [|c t]; [done|].
  rewrite (sub_cons _ (blind_padded set)).
  destruct (Re.padded set None (c :: t)) as [[n r]|] eqn:E.
  - pose proof (padded_rest _ _ _ E) as Hrest.
    apply padded_some in E as (d & u & _ & Hd & Hn & ->).
    destruct n as [|n]; [lia|]. cbn [Nat.pred]. simpl in Hrest.
    apply padded_sub_head_space in Hrest.
    destruct (IH (drop n t) ltac:(rewrite length_drop; simpl; lia)) as [IH1 IH2].
    set (out := Re.sub _ _) in *. split; intros H.
    + simpl. rewrite (set_not_space d Hd). simpl. apply IH1.
      exact (single_spaced_drop (S n) (c :: t) H).
    + simpl. rewrite IH2.
      * rewrite andb_true_r. destruct out as [|b out']; [done|].
        unfold no_clash, clash. simpl in *.
        by rewrite Hrest, (set_not_space d Hd), andb_false_r.
      * exact (tight_drop sp (S n) (c :: t) H).
  - destruct (IH t ltac:(simpl; lia)) as [IH1 IH2].
    pose proof (padded_sub_head t) as Hh.
    destruct (Re.padded set None t) as [[n r]|] eqn:Et.
    + assert (is_space c = false) as Hc.
      { destruct (is_space c) eqn:Hc; [|done].
        by rewrite (padded_some_space c t n r Hc Et) in E. }
      apply padded_some in Et as (d & u & _ & Hd & _ & ->). simpl in Hh.
      split; intros H; simpl in *; apply andb_true_iff in H as [_ H].
      * by rewrite Hc, IH1.
      * rewrite (IH2 H), andb_true_r, Hh. unfold no_clash, clash.
        by rewrite Hc, (set_not_space d Hd), andb_false_r.
    + split; intros H; simpl in *; apply andb_true_iff in H as [H1 H2].
      * by rewrite (IH1 H2), andb_true_r, (head_space_head _ _ Hh).
      * by rewrite (IH2 H2), andb_true_r, Hh.
Qed.

End Padded.

Lemma one_of_not_space set :
  forallb (fun k => negb (is_space k)) (lit set) = true ->
  forall c, one_of set c = true -> is_space c = false.
Proof.
  intros Hall c H. unfold one_of in H.
  apply existsb_exists in H as (k & Hin & Hk). apply N.eqb_eq in Hk. subst k.
  rewrite forallb_forall in Hall. specialize (Hall c Hin).
  by destruct (is_space c).
Qed.

Lemma tight_no_space_before sp u c t :
  tight sp u = true -> drop (span_len is_space u) u = c :: t -> sp c = true ->
  span_len is_space u = O.
Proof.
  induction u as [|x u IH]; [done|]. simpl.
  destruct (is_space x) eqn:Hx; [|done]. simpl. intros H Hd Hc.
  apply andb_true_iff in H as [H1 H2]. specialize (IH H2 Hd Hc).
  rewrite IH, drop_0 in Hd. subst u. simpl in H1. unfold clash in H1.
  by rewrite Hx, Hc in H1.
Qed.

Lemma padded_same set s :
  tight (one_of set) s = true -> Re.sub (Re.padded set) s = s.
Proof.
  intros H. apply (sub_same _ (blind_padded set)). intros i n r Hm.
  pose proof (tight_drop _ i _ H) as Hu. generalize dependent (drop i s).
  intros u Hm Hu.
  apply padded_some in Hm as (c & t & Hd & Hc & -> & ->).
  pose proof (tight_no_space_before _ _ _ _ Hu Hd Hc) as Hz.
  rewrite Hz in Hd |- *. change (drop 0 u) with u in Hd. subst u.
  simpl in Hu. apply andb_true_iff in Hu as [H1 _].
  assert (span_len is_space t = O) as ->.
  { destruct t as [|b t']; [done|]. simpl in *. unfold clash in H1.
    rewrite Hc in H1. destruct (is_space b); [|done].
    by rewrite orb_true_r in H1. }
  split; [lia|reflexivity].
Qed.

Lemma collapse_same s :
  single_spaced s = true -> Re.sub (Re.spaces [SP]) s = s.
Proof.
  intros H. apply (sub_same _ (blind_spaces _)). intros i n r Hm.
  pose proof (single_spaced_drop i _ H) as Hu. generalize dependent (drop i s).
  intros u Hm Hu.
  unfold Re.spaces in Hm. destruct u as [|c t]; [done|]. simpl in *.
  destruct (is_space c) eqn:Hc; [|done]. injection Hm as <- <-.
  apply andb_true_iff in Hu as [H1 _]. simpl in H1.
  apply andb_true_iff in H1 as [Hsp Ht]. apply N.eqb_eq in Hsp. subst c.
  assert (span_len is_space t = O) as ->
    by (destruct t as [|b t']; [done|]; simpl in *; by destruct (is_space b)).
  split; [lia|reflexivity].
Qed.

Lemma delimited_same o c s :
  contains o s = false -> Re.sub (Re.delimited o c) s = s.
Proof.
  intros H. apply (sub_no_match _ (blind_delimited o c)). intros i.
  pose proof (anywhere_false_drop _ i _ H) as Hu. unfold Re.delimited.
  unfold starts_with in Hu. by destruct (strip_prefix o (drop i s)).
Qed.

Lemma literal_same old new s :
  contains old s = false -> Re.sub (Re.literal old new) s = s.
Proof.
  intros H. apply (sub_no_match _ (blind_literal old new)). intros i.
  pose proof (anywhere_false_drop _ i _ H) as Hu. unfold Re.literal.
  by rewrite Hu.
Qed.

Lemma lstrip_same s : head_space s = false -> lstrip s = s.
Proof. destruct s as [|c t]; [done|]. simpl. by intros ->. Qed.

Lemma rstrip_idem s : rstrip (rstrip s) = rstrip s.
Proof.
  induction s as [|c t IH]; [reflexivity|]. simpl.
  destruct (rstrip t) as [|d r] eqn:Hr.
  - destruct (is_space c) eqn:Hc; [reflexivity|]. simpl. by rewrite Hc.
  - change (rstrip (c :: d :: r)) with
      (match rstrip (d :: r) with
       | [] => if is_space c then [] else [c]
       | x => c :: x
       end).
    by rewrite IH.
Qed.

Lemma strip_idem s : strip (strip s) = strip s.
Proof.
  unfold strip. rewrite (lstrip_same (rstrip (lstrip s))).
  - apply rstrip_idem.
  - apply rstrip_head, lstrip_head.
Qed.

(** ";}" replaced by "}" *)
Lemma semi_brace_some s n r :
  Re.literal (lit ";}") (lit "}") None s = Some (n, r) ->
  exists rest, s = 59 :: 125 :: rest /\ n = 2%nat /\ r = [125].
Proof.
  unfold Re.literal, starts_with. change (lit ";}") with [59; 125].
  destruct s as [|a [|b rest]]; simpl.
  - done.
  - by destruct (59 =? a).
  - destruct (59 =? a) eqn:Ha; [|done]. destruct (125 =? b) eqn:Hb; [|done].
    apply N.eqb_eq in Ha, Hb. subst. intros [= <- <-]. by exists rest.
Qed.

Lemma semi_brace_sub_head s :
  head (Re.sub (Re.literal (lit ";}") (lit "}")) s)
  = match Re.literal (lit ";}") (lit "}") None s with
    | Some _ => Some 125
    | None => head s
    end.
Proof.
  destruct s as [|c t]; [reflexivity|]. rewrite (sub_cons _ (blind_literal _ _)).
  destruct (Re.literal _ _ None (c :: t)) as [[n r]|] eqn:E; [|reflexivity].
  by apply semi_brace_some in E as (rest & _ & _ & ->).
Qed.

Lemma single_spaced_cons c t :
  single_spaced (c :: t)
  = (negb (is_space c) || ((c =? SP) && negb (head_space t))) && single_spaced t.
Proof. reflexivity. Qed.

Lemma tight_cons sp c t : tight sp (c :: t) = no_clash sp c (head t) && tight sp t.
Proof. reflexivity. Qed.

Lemma semi_brace_preserves sp s :
  (sp 125 = true -> sp 59 = true) ->
  (single_spaced s = true ->
   single_spaced (Re.sub (Re.literal (lit ";}") (lit "}")) s) = true)
  /\ (tight sp s = true ->
      tight sp (Re.sub (Re.literal (lit ";}") (lit "}")) s) = true).
Proof.
  intros Hsp. induction s as [s IH] using length_ind.
  destruct s as [|c t]; [done|]. rewrite (sub_cons _ (blind_literal _ _)).
  destruct (Re.literal _ _ None (c :: t)) as [[n r]|] eqn:E.
  - apply semi_brace_some in E as (rest & [= -> ->] & -> & ->).
    change (drop (Nat.pred 2) (125 :: rest)) with rest.
    destruct (IH rest ltac:(simpl; lia)) as [IH1 IH2].
    pose proof (semi_brace_sub_head rest) as Hh.
    generalize dependent (Re.sub (Re.literal (lit ";}") (lit "}")) rest).
    intros out IH1 IH2 Hh. change ([125] ++ out) with (125 :: out).
    split; intros H.
    + rewrite single_spaced_cons. change (is_space 125) with false.
      apply IH1. exact (single_spaced_drop 2 _ H).
    + pose proof (tight_drop sp 1 _ H) as H1. change (drop 1 _) with (125 :: rest) in H1.
      rewrite tight_cons in H1 |- *. apply andb_true_iff in H1 as [H1 H2].
      rewrite (IH2 H2), andb_true_r, Hh.
      destruct (Re.literal _ _ None rest); [|exact H1].
      unfold no_clash, clash. change (is_space 125) with false.
      by rewrite andb_false_r.
  - destruct (IH t ltac:(simpl; lia)) as [IH1 IH2].
    pose proof (semi_brace_sub_head t) as Hh.
    generalize dependent (Re.sub (Re.literal (lit ";}") (lit "}")) t).
    intros out IH1 IH2 Hh.
    destruct (Re.literal _ _ None t) as [[n r]|] eqn:Et.
    + apply semi_brace_some in Et as (rest & -> & _ & _).
      split; intros H.
      * rewrite single_spaced_cons in H |- *. apply andb_true_iff in H as [H1 H2].
        rewrite (IH1 H2), andb_true_r, (head_space_head out [125] Hh). exact H1.
      * rewrite tight_cons in H |- *. apply andb_true_iff in H as [H1 H2].
        rewrite (IH2 H2), andb_true_r, Hh. unfold no_clash, clash in *.
        cbn [head] in H1.
        change (is_space 125) with false. change (is_space 59) with false in H1.
        rewrite andb_false_r, orb_false_r in *.
        destruct (sp 125) eqn:E125; [|by rewrite andb_false_r].
        by rewrite (Hsp eq_refl) in H1.
    + split; intros H.
      * rewrite single_spaced_cons in H |- *. apply andb_true_iff in H as [H1 H2].
        by rewrite (IH1 H2), andb_true_r, (head_space_head _ _ Hh).
      * rewrite tight_cons in H |- *. apply andb_true_iff in H as [H1 H2].
        by rewrite (IH2 H2), andb_true_r, Hh.
Qed.

(** ** The shape of minified CSS *)

Lemma css_specials_not_space c : one_of "{}:;,>+~" c = true -> is_space c = false.
Proof. by apply one_of_not_space. Qed.

Lemma css_parens_not_space c : one_of "()" c = true -> is_space c = false.
Proof. by apply one_of_not_space. Qed.

Lemma minify_css_shape x :
  single_spaced (minify_css x) = true
  /\ tight (one_of "{}:;,>+~") (minify_css x) = true
  /\ tight (one_of "()") (minify_css x) = true.
Proof.
  unfold minify_css.
  set (x1 := Re.sub (Re.delimited _ _) x).
  pose proof (collapse_single_spaced x1) as H2.
  set (x2 := Re.sub (Re.spaces _) x1) in *.
  pose proof (proj1 (padded_preserves _ css_specials_not_space is_space x2) H2) as H3.
  pose proof (padded_tight _ css_specials_not_space x2) as T3.
  set (x3 := Re.sub (Re.padded "{}:;,>+~") x2) in *.
  destruct (padded_preserves _ css_parens_not_space (one_of "{}:;,>+~") x3)
    as [H4 T4].
  specialize (H4 H3). specialize (T4 T3).
  pose proof (padded_tight _ css_parens_not_space x3) as P4.
  set (x4 := Re.sub (Re.padded "()") x3) in *.
  destruct (semi_brace_preserves (one_of "{}:;,>+~") x4 (fun _ => eq_refl))
    as [H5 T5].
  destruct (semi_brace_preserves (one_of "()") x4
              ltac:(by intros [=])) as [_ P5].
  split; [|split].
  - apply single_spaced_strip, H5, H4.
  - apply tight_strip, T5, T4.
  - apply tight_strip, P5, P4.
Qed.

Lemma strip_length s : (length (strip s) <= length s)%nat.
Proof.
  unfold strip. destruct (lstrip_is_drop s) as [n Hn].
  destruct (rstrip_is_prefix (lstrip s)) as [w Hw].
  apply (f_equal length) in Hw. rewrite Hn in Hw |- *.
  rewrite length_app, length_drop in Hw. lia.
Qed.

(** ** Comments left by one scan *)

Lemma strip_prefix_drop p s w : strip_prefix p s = Some w -> w = drop (length p) s.
Proof.
  revert s. induction p as [|a p IH]; intros s; simpl.
  - by intros [= ->].
  - destruct s as [|b s]; [done|]. destruct (a =? b); [|done]. apply IH.
Qed.

Lemma strip_prefix_app_same x p y :
  starts_with (x ++ p) (x ++ y) = starts_with p y.
Proof.
  unfold starts_with. induction x as [|a x IH]; [reflexivity|]. simpl.
  by rewrite N.eqb_refl.
Qed.

Lemma anywhere_head p s : anywhere p s = false -> p s = false.
Proof. destruct s; simpl; intros H; by apply orb_false_iff in H as [H _]. Qed.

Lemma contains_drop_false old n s :
  contains old s = false -> contains old (drop n s) = false.
Proof.
  intros H. destruct (contains old (drop n s)) eqn:E; [|reflexivity].
  apply anywhere_drop in E. unfold contains in H. congruence.
Qed.

Lemma find_none stop s : Re.find stop s = None <-> anywhere stop s = false.
Proof.
  induction s as [|c t IH]; simpl.
  - destruct (stop []); simpl; split; congruence.
  - destruct (stop (c :: t)); simpl; [split; congruence|].
    rewrite <- IH. destruct (Re.find stop t); simpl; split; congruence.
Qed.

Lemma delimited_none o c s :
  Re.delimited o c None s = None <-> comment_tail c o s = false.
Proof.
  unfold Re.delimited, comment_tail, contains.
  destruct (strip_prefix o s) as [w|]; [|done].
  rewrite <- find_none. destruct (Re.find (starts_with c) w); split; congruence.
Qed.

Lemma delimited_some o c s n r :
  Re.delimited o c None s = Some (n, r) -> r = [] /\ starts_with o s = true.
Proof.
  unfold Re.delimited, starts_with. destruct (strip_prefix o s); [|done].
  destruct (Re.find _ _); [|done]. by intros [= <- <-].
Qed.

(** Where the closing delimiter does not occur, the scan removes nothing. *)
Lemma delimited_no_closing o c w :
  contains c w = false -> Re.sub (Re.delimited o c) w = w.
Proof.
  intros H. apply (sub_no_match _ (blind_delimited o c)). intros i.
  apply delimited_none. unfold comment_tail.
  destruct (strip_prefix o (drop i w)) as [w'|] eqn:E; [|reflexivity].
  apply strip_prefix_drop in E. subst w'. rewrite drop_drop.
  by apply contains_drop_false.
Qed.

(** If the result of the scan starts with [p], either the text did and no
    comment started in front of it, or a comment of the text started after
    a proper prefix of [p]. *)
Lemma prefix_through_scan o c p s w :
  strip_prefix p (Re.sub (Re.delimited o c) s) = Some w ->
  (exists w', strip_prefix p s = Some w' /\ w = Re.sub (Re.delimited o c) w')
  \/ (exists j, (j < length p)%nat /\ take j s = take j p
                /\ starts_with o (drop j s) = true).
Proof.
  revert s w. induction p as [|a p IH]; intros s w.
  - simpl. intros [= <-]. left. by exists s.
  - destruct s as [|c0 t]; [done|]. rewrite (sub_cons _ (blind_delimited o c)).
    destruct (Re.delimited o c None (c0 :: t)) as [[n r]|] eqn:E.
    + intros _. right. exists O. apply delimited_some in E as [_ E].
      repeat split; [simpl; lia|exact E].
    + simpl. destruct (a =? c0) eqn:Ha; [|done]. apply N.eqb_eq in Ha. subst c0.
      intros H. apply IH in H as [(w' & H1 & H2)|(j & Hj & Ht & Ho)].
      * left. by exists w'.
      * right. exists (S j). simpl. rewrite Ht. repeat split; [lia|exact Ho].
Qed.

Lemma scan_leaves_no_comment o c s :
  o <> [] ->
  (forall k, (1 <= k < length o)%nat -> contains (take k o ++ o) s = false) ->
  has_comment o c (Re.sub (Re.delimited o c) s) = false.
Proof.
  intros Ho. induction s as [s IH] using length_ind. intros Hj.
  destruct s as [|c0 t].
  { unfold has_comment, comment_tail, Re.sub. simpl. by destruct o. }
  rewrite (sub_cons _ (blind_delimited o c)).
  destruct (Re.delimited o c None (c0 :: t)) as [[n r]|] eqn:E.
  - apply delimited_some in E as [-> _]. simpl. apply IH.
    + rewrite length_drop. simpl. lia.
    + intros k Hk. exact (contains_drop_false _ (S (Nat.pred n)) (c0 :: t) (Hj k Hk)).
  - unfold has_comment in *. simpl. rewrite IH; [|simpl; lia|].
    2:{ intros k Hk. exact (contains_drop_false _ 1 (c0 :: t) (Hj k Hk)). }
    rewrite orb_false_r. apply delimited_none in E.
    unfold comment_tail in *.
    destruct (strip_prefix o (c0 :: Re.sub (Re.delimited o c) t)) as [w|] eqn:Ew;
      [|reflexivity].
    destruct o as [|a o']; [done|]. simpl in Ew, E.
    destruct (a =? c0) eqn:Ha; [|done]. apply N.eqb_eq in Ha. subst c0.
    apply prefix_through_scan in Ew as [(w' & H1 & ->)|(j & Hlt & Ht & Hs)].
    + rewrite H1 in E. by rewrite (delimited_no_closing _ _ _ E).
    + exfalso. specialize (Hj (S j) ltac:(simpl; lia)).
      apply anywhere_head in Hj. revert Hj. simpl take. rewrite <- Ht.
      rewrite <- (take_drop j t) at 2.
      change (starts_with (((a :: take j t) ++ a :: o'))
                ((a :: take j t) ++ drop j t) = false -> False).
      rewrite strip_prefix_app_same. congruence.
Qed.

(** ** Looking for a comment from left to right *)

Section Seek.

Variables opening closing : str.
Hypothesis opening_not_empty : opening <> [].
Hypothesis closing_not_empty : closing <> [].

Lemma in_tails_tail (y : char) (rest p : str) :
  In (y :: rest) (tails p) -> In rest (tails p) /\ In y p.
Proof.
  induction p as [|a p IH]; simpl.
  - intros [H|[]]. done.
  - intros [H|H].
    + injection H as -> ->. split; [|by left]. right. destruct rest; by left.
    + destruct (IH H) as [H1 H2]. split; by right.
Qed.

Lemma advance_spec x pending rest :
  In rest (advance x pending) <-> In (x :: rest) pending.
Proof.
  unfold advance. induction pending as [|rem pending IH]; simpl; [done|].
  destruct rem as [|y r]; simpl.
  - rewrite IH. split; [by right|]. by intros [|].
  - destruct (y =? x) eqn:E; simpl.
    + apply N.eqb_eq in E. subst y. rewrite IH. split; intros [H|H]; auto.
      * left. by subst.
      * left. by injection H.
    + rewrite IH. split; [by right|]. intros [H|H]; [|done].
      injection H as -> _. by rewrite N.eqb_refl in E.
Qed.

Lemma completed_spec pending : completed pending = true <-> In [] pending.
Proof.
  unfold completed. rewrite existsb_exists. split.
  - intros ([|] & H & E); done.
  - intros H. by exists [].
Qed.

Lemma advance_ok p x pending :
  pending_ok p pending -> completed (advance x (p :: pending)) = false ->
  p <> [] -> pending_ok p (advance x (p :: pending)).
Proof.
  unfold pending_ok. intros Hok Hc Hp. apply Forall_forall. intros rest Hin.
  apply list_elem_of_In, advance_spec in Hin. split.
  - intros ->. apply advance_spec, completed_spec in Hin. congruence.
  - destruct Hin as [->|Hin].
    + simpl. right. destruct rest; by left.
    + rewrite Forall_forall in Hok. apply list_elem_of_In, Hok in Hin as [_ Hin].
      by apply in_tails_tail in Hin as [Hin _].
Qed.

Lemma seek_step_ok st x :
  seek_ok opening closing st -> seek_ok opening closing (seek_step opening closing st x).
Proof.
  destruct st as [pending|pending|]; [| |done]; intros Hok;
    unfold seek_step; cbv zeta.
  - destruct (completed (advance x (opening :: pending))) eqn:E.
    + by constructor.
    + by apply advance_ok.
  - destruct (completed (advance x (closing :: pending))) eqn:E; [done|].
    by apply advance_ok.
Qed.

Lemma seek_run_ok s st :
  seek_ok opening closing st -> seek_ok opening closing (seek_run opening closing st s).
Proof.
  revert st. induction s as [|x s IH]; intros st H; [done|].
  simpl. apply IH. by apply seek_step_ok.
Qed.

Lemma seek_run_app st a b :
  seek_run opening closing st (a ++ b)
  = seek_run opening closing (seek_run opening closing st a) b.
Proof. apply fold_left_app. Qed.

Lemma existsb_advance (f : str -> str -> bool) x t pending :
  (forall y rest, f (y :: rest) (x :: t) = (y =? x) && f rest t) ->
  Forall (fun rem => rem <> []) pending ->
  existsb (fun rem => f rem (x :: t)) pending
  = existsb (fun rem => f rem t) (advance x pending).
Proof.
  intros Hf Hne. unfold advance.
  induction pending as [|rem pending IH]; [reflexivity|].
  apply Forall_cons in Hne as [Hrem Hne]. destruct rem as [|y rest]; [done|].
  simpl. rewrite Hf, (IH Hne). by destruct (y =? x).
Qed.

Lemma comment_tail_cons y rest x t :
  comment_tail closing (y :: rest) (x :: t) = (y =? x) && comment_tail closing rest t.
Proof. unfold comment_tail. simpl. by destruct (y =? x). Qed.

Lemma starts_with_cons y rest x t :
  starts_with (y :: rest) (x :: t) = (y =? x) && starts_with rest t.
Proof. unfold starts_with. simpl. by destruct (y =? x). Qed.

Lemma comment_tail_contains rem t :
  comment_tail closing rem t = true -> contains closing t = true.
Proof.
  unfold comment_tail. destruct (strip_prefix rem t) as [w|] eqn:E; [|done].
  apply strip_prefix_drop in E. subst w. apply anywhere_drop.
Qed.

Lemma has_comment_contains t :
  has_comment opening closing t = true -> contains closing t = true.
Proof.
  unfold has_comment. induction t as [|x t IH]; simpl.
  - rewrite orb_false_r. apply comment_tail_contains.
  - intros H. apply orb_true_iff in H as [H|H].
    + by apply comment_tail_contains in H.
    + unfold contains in *. simpl. rewrite (IH H). apply orb_true_r.
Qed.

Lemma pending_not_empty p pending :
  pending_ok p pending -> Forall (fun rem => rem <> []) pending.
Proof.
  unfold pending_ok. intros H. eapply Forall_impl; [exact H|]. by intros rem [? _].
Qed.

Lemma seek_step_sem st x t :
  seek_ok opening closing st ->
  seek_sem opening closing (seek_step opening closing st x) t
  = seek_sem opening closing st (x :: t).
Proof.
  destruct st as [pending|pending|]; [| |done]; intros Hok;
    unfold seek_step; cbv zeta.
  - assert (seek_sem opening closing (Seeking pending) (x :: t)
            = existsb (fun rem => comment_tail closing rem t)
                (advance x (opening :: pending))
              || has_comment opening closing t) as ->.
    { rewrite <- (existsb_advance (comment_tail closing)).
      - unfold seek_sem, has_comment. simpl.
        destruct (comment_tail closing opening (x :: t)); simpl;
          [by rewrite orb_true_r|reflexivity].
      - intros y rest. apply comment_tail_cons.
      - constructor; [done|]. by apply (pending_not_empty opening). }
    destruct (completed (advance x (opening :: pending))) eqn:E; [|reflexivity].
    unfold seek_sem. simpl. apply completed_spec in E.
    destruct (contains closing t) eqn:Hc.
    + symmetry. apply orb_true_iff. left. apply existsb_exists. exists [].
      split; [exact E|]. exact Hc.
    + symmetry. apply orb_false_iff. split.
      * apply not_true_is_false. intros H. apply existsb_exists in H as (rem & _ & H).
        apply comment_tail_contains in H. congruence.
      * apply not_true_is_false. intros H. apply has_comment_contains in H.
        congruence.
  - assert (seek_sem opening closing (Inside pending) (x :: t)
            = existsb (fun rem => starts_with rem t)
                (advance x (closing :: pending))
              || contains closing t) as ->.
    { rewrite <- (existsb_advance starts_with).
      - unfold seek_sem, contains. simpl.
        destruct (starts_with closing (x :: t)); simpl;
          [by rewrite orb_true_r|reflexivity].
      - intros y rest. apply starts_with_cons.
      - constructor; [done|]. by apply (pending_not_empty closing). }
    destruct (completed (advance x (closing :: pending))) eqn:E; [|reflexivity].
    unfold seek_sem. apply completed_spec in E. symmetry.
    apply orb_true_iff. left. apply existsb_exists. by exists [].
Qed.

Lemma seek_run_sem s st :
  seek_ok opening closing st ->
  accepted (seek_run opening closing st s) = seek_sem opening closing st s.
Proof.
  revert st. induction s as [|x s IH]; intros st Hok.
  - destruct st as [pending|pending|]; [| |done]; simpl.
    + unfold has_comment, comment_tail. simpl.
      assert (existsb (fun rem => match strip_prefix rem [] with
                                  | Some w => contains closing w
                                  | None => false
                                  end) pending = false) as ->.
      { apply not_true_is_false. intros H.
        apply existsb_exists in H as (rem & Hin & H).
        apply pending_not_empty in Hok. rewrite Forall_forall in Hok.
        apply list_elem_of_In, Hok in Hin. by destruct rem. }
      by destruct opening.
    + unfold contains, starts_with. simpl.
      assert (existsb (fun rem => match strip_prefix rem [] with
                                  | Some _ => true
                                  | None => false
                                  end) pending = false) as ->.
      { apply not_true_is_false. intros H.
        apply existsb_exists in H as (rem & Hin & H).
        apply pending_not_empty in Hok. rewrite Forall_forall in Hok.
        apply list_elem_of_In, Hok in Hin. by destruct rem. }
      by destruct closing.
  - simpl. rewrite IH by (by apply seek_step_ok).
    by apply seek_step_sem.
Qed.

(** The scan finds a comment exactly where there is one. *)
Lemma seek_run_has_comment s :
  accepted (seek_run opening closing (Seeking []) s) = has_comment opening closing s.
Proof. rewrite seek_run_sem; [reflexivity|]. by constructor. Qed.

(** *** Characters of neither delimiter *)

Lemma advance_nil x pending :
  (forall rest, ~ In (x :: rest) pending) -> advance x pending = [].
Proof.
  intros H. destruct (advance x pending) as [|r l] eqn:E; [reflexivity|].
  exfalso. apply (H r), advance_spec. rewrite E. by left.
Qed.

Lemma not_in_delimiter x p pending :
  existsb (N.eqb x) p = false -> pending_ok p pending ->
  advance x (p :: pending) = [].
Proof.
  intros Hx Hok. apply advance_nil. intros rest Hin.
  assert (In x p) as Hxp.
  { destruct Hin as [->|Hin]; [by left|].
    unfold pending_ok in Hok. rewrite Forall_forall in Hok.
    apply list_elem_of_In, Hok in Hin as [_ Hin].
    by apply in_tails_tail in Hin as [_ Hin]. }
  apply not_true_iff_false in Hx. apply Hx, existsb_exists.
  exists x. split; [exact Hxp|apply N.eqb_refl].
Qed.

Lemma irrelevant_step st x :
  irrelevant opening closing x = true -> seek_ok opening closing st ->
  seek_step opening closing st x = forget st.
Proof.
  unfold irrelevant. intros H Hok. apply andb_true_iff in H as [Ho Hc].
  apply negb_true_iff in Ho, Hc.
  destruct st as [pending|pending|]; [| |done]; unfold seek_step; cbv zeta.
  - by rewrite (not_in_delimiter x opening pending Ho Hok).
  - by rewrite (not_in_delimiter x closing pending Hc Hok).
Qed.

Lemma forget_ok st : seek_ok opening closing (forget st).
Proof. destruct st; simpl; by try constructor. Qed.

Lemma forget_forget st : forget (forget st) = forget st.
Proof. by destruct st. Qed.

Lemma accepted_forget st : accepted (forget st) = accepted st.
Proof. by destruct st. Qed.

Lemma irrelevant_run st u :
  forallb (irrelevant opening closing) u = true -> u <> [] ->
  seek_ok opening closing st ->
  seek_run opening closing st u = forget st.
Proof.
  revert st. induction u as [|x u IH]; intros st Hu Hne Hok; [done|].
  simpl in *. apply andb_true_iff in Hu as [Hx Hu].
  rewrite (irrelevant_step st x Hx Hok). destruct u as [|y u']; [reflexivity|].
  rewrite (IH (forget st) Hu ltac:(done) (forget_ok st)). apply forget_forget.
Qed.

(** A substitution whose matches read like their replacements does not
    change what the scan finds. *)
Lemma seek_run_sub (m : Re.matcher str) (Hb : Re.blind m) :
  (forall st s n r, seek_ok opening closing st -> m None s = Some (n, r) ->
     (1 <= n)%nat
     /\ seek_run opening closing st r = seek_run opening closing st (take n s)) ->
  forall s st, seek_ok opening closing st ->
    seek_run opening closing st (Re.sub m s) = seek_run opening closing st s.
Proof.
  intros Hm. induction s as [s IH] using length_ind. intros st Hok.
  destruct s as [|c0 t]; [reflexivity|]. rewrite (sub_cons m Hb).
  destruct (m None (c0 :: t)) as [[n r]|] eqn:E.
  - destruct (Hm st _ _ _ Hok E) as [Hn Hr]. destruct n as [|n]; [lia|].
    cbn [Nat.pred]. rewrite seek_run_app, Hr, IH.
    + rewrite <- seek_run_app. change (drop n t) with (drop (S n) (c0 :: t)).
      by rewrite take_drop.
    + rewrite length_drop. simpl. lia.
    + by apply seek_run_ok.
  - simpl. apply IH; [simpl; lia|by apply seek_step_ok].
Qed.

Hypothesis spaces_irrelevant :
  forall x, is_space x = true -> irrelevant opening closing x = true.

Lemma span_irrelevant s :
  forallb (irrelevant opening closing) (take (span_len is_space s) s) = true.
Proof.
  induction s as [|x s IH]; [reflexivity|]. simpl.
  destruct (is_space x) eqn:Hx; [|reflexivity]. simpl.
  by rewrite (spaces_irrelevant x Hx), IH.
Qed.

Lemma spaces_harmless st s n r :
  seek_ok opening closing st -> Re.spaces [SP] None s = Some (n, r) ->
  (1 <= n)%nat
  /\ seek_run opening closing st r = seek_run opening closing st (take n s).
Proof.
  intros Hok. unfold Re.spaces.
  destruct (span_len is_space s) as [|k] eqn:E; [done|]. intros [= <- <-].
  split; [lia|]. rewrite <- E.
  rewrite (irrelevant_run st (take _ s) (span_irrelevant s)); [|by rewrite E; destruct s|done].
  apply irrelevant_run; [|done|done]. simpl. by rewrite (spaces_irrelevant SP eq_refl).
Qed.

Lemma padded_harmless set st s n r :
  (forall d, one_of set d = true -> irrelevant opening closing d = true) ->
  seek_ok opening closing st -> Re.padded set None s = Some (n, r) ->
  (1 <= n)%nat
  /\ seek_run opening closing st r = seek_run opening closing st (take n s).
Proof.
  intros Hset Hok H. apply padded_some in H as (d & t & Hd & Hin & -> & ->).
  split; [lia|].
  assert (take (span_len is_space s + 1 + span_len is_space t) s
          = take (span_len is_space s) s ++ d :: take (span_len is_space t) t) as ->.
  { replace (span_len is_space s + 1 + span_len is_space t)%nat
      with (span_len is_space s + S (span_len is_space t))%nat by lia.
    rewrite <- take_take_drop, Hd. reflexivity. }
  rewrite (irrelevant_run st [d]); [|simpl; by rewrite (Hset d Hin)|done|done].
  symmetry. apply irrelevant_run; [|by destruct (take _ s)|done].
  rewrite forallb_app. simpl.
  by rewrite span_irrelevant, (Hset d Hin), span_irrelevant.
Qed.

Lemma strip_harmless s :
  accepted (seek_run opening closing (Seeking []) (strip s))
  = accepted (seek_run opening closing (Seeking []) s).
Proof.
  assert (forall u, exists w, u = w ++ lstrip u
                              /\ forallb (irrelevant opening closing) w = true) as Hl.
  { induction u as [|x u (w & Hw & Hi)]; [by exists []|]. simpl.
    destruct (is_space x) eqn:Hx; [|by exists []].
    exists (x :: w). simpl. rewrite (spaces_irrelevant x Hx), Hi.
    split; [|reflexivity]. f_equal. exact Hw. }
  assert (forall u, exists w, u = rstrip u ++ w
                              /\ forallb (irrelevant opening closing) w = true) as Hr.
  { induction u as [|x u (w & Hw & Hi)]; [by exists []|]. simpl.
    destruct (rstrip u) as [|d r] eqn:E.
    - destruct (is_space x) eqn:Hx.
      + exists (x :: u). split; [reflexivity|]. simpl in Hw. subst u. simpl.
        by rewrite (spaces_irrelevant x Hx).
      + exists w. simpl in Hw. subst u. by split.
    - exists w. split; [|exact Hi]. simpl. f_equal. exact Hw. }
  unfold strip. destruct (Hl s) as (w1 & H1 & I1).
  destruct (Hr (lstrip s)) as (w2 & H2 & I2).
  rewrite H1 at 2. rewrite H2 at 2. rewrite !seek_run_app.
  assert (seek_run opening closing (Seeking []) w1 = Seeking []) as ->.
  { destruct w1 as [|x w1]; [reflexivity|].
    by rewrite irrelevant_run; [|exact I1|done|constructor]. }
  set (st := seek_run _ _ (Seeking []) (rstrip (lstrip s))).
  destruct w2 as [|x w2]; [reflexivity|].
  rewrite irrelevant_run; [|exact I2|done|].
  - by rewrite accepted_forget.
  - apply seek_run_ok. by constructor.
Qed.

End Seek.

(** ** Comments in the three grammars *)

Lemma starts_with_take old s : starts_with old s = true -> take (length old) s = old.
Proof.
  unfold starts_with. revert s. induction old as [|a old IH]; intros s; [done|].
  destruct s as [|b s]; [done|]. simpl. destruct (a =? b) eqn:E; [|done].
  apply N.eqb_eq in E. subst b. intros H. by rewrite (IH s H).
Qed.

Lemma literal_harmless o c old new st s n r :
  forallb (irrelevant o c) old = true -> forallb (irrelevant o c) new = true ->
  old <> [] -> new <> [] ->
  seek_ok o c st -> Re.literal old new None s = Some (n, r) ->
  (1 <= n)%nat /\ seek_run o c st r = seek_run o c st (take n s).
Proof.
  intros Hold Hnew Ho Hn Hok. unfold Re.literal.
  destruct (starts_with old s) eqn:E; [|done]. intros [= <- <-].
  split; [destruct old; [done|simpl; lia]|].
  rewrite (starts_with_take old s E).
  by rewrite !irrelevant_run.
Qed.

Lemma spaces_irrelevant_for o c :
  forallb (fun k => negb (is_space k)) (o ++ c) = true ->
  forall x, is_space x = true -> irrelevant o c x = true.
Proof.
  intros H x Hx. rewrite forallb_app in H. apply andb_true_iff in H as [Ho Hc].
  unfold irrelevant. apply andb_true_iff. split; apply negb_true_iff, not_true_iff_false;
    intros Hin; apply existsb_exists in Hin as (k & Hin & E);
    apply N.eqb_eq in E; subst k.
  - rewrite forallb_forall in Ho. apply Ho in Hin. by rewrite Hx in Hin.
  - rewrite forallb_forall in Hc. apply Hc in Hin. by rewrite Hx in Hin.
Qed.

Lemma set_irrelevant_for o c set :
  forallb (irrelevant o c) (lit set) = true ->
  forall d, one_of set d = true -> irrelevant o c d = true.
Proof.
  intros H d Hd. unfold one_of in Hd. apply existsb_exists in Hd as (k & Hin & E).
  apply N.eqb_eq in E. subst k. rewrite forallb_forall in H. by apply H.
Qed.

(** CSS: the steps after the comment removal put no comment together. *)
Lemma css_steps_keep_comment_free x :
  has_comment (lit "/*") (lit "*/") (minify_css x)
  = has_comment (lit "/*") (lit "*/")
      (Re.sub (Re.delimited (lit "/*") (lit "*/")) x).
Proof.
  assert (lit "/*" <> []) as Ho by (vm_compute; discriminate).
  assert (lit "*/" <> []) as Hc by (vm_compute; discriminate).
  pose proof (spaces_irrelevant_for (lit "/*") (lit "*/") eq_refl) as Hsp.
  assert (seek_ok (lit "/*") (lit "*/") (Seeking [])) as Hok by constructor.
  rewrite <- !(seek_run_has_comment _ _ Ho Hc).
  unfold minify_css. rewrite (strip_harmless _ _ Ho Hc Hsp). f_equal.
  rewrite (seek_run_sub _ _ Ho Hc _ (blind_literal _ _)); [| |exact Hok].
  2:{ intros st s n r. by apply literal_harmless. }
  rewrite (seek_run_sub _ _ Ho Hc _ (blind_padded _)); [| |exact Hok].
  2:{ intros st s n r. apply (padded_harmless _ _ Hsp).
      by apply set_irrelevant_for. }
  rewrite (seek_run_sub _ _ Ho Hc _ (blind_padded _)); [| |exact Hok].
  2:{ intros st s n r. apply (padded_harmless _ _ Hsp).
      by apply set_irrelevant_for. }
  rewrite (seek_run_sub _ _ Ho Hc _ (blind_spaces _)); [| |exact Hok].
  2:{ intros st s n r. by apply (spaces_harmless _ _ Hsp). }
  reflexivity.
Qed.

(** HTML: ">" leaves nothing pending, so the white space removed after it
    changes nothing. *)
Lemma gt_settles st :
  seek_ok (lit "<!--") (lit "-->") st ->
  forget (seek_step (lit "<!--") (lit "-->") st 62)
  = seek_step (lit "<!--") (lit "-->") st 62.
Proof.
  destruct st as [pending|pending|]; [| |done]; intros Hok;
    unfold seek_step; cbv zeta.
  - by rewrite (not_in_delimiter 62 (lit "<!--") pending eq_refl Hok).
  - destruct (completed (advance 62 (lit "-->" :: pending))) eqn:E; [done|].
    destruct (advance 62 (lit "-->" :: pending)) as [|r l] eqn:EL; [done|].
    exfalso. assert (In r (advance 62 (lit "-->" :: pending))) as Hin
      by (rewrite EL; by left).
    apply advance_spec in Hin. assert (r = []) as ->.
    { destruct Hin as [Hin|Hin]; [vm_compute in Hin; discriminate|].
      unfold seek_ok, pending_ok in Hok. rewrite Forall_forall in Hok.
      apply list_elem_of_In, Hok in Hin as [_ Hin]. vm_compute in Hin.
      destruct Hin as [H|[H|[H|[H|[]]]]]; try discriminate. by injection H. }
    apply not_true_iff_false in E. apply E, completed_spec. by left.
Qed.

Lemma tag_gap_harmless st s n r :
  seek_ok (lit "<!--") (lit "-->") st -> Re.tag_gap None s = Some (n, r) ->
  (1 <= n)%nat
  /\ seek_run (lit "<!--") (lit "-->") st r
     = seek_run (lit "<!--") (lit "-->") st (take n s).
Proof.
  assert (lit "<!--" <> []) as Ho by (vm_compute; discriminate).
  assert (lit "-->" <> []) as Hc by (vm_compute; discriminate).
  pose proof (spaces_irrelevant_for (lit "<!--") (lit "-->") eq_refl) as Hsp.
  intros Hok H. apply tag_gap_some in H as (t & k & u & -> & Hk & Hd & -> & ->).
  split; [lia|].
  assert (take (S k + 2) (62 :: t) = [62] ++ take (span_len is_space t) t ++ [60])
    as ->.
  { rewrite Hk. simpl. f_equal. replace (k + 2)%nat with (S k + 1)%nat by lia.
    by rewrite <- take_take_drop, Hd. }
  rewrite !seek_run_app. simpl.
  rewrite (irrelevant_run _ _ _ _ (span_irrelevant _ _ Hsp t)).
  - by rewrite gt_settles.
  - rewrite Hk. by destruct t.
  - by apply seek_step_ok.
Qed.

(** JavaScript: after the line comments are removed no "//" is left. *)
Lemma line_comment_some s n r :
  Re.line_comment None s = Some (n, r) ->
  exists t, s = 47 :: 47 :: t /\ n = (2 + span_len (other_than NL) t)%nat /\ r = [].
Proof.
  unfold Re.line_comment. change (lit "//") with [47; 47].
  destruct s as [|a [|b t]]; simpl.
  - done.
  - by destruct (47 =? a).
  - destruct (47 =? a) eqn:Ha; [|done]. destruct (47 =? b) eqn:Hb; [|done].
    apply N.eqb_eq in Ha, Hb. subst. intros [= <- <-]. by exists t.
Qed.

Lemma line_comment_none c t :
  Re.line_comment None (c :: t) = None -> c = 47 -> head t <> Some 47.
Proof.
  unfold Re.line_comment. change (lit "//") with [47; 47]. intros H -> Ht.
  destruct t as [|b t]; [done|]. simpl in *. injection Ht as ->. done.
Qed.

Lemma line_comment_sub_head s :
  head (Re.sub Re.line_comment s) = Some 47 -> head s = Some 47.
Proof.
  induction s as [s IH] using length_ind. destruct s as [|c t]; [done|].
  rewrite (sub_cons _ blind_line_comment).
  destruct (Re.line_comment None (c :: t)) as [[n r]|] eqn:E; [|done].
  by apply line_comment_some in E as (u & [= -> ->] & _ & _).
Qed.

Lemma line_comments_removed s : contains (lit "//") (Re.sub Re.line_comment s) = false.
Proof.
  induction s as [s IH] using length_ind. destruct s as [|c t]; [reflexivity|].
  rewrite (sub_cons _ blind_line_comment).
  destruct (Re.line_comment None (c :: t)) as [[n r]|] eqn:E.
  - apply line_comment_some in E as (u & _ & _ & ->). simpl.
    apply IH. rewrite length_drop. simpl. lia.
  - unfold contains in *. simpl. rewrite (IH t) by (simpl; lia).
    rewrite orb_false_r. unfold starts_with. change (lit "//") with [47; 47].
    simpl. destruct (47 =? c) eqn:Hc; [|reflexivity].
    apply N.eqb_eq in Hc. symmetry in Hc.
    pose proof (line_comment_none c t E Hc) as Hh.
    destruct (Re.sub Re.line_comment t) as [|b o] eqn:Eo; [reflexivity|].
    destruct (47 =? b) eqn:Hb; [|reflexivity]. apply N.eqb_eq in Hb. subst b.
    exfalso. apply Hh, line_comment_sub_head. by rewrite Eo.
Qed.

Lemma contains_longer a b s : contains a s = false -> contains (a ++ b) s = false.
Proof.
  unfold contains. induction s as [|x s IH]; simpl.
  - rewrite !orb_false_r. unfold starts_with. revert a.
    destruct a as [|y a]; simpl; [done|done].
  - intros H. apply orb_false_iff in H as [H1 H2]. rewrite (IH H2), orb_false_r.
    clear -H1. unfold starts_with in *. revert H1. generalize (x :: s). clear.
    induction a as [|y a IH]; intros s; [done|]. simpl.
    destruct s as [|z s]; [done|]. destruct (y =? z); [apply IH|done].
Qed.

(** ** Scans that skip, and white space next to a solid text *)

Lemma forallb_drop {A : Type} (P : A -> bool) n (s : list A) :
  forallb P s = true -> forallb P (drop n s) = true.
Proof.
  revert s. induction n as [|n IH]; intros s H; [by rewrite drop_0|].
  destruct s as [|c t]; [done|]. simpl in *.
  apply andb_true_iff in H as [_ H]. by apply IH.
Qed.

(** A scan that has [n] characters left to skip continues as a fresh scan
    after them. *)
Lemma pieces_scan_skip {G : Type} (m : Re.matcher G) (Hb : Re.blind m) n p s :
  Re.pieces_scan m n p s = Re.pieces m (drop n s).
Proof.
  revert p s. induction n as [|n IH]; intros p s.
  - rewrite drop_0. unfold Re.pieces. revert p.
    induction s as [|c t IHs]; intros p; [reflexivity|]. simpl.
    rewrite (Hb p None). by destruct (m None (c :: t)) as [[k g]|].
  - destruct s as [|c t]; [reflexivity|]. simpl. apply IH.
Qed.

(** *** The white-space collapse next to a solid text *)

Lemma span_len_app a b :
  head_space b = false -> span_len is_space (a ++ b) = span_len is_space a.
Proof.
  intros Hb. induction a as [|c a IH]; simpl.
  - destruct b as [|x b]; [done|]. simpl in *. by rewrite Hb.
  - by rewrite IH.
Qed.

Lemma span_len_le f s : (span_len f s <= length s)%nat.
Proof. induction s as [|c s IH]; simpl; [lia|]. destruct (f c); simpl; lia. Qed.

Lemma collapse_app r a b :
  head_space b = false ->
  Re.sub (Re.spaces r) (a ++ b) = Re.sub (Re.spaces r) a ++ Re.sub (Re.spaces r) b.
Proof.
  intros Hb. induction a as [a IH] using length_ind.
  destruct a as [|c t]; [reflexivity|].
  change ((c :: t) ++ b) with (c :: (t ++ b)).
  rewrite !(sub_cons _ (blind_spaces r)). unfold Re.spaces.
  change (c :: (t ++ b)) with ((c :: t) ++ b). rewrite (span_len_app _ _ Hb).
  destruct (span_len is_space (c :: t)) as [|k] eqn:E.
  - simpl. f_equal. apply IH. simpl. lia.
  - cbn [Nat.pred]. pose proof (span_len_le is_space (c :: t)) as Hle.
    rewrite E in Hle. simpl in Hle.
    rewrite drop_app_le by lia. rewrite IH by (rewrite length_drop; simpl; lia).
    by rewrite app_assoc.
Qed.

Lemma collapse_solid r a b :
  forallb (fun c => negb (is_space c)) a = true ->
  Re.sub (Re.spaces r) (a ++ b) = a ++ Re.sub (Re.spaces r) b.
Proof.
  induction a as [|c a IH]; [reflexivity|]. simpl. intros H.
  apply andb_true_iff in H as [Hc Ha]. apply negb_true_iff in Hc.
  rewrite (sub_cons _ (blind_spaces r)). unfold Re.spaces at 1. simpl.
  rewrite Hc. by rewrite (IH Ha).
Qed.

Lemma sub_forallb (m : Re.matcher str) (Hb : Re.blind m) (P : char -> bool) :
  (forall s n r, m None s = Some (n, r) -> forallb P r = true) ->
  forall s, forallb P s = true -> forallb P (Re.sub m s) = true.
Proof.
  intros Hm. induction s as [s IH] using length_ind. intros Hs.
  destruct s as [|c t]; [reflexivity|]. rewrite (sub_cons m Hb).
  destruct (m None (c :: t)) as [[n r]|] eqn:E.
  - rewrite forallb_app, (Hm _ _ _ E). simpl. apply IH.
    + rewrite length_drop. simpl. lia.
    + simpl in Hs. apply andb_true_iff in Hs as [_ Hs]. by apply forallb_drop.
  - simpl in *. apply andb_true_iff in Hs as [Hc Hs]. rewrite Hc. simpl.
    apply IH; [simpl; lia|exact Hs].
Qed.

Lemma collapse_forallb P s :
  P SP = true -> forallb P s = true ->
  forallb P (Re.sub (Re.spaces [SP]) s) = true.
Proof.
  intros HP. apply (sub_forallb _ (blind_spaces _)). intros u n r H.
  unfold Re.spaces in H. destruct (span_len is_space u); [done|].
  injection H as _ <-. simpl. by rewrite HP.
Qed.

Lemma tag_gap_needs_lt s :
  forallb (other_than 60) s = true -> Re.sub Re.tag_gap s = s.
Proof.
  intros H. apply (sub_no_match _ blind_tag_gap). intros i.
  destruct (Re.tag_gap None (drop i s)) as [[n r]|] eqn:E; [|reflexivity].
  exfalso. apply tag_gap_some in E as (t & k & u & Hs & _ & Hd & _).
  pose proof (forallb_drop _ (i + (1 + S k)) _ H) as Hf.
  rewrite <- !drop_drop, Hs in Hf. simpl in Hf. rewrite drop_0, Hd in Hf.
  discriminate.
Qed.

Lemma no_lt_no_tag q s :
  forallb (other_than 60) s = true -> contains (60 :: q) s = false.
Proof.
  unfold contains. induction s as [|c s IH]; [reflexivity|]. simpl. intros H.
  apply andb_true_iff in H as [Hc Hs]. rewrite (IH Hs), orb_false_r.
  unfold starts_with. simpl. unfold other_than in Hc. rewrite N.eqb_sym.
  by destruct (c =? 60).
Qed.

Lemma forallb_rstrip P s : forallb P s = true -> forallb P (rstrip s) = true.
Proof.
  intros H. destruct (rstrip_is_prefix s) as [w Hw]. rewrite Hw, forallb_app in H.
  by apply andb_true_iff in H as [H _].
Qed.

Lemma forallb_lstrip P s : forallb P s = true -> forallb P (lstrip s) = true.
Proof.
  intros H. destruct (lstrip_is_drop s) as [n ->]. by apply forallb_drop.
Qed.

Lemma blind_style_pattern : Re.blind style_pattern.
Proof. intros p q s. reflexivity. Qed.

Lemma blind_script_pattern : Re.blind script_pattern.
Proof. intros p q s. reflexivity. Qed.

Lemma drop_head_ok (P : char -> bool) pre rest i :
  (i < length pre)%nat -> forallb P pre = true ->
  exists c t, drop i pre ++ rest = c :: t /\ P c = true.
Proof.
  intros Hi H. pose proof (forallb_drop P i pre H) as Hd.
  destruct (drop i pre) as [|c t] eqn:E.
  - apply (f_equal length) in E. rewrite length_drop in E. simpl in E. lia.
  - simpl in Hd. apply andb_true_iff in Hd as [Hc _]. by exists c, (t ++ rest).
Qed.

(** ** Text without "<" *)

Lemma no_lt_no_ci_tag q s :
  forallb (other_than 60) s = true ->
  anywhere (Re.ci_starts_with (60 :: q)) s = false.
Proof.
  induction s as [|c t IH]; [reflexivity|]. simpl. intros H.
  apply andb_true_iff in H as [Hc Ht]. rewrite (IH Ht), orb_false_r.
  unfold Re.ci_starts_with. simpl. rewrite (ci_eq_uncased 60 c eq_refl).
  unfold other_than in Hc. rewrite N.eqb_sym. by destruct (c =? 60).
Qed.

Lemma strip_keeps P s : forallb P s = true -> forallb P (strip s) = true.
Proof. intros H. by apply forallb_rstrip, forallb_lstrip. Qed.

Lemma delimited_keeps o c P (p : option char) s n r :
  forallb P s = true -> Re.delimited o c p s = Some (n, r) -> forallb P r = true.
Proof.
  intros _. unfold Re.delimited. destruct (strip_prefix o s); [|done].
  destruct (Re.find _ _); [|done]. by intros [= _ <-].
Qed.

Lemma spaces_keeps P (p : option char) s n r :
  P SP = true -> forallb P s = true -> Re.spaces [SP] p s = Some (n, r) ->
  forallb P r = true.
Proof.
  intros HP _. unfold Re.spaces. destruct (span_len is_space s); [done|].
  intros [= _ <-]. simpl. by rewrite HP.
Qed.

Lemma padded_keeps set P (p : option char) s n r :
  forallb P s = true -> Re.padded set p s = Some (n, r) -> forallb P r = true.
Proof.
  intros Hs. unfold Re.padded. cbv zeta.
  pose proof (forallb_drop P (span_len is_space s) s Hs) as Hd.
  destruct (drop (span_len is_space s) s) as [|c t]; [done|].
  destruct (one_of set c); [|done]. intros [= _ <-]. simpl in *.
  apply andb_true_iff in Hd as [Hc _]. by rewrite Hc.
Qed.

(** ** The end-to-end example *)

(** C1 (as stated, refuted): on the example document [minify_html] does not
    return the text the specification gives, whatever the Unicode table. *)
Lemma example_not_as_specified :
  (fun wide => bool_decide (minify_html wide example_document = example_expected))
  = (fun _ => false).
Proof. vm_compute. reflexivity. Qed.

(** C1 (amended): on the example document [minify_html] returns the markup
    without the comment and the inter-tag white space, followed by a space
    and the minified style block, a space and the minified script block:
    the white space before a block is next to a placeholder, not to a tag,
    when the inter-tag white space is removed, so one space of it stays. *)
Theorem example_output (wide : char -> bool) :
  minify_html wide example_document
  = lit "<div><p>Hi</p></div> <style>a{color:red}</style> <script>var x=1;if(x){return x;}</script>".
Proof. vm_compute. reflexivity. Qed.

(** ** Keyword spacing in [minify_js] *)

(** C4 (the code at the failing input): a keyword fused with the identifier
    after it stays fused; no space is put back. *)
Theorem keyword_stays_fused (wide : char -> bool) :
  minify_js wide (lit "return/*c*/x") = lit "returnx"
  /\ minify_js wide (lit "x/*c*/return") = lit "xreturn".
Proof. split; vm_compute; reflexivity. Qed.

(** ** A second pass of [minify_css] *)

(** C3 (as stated, refuted): a second pass removes the ";" that the first
    pass left before "}" when there were two, and the comment that the
    first pass put together from the text around a removed comment; the
    second result is shorter than the first. *)
Lemma second_css_pass_shortens :
  minify_css (lit "a{b:c;;}") = lit "a{b:c;}"
  /\ minify_css (minify_css (lit "a{b:c;;}")) = lit "a{b:c}"
  /\ minify_css (lit "//**/**/") = lit "/**/"
  /\ minify_css (minify_css (lit "//**/**/")) = [].
Proof. repeat split; vm_compute; reflexivity. Qed.

(** C3 (amended): [minify_css] never returns a text longer than its
    argument, so a second pass never lengthens the result of the first; and
    the second pass returns the result of the first unchanged whenever that
    result contains neither "/*" nor ";}". *)
Theorem second_css_pass (x : str) :
  (length (minify_css x) <= length x)%nat
  /\ (length (minify_css (minify_css x)) <= length (minify_css x))%nat
  /\ (contains (lit "/*") (minify_css x) = false ->
      contains (lit ";}") (minify_css x) = false ->
      minify_css (minify_css x) = minify_css x).
Proof.
  assert (forall y, (length (minify_css y) <= length y)%nat) as Hlen.
  { intros y. unfold minify_css.
    etrans; [apply strip_length|].
    etrans; [apply (sub_length _ (blind_literal _ _))|].
    { intros s n r H. by apply semi_brace_some in H as (rest & _ & _ & ->). }
    etrans; [apply (sub_length _ (blind_padded _))|].
    { intros s n r H.
      by apply padded_some in H as (c & t & _ & _ & _ & ->). }
    etrans; [apply (sub_length _ (blind_padded _))|].
    { intros s n r H.
      by apply padded_some in H as (c & t & _ & _ & _ & ->). }
    etrans; [apply (sub_length _ (blind_spaces _))|].
    { intros s n r H. unfold Re.spaces in H.
      destruct (span_len is_space s); [done|]. by injection H as _ <-. }
    apply (sub_length _ (blind_delimited _ _)).
    intros s n r H. unfold Re.delimited in H.
    destruct (strip_prefix (lit "/*") s); [|done].
    destruct (Re.find _ _); [|done]. injection H as _ <-. simpl. lia. }
  split; [apply Hlen|]. split; [apply Hlen|].
  intros Hcomment Hsemi.
  destruct (minify_css_shape x) as (Hss & Hspecial & Hparen).
  assert (strip (minify_css x) = minify_css x) as Hstrip
    by (unfold minify_css; apply strip_idem).
  generalize dependent (minify_css x). intros y Hcomment Hsemi Hss Hspecial Hparen Hstrip.
  unfold minify_css.
  rewrite (delimited_same _ _ y Hcomment), (collapse_same y Hss).
  rewrite (padded_same _ y Hspecial), (padded_same _ y Hparen).
  by rewrite (literal_same _ _ y Hsemi).
Qed.

Lemma second_css_pass_witness :
  minify_css (minify_css (lit " a { color : red ; } "))
  = minify_css (lit " a { color : red ; } ").
Proof.
  exact (proj2 (proj2 (second_css_pass (lit " a { color : red ; } ")))
           eq_refl eq_refl).
Defined.

(** ** Comments *)

(** C8 (as stated, refuted): each minifier can return a comment.  In CSS
    and in the markup, the text before and after a removed comment joins
    into a new one; in JavaScript, the white space removed between "/"
    and "*" makes one. *)
Lemma comment_survives :
  (let out := minify_css (lit "//**/**/") in
   (out, has_comment (lit "/*") (lit "*/") out)) = (lit "/**/", true)
  /\ (fun wide =>
        let out := minify_js wide (lit "/ * x * /") in
        (out, has_comment (lit "/*") (lit "*/") out))
     = (fun _ => (lit "/*x*/", true))
  /\ (fun wide =>
        let out := minify_html wide (lit "<p>a</p><!<!---->-- x -->") in
        (out, has_comment (lit "<!--") (lit "-->") out))
     = (fun _ => (lit "<p>a</p><!-- x -->", true)).
Proof. repeat split; vm_compute; reflexivity. Qed.

(** C8 (amended): one left-to-right scan removes the comments it finds, and
    - the output of [minify_css] has no "/*" followed later by "*/" for
      every input in which no "/*" comes directly after a "/";
    - in [minify_js], for every input, the text left by the two comment
      removals (which the rest of [minify_js] then collapses) has no "//"
      after the first and no "/*" followed later by "*/" after the second;
    - the markup text of [minify_html], before the blocks are restored,
      has no "<!--" followed later by "-->" for every document in whose
      working text (the blocks replaced by placeholders) no "<!--" comes
      directly after "<", "<!" or "<!-". *)
Theorem comments_removed_by_one_scan (wide : char -> bool) (x : str) :
  (contains (lit "//*") x = false ->
   has_comment (lit "/*") (lit "*/") (minify_css x) = false)
  /\ (minify_js wide x = js_collapse wide (js_uncommented x)
      /\ contains (lit "//") (Re.sub Re.line_comment x) = false
      /\ has_comment (lit "/*") (lit "*/") (js_uncommented x) = false)
  /\ (contains (lit "<<!--") (with_placeholders x) = false ->
      contains (lit "<!<!--") (with_placeholders x) = false ->
      contains (lit "<!-<!--") (with_placeholders x) = false ->
      let '(text, _, _) := collapse_markup wide x in
      has_comment (lit "<!--") (lit "-->") text = false).
Proof.
  split; [|split].
  - intros H. rewrite css_steps_keep_comment_free.
    apply scan_leaves_no_comment; [vm_compute; discriminate|].
    intros k Hk. change (length (lit "/*")) with 2%nat in Hk.
    assert (k = 1%nat) as -> by lia. exact H.
  - split; [reflexivity|]. split; [apply line_comments_removed|].
    unfold js_uncommented.
    apply scan_leaves_no_comment; [vm_compute; discriminate|].
    intros k Hk. change (length (lit "/*")) with 2%nat in Hk.
    assert (k = 1%nat) as -> by lia.
    apply (contains_longer (lit "//") (lit "*")), line_comments_removed.
  - intros H1 H2 H3. rewrite collapse_markup_numbers. cbv zeta.
    fold (with_placeholders x).
    assert (lit "<!--" <> []) as Ho by (vm_compute; discriminate).
    assert (lit "-->" <> []) as Hc by (vm_compute; discriminate).
    pose proof (spaces_irrelevant_for (lit "<!--") (lit "-->") eq_refl) as Hsp.
    assert (seek_ok (lit "<!--") (lit "-->") (Seeking [])) as Hok by constructor.
    rewrite <- (seek_run_has_comment _ _ Ho Hc).
    rewrite (strip_harmless _ _ Ho Hc Hsp).
    rewrite (seek_run_sub _ _ Ho Hc _ blind_tag_gap); [| |exact Hok].
    2:{ intros st s n r. apply tag_gap_harmless. }
    rewrite (seek_run_sub _ _ Ho Hc _ (blind_spaces _)); [| |exact Hok].
    2:{ intros st s n r. by apply (spaces_harmless _ _ Hsp). }
    rewrite (seek_run_has_comment _ _ Ho Hc).
    apply scan_leaves_no_comment; [exact Ho|].
    intros k Hk. change (length (lit "<!--")) with 4%nat in Hk.
    destruct k as [|[|[|[|k]]]]; [lia|exact H1|exact H2|exact H3|lia].
Qed.

Lemma comments_removed_by_one_scan_witness :
  has_comment (lit "/*") (lit "*/") (minify_css (lit "a /* c */ { b : c }")) = false
  /\ (let '(text, _, _) :=
        collapse_markup ascii_only (lit "<p> <!-- c --> </p>") in
      has_comment (lit "<!--") (lit "-->") text = false).
Proof.
  split.
  - exact (proj1 (comments_removed_by_one_scan ascii_only
                    (lit "a /* c */ { b : c }")) eq_refl).
  - exact (proj2 (proj2 (comments_removed_by_one_scan ascii_only
                           (lit "<p> <!-- c --> </p>")))
             eq_refl eq_refl eq_refl).
Defined.

(** ** White space in the output of [minify_html] *)

(** C2 (as stated, refuted): a script block whose body is white space only
    is restored with that body, so the output has two consecutive spaces,
    and white space directly between ">" and "<"; and white space between
    a tag and the block after it stays, directly between ">" and "<". *)
Lemma whitespace_survives_in_output :
  (fun wide =>
     let out := minify_html wide (lit "<script>  </script>") in
     (out, has_double_space out, has_tag_gap out))
  = (fun _ => (lit "<script>  </script>", true, true))
  /\ (fun wide =>
        let out := minify_html wide (lit "<p>a</p> <style>b</style>") in
        (out, has_tag_gap out))
     = (fun _ => (lit "<p>a</p> <style>b</style>", true)).
Proof. split; vm_compute; reflexivity. Qed.

(** C2 (amended): for every input document, the markup text [minify_html]
    holds just before it restores the placeholders has no two consecutive
    space characters and no white space directly between a ">" and a "<";
    this text is the output when the document has no style and no script
    block.  (The restored blocks, and the places where they meet the
    markup, are not covered.) *)
Theorem markup_whitespace_collapsed (wide : char -> bool) (doc : str) :
  let '(text, style_blocks, script_blocks) := collapse_markup wide doc in
  has_double_space text = false
  /\ has_tag_gap text = false
  /\ (style_blocks = [] -> script_blocks = [] -> minify_html wide doc = text).
Proof.
  unfold minify_html, collapse_markup.
  destruct (Re.sub_fn _ _ doc []) as [h1 styles].
  destruct (Re.sub_fn _ _ h1 []) as [h2 scripts].
  set (h3 := Re.sub (Re.delimited _ _) h2).
  destruct (tag_gap_sub_shape (Re.sub (Re.spaces [SP]) h3)) as (Hg & _ & _ & Hss).
  specialize (Hss (collapse_single_spaced h3)).
  split; [|split].
  - apply single_spaced_no_double, single_spaced_strip, Hss.
  - apply no_tag_gap_strip, Hg.
  - intros -> ->. reflexivity.
Qed.

(** ** Reconstructed blocks *)

(** C6: a script block whose inner content is empty or white space only is
    registered with that content, character for character (for every
    match of the script pattern with such a content, whatever the registry
    holds); [minify_js] is not applied to it: its result on a non-empty
    blank content would differ from the content; and a document that is
    one such block, with lowercase tags and an attribute text without
    angle brackets, is returned unchanged. *)
Theorem blank_script_passthrough (wide : char -> bool) (attrs content : str) :
  forallb is_space content = true ->
  (forall script_blocks,
     replace_script wide (attrs, content) script_blocks
     = (script_placeholder (length script_blocks),
        script_blocks
          ++ [lit "<script" ++ attrs ++ lit ">" ++ content ++ lit "</script>"]))
  /\ (content <> [] -> minify_js wide content <> content)
  /\ (forallb (other_than 60) attrs = true ->
      forallb (other_than 62) attrs = true ->
      minify_html wide (lit "<script" ++ attrs ++ lit ">" ++ content ++ lit "</script>")
      = lit "<script" ++ attrs ++ lit ">" ++ content ++ lit "</script>").
Proof.
  intros Hblank. split; [|split].
  - intros script_blocks. unfold replace_script. cbn [fst snd].
    by rewrite (strip_blank content Hblank).
  - intros Hne Heq. pose proof (strip_head
      (Re.sub (Re.literal (lit ")of[") (lit ") of["))
      (Re.sub (Re.literal (lit ")of(") (lit ") of("))
      (Re.sub (Re.literal (lit ")in[") (lit ") in["))
      (Re.sub (Re.literal (lit ")in(") (lit ") in("))
      (Re.sub (Re.space_before_keyword wide (keywords ++ [lit "in"; lit "of"]))
      (Re.sub (Re.space_after_keyword wide keywords)
      (Re.sub (Re.padded "{}()[];,:<>!=+-*/%&|^")
      (Re.sub (Re.spaces [SP])
      (Re.sub (Re.delimited (lit "/*") (lit "*/"))
      (Re.sub Re.line_comment content))))))))))) as Hhead.
    change (head_space (minify_js wide content) = false) in Hhead.
    rewrite Heq in Hhead. destruct content as [|c t]; [done|]. simpl in *.
    apply andb_true_iff in Hblank as [Hc _]. congruence.
  - intros Hlt Hgt.
    pose proof (single_script_block wide (lit "<script") attrs content
                  (lit "</script>") eq_refl Hgt eq_refl
                  (blank_has_no_tag (lit "/script>") content Hblank)
                  (script_document_has_no_style attrs content Hlt Hblank)) as H.
    unfold script_block in H. cbn [fst snd] in H.
    rewrite (strip_blank content Hblank) in H. exact H.
Qed.

Lemma blank_script_passthrough_witness :
  (forall script_blocks,
     replace_script ascii_only (lit " src=a", lit "   ") script_blocks
     = (script_placeholder (length script_blocks),
        script_blocks
          ++ [lit "<script" ++ lit " src=a" ++ lit ">" ++ lit "   " ++ lit "</script>"]))
  /\ (lit "   " <> [] -> minify_js ascii_only (lit "   ") <> lit "   ")
  /\ (forallb (other_than 60) (lit " src=a") = true ->
      forallb (other_than 62) (lit " src=a") = true ->
      minify_html ascii_only
        (lit "<script" ++ lit " src=a" ++ lit ">" ++ lit "   " ++ lit "</script>")
      = lit "<script" ++ lit " src=a" ++ lit ">" ++ lit "   " ++ lit "</script>").
Proof.
  exact (blank_script_passthrough ascii_only (lit " src=a") (lit "   ") eq_refl).
Defined.

(** C10: the style and script tags are matched whatever the case of their
    letters, and the block is emitted with the lowercase names "<style>",
    "</style>", "<script" and "</script>": a document that is one block
    whose opening and closing tags are any case variants the patterns
    match comes out with the lowercase tags, and in every document every
    registered block starts and ends with them. *)
Theorem tags_matched_in_any_case_emitted_lowercase
    (wide : char -> bool) (opening closing attrs content : str) :
  forallb (other_than 62) attrs = true ->
  (Re.ci_strip_prefix (lit "<style") opening = Some [] ->
   Re.ci_strip_prefix (lit "</style>") closing = Some [] ->
   anywhere (Re.ci_starts_with (lit "</style>")) content = false ->
   minify_html wide (opening ++ attrs ++ lit ">" ++ content ++ closing)
   = lit "<style>" ++ minify_css content ++ lit "</style>")
  /\ (Re.ci_strip_prefix (lit "<script") opening = Some [] ->
      Re.ci_strip_prefix (lit "</script>") closing = Some [] ->
      anywhere (Re.ci_starts_with (lit "</script>")) content = false ->
      anywhere (Re.ci_starts_with (lit "<style"))
        (opening ++ attrs ++ lit ">" ++ content ++ closing) = false ->
      minify_html wide (opening ++ attrs ++ lit ">" ++ content ++ closing)
      = lit "<script" ++ attrs ++ lit ">"
        ++ match strip content with
           | [] => content
           | _ => minify_js wide content
           end ++ lit "</script>")
  /\ (forall doc,
        let '(_, style_blocks, script_blocks) := collapse_markup wide doc in
        Forall (fun b => exists inner, b = lit "<style>" ++ inner ++ lit "</style>")
               style_blocks
        /\ Forall (fun b => exists at_ inner,
                      b = lit "<script" ++ at_ ++ lit ">" ++ inner ++ lit "</script>")
                  script_blocks).
Proof.
  intros Hattrs. split; [|split].
  - intros Ho Hc Hcontent. exact (single_style_block wide _ _ _ _ Ho Hattrs Hc Hcontent).
  - intros Ho Hc Hcontent Hstyle.
    exact (single_script_block wide _ _ _ _ Ho Hattrs Hc Hcontent Hstyle).
  - intros doc. rewrite collapse_markup_numbers. cbv zeta. split.
    + apply Forall_map, Forall_forall. intros g _. by exists (minify_css g).
    + apply Forall_map, Forall_forall. intros [a c] _. unfold script_block.
      by eexists a, _.
Qed.

Lemma tags_matched_in_any_case_emitted_lowercase_witness :
  minify_html ascii_only (lit "<STYLE>a { }</Style>") = lit "<style>a{}</style>"
  /\ minify_html ascii_only (lit "<SCRIPT src=a>a { }</scRIPT>")
     = lit "<script src=a>a{}</script>".
Proof.
  split.
  - etrans; [exact (proj1 (tags_matched_in_any_case_emitted_lowercase ascii_only
                             (lit "<STYLE") (lit "</Style>") [] (lit "a { }") eq_refl)
                      eq_refl eq_refl eq_refl)|].
    vm_compute. reflexivity.
  - etrans; [exact (proj1 (proj2 (tags_matched_in_any_case_emitted_lowercase ascii_only
                             (lit "<SCRIPT") (lit "</scRIPT>") (lit " src=a")
                             (lit "a { }") eq_refl))
                      eq_refl eq_refl eq_refl eq_refl)|].
    vm_compute. reflexivity.
Defined.

(** ** [minify_file] on an empty file *)

(** C9: on an existing input file whose text is empty, [minify_file] writes
    the (empty) output file and then raises [ZeroDivisionError]; nothing is
    printed and nothing is returned. *)
Theorem empty_file_raises (wide : char -> bool) (min_sibling : string -> string)
    (input_file : string) (output_file : option string) (w : world) :
  files w !! input_file = Some ([] : str) ->
  minify_file wide min_sibling input_file output_file w
  = ({| files := <[match output_file with
                   | None => min_sibling input_file
                   | Some o => o
                   end := []]> (files w);
        stdout := stdout w |},
     Raised ZeroDivisionError).
Proof.
  intros Hfile. unfold minify_file. rewrite Hfile. reflexivity.
Qed.

Lemma empty_file_raises_witness :
  minify_file ascii_only (fun _ => "index.min.html"%string) "index.html" None
    one_empty_file
  = ({| files := <["index.min.html"%string := ([] : str)]> (files one_empty_file);
        stdout := stdout one_empty_file |},
     Raised ZeroDivisionError).
Proof.
  apply (empty_file_raises ascii_only (fun _ => "index.min.html"%string)
           "index.html" None one_empty_file).
  apply lookup_singleton_eq.
Defined.

(** * Further properties *)

(** ** The shape of the CSS output *)

(** X1: for every input, the text [minify_css] returns has no white space
    at either end, every white-space character in it is a single space
    (no newline or tab, no two in a row), and none stands next to one of
    the characters "{", "}", ":", ";", ",", ">", "+", "~", "(" and ")". *)
Theorem minify_css_output_shape (x : str) :
  strip (minify_css x) = minify_css x
  /\ single_spaced (minify_css x) = true
  /\ tight (one_of "{}:;,>+~") (minify_css x) = true
  /\ tight (one_of "()") (minify_css x) = true.
Proof.
  split; [unfold minify_css; apply strip_idem|apply minify_css_shape].
Qed.

(** ** Characters of the output *)

Lemma strip_prefix_app k s t : strip_prefix k s = Some t -> s = k ++ t.
Proof.
  revert s. induction k as [|a k IH]; intros s; [by intros [= ->]|].
  destruct s as [|b s]; [done|]. simpl.
  destruct (a =? b) eqn:E; [|done]. apply N.eqb_eq in E. subst b.
  intros H. by rewrite (IH _ H).
Qed.

Lemma literal_from_text old new P (p : option char) s n r :
  (forallb P old = true -> forallb P new = true) ->
  forallb P s = true -> Re.literal old new p s = Some (n, r) ->
  forallb P r = true.
Proof.
  intros Hnew Hs. unfold Re.literal, starts_with.
  destruct (strip_prefix old s) as [t|] eqn:E; [|done]. intros [= _ <-].
  apply strip_prefix_app in E. subst s. rewrite forallb_app in Hs.
  apply andb_true_iff in Hs as [Hold _]. by apply Hnew.
Qed.

Lemma keyword_ident_from_text wide P ks s n r :
  P SP = true -> forallb P s = true ->
  Re.keyword_ident wide ks s = Some (n, r) -> forallb P r = true.
Proof.
  intros HP Hs. induction ks as [|k ks IH]; [done|]. simpl.
  unfold Re.keyword_then_boundary.
  destruct (strip_prefix k s) as [t|] eqn:E; [|exact IH].
  destruct (Re.boundary wide (last k) (head t)); [|exact IH].
  destruct t as [|c t]; [exact IH|].
  destruct (is_ident c); [|exact IH]. intros [= _ <-].
  apply strip_prefix_app in E. subst s. rewrite forallb_app in Hs.
  apply andb_true_iff in Hs as [Hk Ht]. cbn [forallb] in Ht.
  apply andb_true_iff in Ht as [Hc _].
  rewrite forallb_app, Hk. cbn [forallb]. by rewrite HP, Hc.
Qed.

Lemma ident_keyword_from_text wide P c ks t n r :
  P SP = true -> P c = true -> forallb P t = true ->
  Re.ident_keyword wide c ks t = Some (n, r) -> forallb P r = true.
Proof.
  intros HP Hc Ht. induction ks as [|k ks IH]; [done|]. simpl.
  unfold Re.keyword_then_boundary.
  destruct (strip_prefix k t) as [u|] eqn:E; [|exact IH].
  destruct (Re.boundary wide (last k) (head u)); [|exact IH].
  intros [= _ <-].
  apply strip_prefix_app in E. subst t. rewrite forallb_app in Ht.
  apply andb_true_iff in Ht as [Hk _]. cbn [forallb]. by rewrite Hc, HP, Hk.
Qed.

(** What holds of the space and of every character of the input holds of
    every character of the output. *)
Lemma minify_css_from_text P x :
  P SP = true -> forallb P x = true -> forallb P (minify_css x) = true.
Proof.
  intros HP Hx. unfold minify_css. apply strip_keeps.
  apply sub_keeps.
  { intros p s n r. apply literal_from_text.
    change (lit ";}") with [59; 125]. change (lit "}") with [125].
    cbn [forallb]. intros H. by apply andb_true_iff in H as [_ ->]. }
  apply sub_keeps; [intros p s n r; apply padded_keeps|].
  apply sub_keeps; [intros p s n r; apply padded_keeps|].
  apply sub_keeps; [intros p s n r; by apply spaces_keeps|].
  apply sub_keeps; [intros p s n r; apply delimited_keeps|]. exact Hx.
Qed.

Lemma spaced_literal_from_text a b P (p : option char) s n r :
  P SP = true -> forallb P s = true ->
  Re.literal (a ++ b) (a ++ SP :: b) p s = Some (n, r) -> forallb P r = true.
Proof.
  intros HP. apply literal_from_text. rewrite !forallb_app. cbn [forallb].
  intros H. apply andb_true_iff in H as [-> ->]. by rewrite HP.
Qed.

Lemma minify_js_from_text wide P x :
  P SP = true -> forallb P x = true -> forallb P (minify_js wide x) = true.
Proof.
  intros HP Hx. unfold minify_js. apply strip_keeps.
  apply sub_keeps;
    [intros p s n r; by apply (spaced_literal_from_text [41] (lit "of["))|].
  apply sub_keeps;
    [intros p s n r; by apply (spaced_literal_from_text [41] (lit "of("))|].
  apply sub_keeps;
    [intros p s n r; by apply (spaced_literal_from_text [41] (lit "in["))|].
  apply sub_keeps;
    [intros p s n r; by apply (spaced_literal_from_text [41] (lit "in("))|].
  apply sub_keeps.
  { intros p s n r Hs. unfold Re.space_before_keyword.
    destruct s as [|c t]; [done|].
    destruct (is_ident c && Re.boundary wide (Some c) (head t)); [|done].
    cbn [forallb] in Hs. apply andb_true_iff in Hs as [Hc Ht].
    by apply ident_keyword_from_text. }
  apply sub_keeps.
  { intros p s n r Hs. unfold Re.space_after_keyword.
    destruct (Re.boundary wide p (head s)); [|done].
    by apply keyword_ident_from_text. }
  apply sub_keeps; [intros p s n r; apply padded_keeps|].
  apply sub_keeps; [intros p s n r; by apply spaces_keeps|].
  apply sub_keeps; [intros p s n r; apply delimited_keeps|].
  apply sub_keeps; [|exact Hx].
  intros p s n r _. unfold Re.line_comment.
  destruct (strip_prefix (lit "//") s); [|done]. by intros [= _ <-].
Qed.

(** ** Documents without blocks *)

(** Where neither opening tag occurs, nothing is extracted, and the text
    of lines 93-102 is the output. *)
Lemma minify_html_without_blocks (wide : char -> bool) (doc : str) :
  anywhere (Re.ci_starts_with (lit "<style")) doc = false ->
  anywhere (Re.ci_starts_with (lit "<script")) doc = false ->
  minify_html wide doc
  = strip (Re.sub Re.tag_gap
             (Re.sub (Re.spaces [SP])
                (Re.sub (Re.delimited (lit "<!--") (lit "-->")) doc))).
Proof.
  intros Hstyle Hscript.
  assert (Re.pieces style_pattern doc = map Re.Kept doc) as Hstyles.
  { apply pieces_scan_no_match. intros q i. unfold style_pattern.
    rewrite block_needs_opening; [done|]. by apply anywhere_false_drop. }
  assert (Re.pieces script_pattern doc = map Re.Kept doc) as Hscripts.
  { apply pieces_scan_no_match. intros q i. unfold script_pattern.
    rewrite block_needs_opening; [done|]. by apply anywhere_false_drop. }
  unfold minify_html. rewrite collapse_markup_numbers. cbv zeta.
  rewrite Hstyles.
  destruct (fill_kept (G := str) style_placeholder 0 doc) as [-> ->].
  rewrite Hscripts.
  destruct (fill_kept (G := str * str) script_placeholder 0 doc) as [-> ->].
  reflexivity.
Qed.

Lemma minify_html_plain (wide : char -> bool) (doc : str) :
  forallb (other_than 60) doc = true ->
  minify_html wide doc = strip (Re.sub (Re.spaces [SP]) doc).
Proof.
  intros Hdoc.
  rewrite minify_html_without_blocks by (by apply no_lt_no_ci_tag).
  rewrite delimited_same by (by apply (no_lt_no_tag (lit "!--"))).
  by rewrite tag_gap_needs_lt by (by apply collapse_forallb).
Qed.

Lemma space_is_not_lt s :
  forallb is_space s = true -> forallb (other_than 60) s = true.
Proof.
  induction s as [|c t IH]; [reflexivity|]. cbn [forallb]. intros H.
  apply andb_true_iff in H as [Hc Ht]. rewrite (IH Ht), andb_true_r.
  unfold other_than. destruct (c =? 60) eqn:E; [|reflexivity].
  apply N.eqb_eq in E. by subst c.
Qed.

(** X3: a text of white space only (the empty text included) is minified
    to the empty text by each of [minify_css], [minify_js] and
    [minify_html]. *)
Theorem blank_input_gives_empty_output (wide : char -> bool) (x : str) :
  forallb is_space x = true ->
  minify_css x = [] /\ minify_js wide x = [] /\ minify_html wide x = [].
Proof.
  intros Hx. split; [|split].
  - pose proof (minify_css_from_text is_space x eq_refl Hx) as H.
    unfold minify_css in *. rewrite <- strip_idem. by apply strip_blank.
  - pose proof (minify_js_from_text wide is_space x eq_refl Hx) as H.
    unfold minify_js in *. rewrite <- strip_idem. by apply strip_blank.
  - rewrite minify_html_plain by (by apply space_is_not_lt).
    by apply strip_blank, collapse_forallb.
Qed.

Lemma blank_input_gives_empty_output_witness :
  minify_css [SP; NL; 9] = []
  /\ minify_js ascii_only [SP; NL; 9] = []
  /\ minify_html ascii_only [SP; NL; 9] = [].
Proof.
  exact (blank_input_gives_empty_output ascii_only [SP; NL; 9] eq_refl).
Defined.

Lemma tag_gap_same s : has_tag_gap s = false -> Re.sub Re.tag_gap s = s.
Proof.
  intros H. apply (sub_no_match _ blind_tag_gap). intros i.
  pose proof (anywhere_false_drop _ i _ H) as Hg.
  destruct (Re.tag_gap None (drop i s)) as [[n r]|] eqn:E; [|reflexivity].
  exfalso. apply tag_gap_some in E as (t & k & u & Hs & Hk & Hd & _).
  rewrite Hs in Hg. cbn [gap_here] in Hg.
  rewrite (spaces_then_span 60 t eq_refl), Hk, Hd in Hg. discriminate.
Qed.

(** The text of lines 93-102 is single-spaced, stripped and without a gap
    between tags, whatever the working text. *)
Lemma markup_steps_shape h :
  let text := strip (Re.sub Re.tag_gap
                       (Re.sub (Re.spaces [SP])
                          (Re.sub (Re.delimited (lit "<!--") (lit "-->")) h))) in
  single_spaced text = true /\ has_tag_gap text = false /\ strip text = text.
Proof.
  cbv zeta. set (h3 := Re.sub (Re.delimited _ _) h).
  destruct (tag_gap_sub_shape (Re.sub (Re.spaces [SP]) h3)) as (Hg & _ & _ & Hss).
  specialize (Hss (collapse_single_spaced h3)).
  split; [|split].
  - by apply single_spaced_strip.
  - by apply no_tag_gap_strip.
  - apply strip_idem.
Qed.

(** X4: on a document without "<", [minify_html] does what lines 96 and
    102 do and nothing else: every run of white space becomes one space
    and the two ends are stripped; minifying the result again returns it
    unchanged. *)
Theorem minify_html_plain_text (wide : char -> bool) (doc : str) :
  forallb (other_than 60) doc = true ->
  minify_html wide doc = strip (Re.sub (Re.spaces [SP]) doc)
  /\ minify_html wide (minify_html wide doc) = minify_html wide doc.
Proof.
  intros Hdoc. rewrite !(minify_html_plain wide doc Hdoc). split; [reflexivity|].
  rewrite minify_html_plain by (by apply strip_keeps, collapse_forallb).
  rewrite collapse_same
    by apply single_spaced_strip, collapse_single_spaced.
  apply strip_idem.
Qed.

Lemma minify_html_plain_text_witness :
  minify_html ascii_only (lit "  two   words ") = lit "two words"
  /\ minify_html ascii_only (minify_html ascii_only (lit "  two   words "))
     = minify_html ascii_only (lit "  two   words ").
Proof.
  destruct (minify_html_plain_text ascii_only (lit "  two   words ") eq_refl)
    as [H1 H2].
  split; [|exact H2]. etrans; [exact H1|]. vm_compute. reflexivity.
Defined.

(** X5: for a document in which no style and no script opening tag
    occurs (in any letter case), a second pass of [minify_html] returns
    the result of the first unchanged whenever that result contains no
    "<!--" and, again, no style or script opening tag. *)
Theorem minify_html_second_pass (wide : char -> bool) (doc : str) :
  anywhere (Re.ci_starts_with (lit "<style")) doc = false ->
  anywhere (Re.ci_starts_with (lit "<script")) doc = false ->
  contains (lit "<!--") (minify_html wide doc) = false ->
  anywhere (Re.ci_starts_with (lit "<style")) (minify_html wide doc) = false ->
  anywhere (Re.ci_starts_with (lit "<script")) (minify_html wide doc) = false ->
  minify_html wide (minify_html wide doc) = minify_html wide doc.
Proof.
  intros Hstyle Hscript.
  rewrite !(minify_html_without_blocks wide doc Hstyle Hscript).
  destruct (markup_steps_shape doc) as (Hss & Hgap & Hstrip). cbv zeta in *.
  generalize dependent (strip (Re.sub Re.tag_gap
                                 (Re.sub (Re.spaces [SP])
                                    (Re.sub (Re.delimited (lit "<!--") (lit "-->"))
                                       doc)))).
  intros m Hss Hgap Hstrip Hcomment Hstyle' Hscript'.
  rewrite (minify_html_without_blocks wide m Hstyle' Hscript').
  by rewrite (delimited_same _ _ m Hcomment), (collapse_same m Hss),
    (tag_gap_same m Hgap).
Qed.

Lemma minify_html_second_pass_witness :
  minify_html ascii_only
    (minify_html ascii_only (lit "<p> a </p> <!-- c -->  <p> b </p>"))
  = minify_html ascii_only (lit "<p> a </p> <!-- c -->  <p> b </p>").
Proof.
  exact (minify_html_second_pass ascii_only
           (lit "<p> a </p> <!-- c -->  <p> b </p>")
           eq_refl eq_refl eq_refl eq_refl eq_refl).
Defined.

Lemma markup_steps_length h :
  (length (strip (Re.sub Re.tag_gap
                    (Re.sub (Re.spaces [SP])
                       (Re.sub (Re.delimited (lit "<!--") (lit "-->")) h))))
   <= length h)%nat.
Proof.
  etrans; [apply strip_length|].
  etrans; [apply (ReFacts.sub_length_consumed _ blind_tag_gap)|].
  { intros s n r H. apply tag_gap_some in H as (t & k & u & -> & _ & Hd & -> & ->).
    apply (f_equal length) in Hd. rewrite length_drop in Hd. simpl in *. lia. }
  etrans; [apply (sub_length _ (blind_spaces _))|].
  { intros s n r H. unfold Re.spaces in H.
    destruct (span_len is_space s); [done|]. by injection H as _ <-. }
  apply (sub_length _ (blind_delimited _ _)).
  intros s n r H. apply delimited_some in H as [-> _]. simpl. lia.
Qed.

Lemma markup_steps_length_without_blocks (wide : char -> bool) (doc : str) :
  anywhere (Re.ci_starts_with (lit "<style")) doc = false ->
  anywhere (Re.ci_starts_with (lit "<script")) doc = false ->
  (length (minify_html wide doc) <= length doc)%nat.
Proof.
  intros Hstyle Hscript.
  rewrite (minify_html_without_blocks wide doc Hstyle Hscript).
  apply markup_steps_length.
Qed.

(** X6: for a document in which no style and no script opening tag occurs
    (in any letter case), the text [minify_html] returns is not longer
    than the document. *)
Theorem minify_html_never_longer_without_blocks (wide : char -> bool) (doc : str) :
  anywhere (Re.ci_starts_with (lit "<style")) doc = false ->
  anywhere (Re.ci_starts_with (lit "<script")) doc = false ->
  (length (minify_html wide doc) <= length doc)%nat.
Proof.
  apply markup_steps_length_without_blocks.
Qed.

Lemma minify_html_never_longer_without_blocks_witness :
  (length (minify_html ascii_only (lit "<p> a </p> <!-- c -->  <p> b </p>"))
   <= length (lit "<p> a </p> <!-- c -->  <p> b </p>"))%nat.
Proof.
  exact (minify_html_never_longer_without_blocks ascii_only
           (lit "<p> a </p> <!-- c -->  <p> b </p>") eq_refl eq_refl).
Defined.

(** ** The keyword rules of [minify_js] *)

(** A character of the class [[a-zA-Z0-9_$]] that is not a word character
    is the dollar sign. *)
Lemma is_ident_not_word wide c :
  is_ident c = true -> Re.is_word wide c = false -> c = 36.
Proof.
  unfold is_ident, Re.is_word. intros Hi Hw.
  destruct (c =? 36) eqn:E; [by apply N.eqb_eq|]. rewrite orb_false_r in Hi.
  destruct (N.ltb_spec c 128) as [_|Hc]; [congruence|].
  repeat (apply orb_true_iff in Hi as [Hi|Hi]);
    repeat (apply andb_true_iff in Hi as [Hi ?]);
    repeat match goal with
           | H : (_ <=? _) = true |- _ => apply N.leb_le in H
           | H : (_ =? _) = true |- _ => apply N.eqb_eq in H
           end; lia.
Qed.

Lemma keywords_start_and_end_in_word wide :
  forallb (fun k => Re.word_at wide (head k) && Re.word_at wide (last k))
    (keywords ++ [lit "in"; lit "of"]) = true.
Proof. vm_compute. reflexivity. Qed.

Lemma keyword_ident_dead wide ks s :
  forallb (fun k => Re.word_at wide (head k) && Re.word_at wide (last k)) ks
  = true ->
  forallb (other_than 36) s = true -> Re.keyword_ident wide ks s = None.
Proof.
  intros Hks Hs. induction ks as [|k ks IH]; [reflexivity|].
  cbn [forallb] in Hks. apply andb_true_iff in Hks as [Hk Hks].
  apply andb_true_iff in Hk as [_ Hlast]. specialize (IH Hks).
  cbn [Re.keyword_ident]. unfold Re.keyword_then_boundary.
  destruct (strip_prefix k s) as [t|] eqn:E; [|exact IH].
  destruct (Re.boundary wide (last k) (head t)) eqn:B; [|exact IH].
  destruct t as [|c t]; [exact IH|].
  destruct (is_ident c) eqn:I; [|exact IH]. exfalso.
  unfold Re.boundary in B. rewrite Hlast in B. cbn [head Re.word_at] in B.
  apply negb_true_iff in B. pose proof (is_ident_not_word wide c I B) as ->.
  apply strip_prefix_app in E. subst s. rewrite forallb_app in Hs.
  apply andb_true_iff in Hs as [_ Hs]. cbn [forallb] in Hs.
  by apply andb_true_iff in Hs as [Hs _].
Qed.

Lemma ident_keyword_starts wide c ks t n r :
  Re.ident_keyword wide c ks t = Some (n, r) ->
  exists k u, In k ks /\ strip_prefix k t = Some u /\ r = c :: SP :: k.
Proof.
  induction ks as [|k ks IH]; [done|]. cbn [Re.ident_keyword].
  unfold Re.keyword_then_boundary.
  destruct (strip_prefix k t) as [u|] eqn:E.
  - destruct (Re.boundary wide (last k) (head u)).
    + intros [= _ <-]. exists k, u. by repeat split; [left|..].
    + intros H. destruct (IH H) as (k' & u' & Hin & Hp & Hr).
      exists k', u'. by repeat split; [right|..].
  - intros H. destruct (IH H) as (k' & u' & Hin & Hp & Hr).
    exists k', u'. by repeat split; [right|..].
Qed.

Lemma space_before_keyword_dead wide ks (p : option char) s :
  forallb (fun k => Re.word_at wide (head k) && Re.word_at wide (last k)) ks
  = true ->
  forallb (other_than 36) s = true -> Re.space_before_keyword wide ks p s = None.
Proof.
  intros Hks Hs. unfold Re.space_before_keyword. destruct s as [|c t]; [done|].
  destruct (is_ident c && Re.boundary wide (Some c) (head t)) eqn:H; [|done].
  apply andb_true_iff in H as [I B].
  destruct (Re.ident_keyword wide c ks t) as [[n r]|] eqn:E; [|done]. exfalso.
  apply ident_keyword_starts in E as (k & u & Hin & Hp & _).
  pose proof (proj1 (forallb_forall _ _) Hks k Hin) as Hk.
  apply andb_true_iff in Hk as [Hhead _].
  apply strip_prefix_app in Hp. subst t.
  destruct k as [|a k]; [done|]. cbn [app head] in *.
  unfold Re.boundary in B. rewrite Hhead in B. cbn [Re.word_at] in B.
  rewrite xorb_true_r in B. apply negb_true_iff in B.
  pose proof (is_ident_not_word wide c I B) as ->.
  cbn [forallb] in Hs. by apply andb_true_iff in Hs as [Hs _].
Qed.

Lemma keyword_rules_dead wide s :
  forallb (other_than 36) s = true ->
  Re.sub (Re.space_before_keyword wide (keywords ++ [lit "in"; lit "of"]))
    (Re.sub (Re.space_after_keyword wide keywords) s) = s.
Proof.
  intros Hs.
  assert (Re.sub (Re.space_after_keyword wide keywords) s = s) as ->.
  { apply (ReFacts.sub_scan_none _ (other_than 36)); [|exact Hs].
    intros p u Hu. unfold Re.space_after_keyword.
    destruct (Re.boundary wide p (head u)); [|reflexivity].
    apply keyword_ident_dead; [|exact Hu].
    pose proof (keywords_start_and_end_in_word wide) as H.
    rewrite forallb_app in H. by apply andb_true_iff in H as [H _]. }
  apply (ReFacts.sub_scan_none _ (other_than 36)); [|exact Hs].
  intros p u Hu. apply space_before_keyword_dead; [|exact Hu].
  apply keywords_start_and_end_in_word.
Qed.

(** X7: on an input without "$" the two keyword substitutions of lines
    47-48 change nothing: [minify_js] returns what its other steps give
    (comments, white space, punctuation, the four ")in(" and ")of("
    replacements, strip), and the result does not depend on which
    characters above ASCII count as letters. *)
Theorem keyword_rules_need_dollar (wide : char -> bool) (x : str) :
  forallb (other_than 36) x = true ->
  minify_js wide x
  = strip
      (Re.sub (Re.literal (lit ")of[") (lit ") of["))
         (Re.sub (Re.literal (lit ")of(") (lit ") of("))
            (Re.sub (Re.literal (lit ")in[") (lit ") in["))
               (Re.sub (Re.literal (lit ")in(") (lit ") in("))
                  (Re.sub (Re.padded "{}()[];,:<>!=+-*/%&|^")
                     (Re.sub (Re.spaces [SP]) (js_uncommented x)))))))
  /\ (forall wide' : char -> bool, minify_js wide' x = minify_js wide x).
Proof.
  intros Hx.
  assert (forallb (other_than 36)
            (Re.sub (Re.padded "{}()[];,:<>!=+-*/%&|^")
               (Re.sub (Re.spaces [SP]) (js_uncommented x))) = true) as Hy.
  { unfold js_uncommented.
    apply sub_keeps; [intros p s n r; apply padded_keeps|].
    apply sub_keeps; [intros p s n r; by apply spaces_keeps|].
    apply sub_keeps; [intros p s n r; apply delimited_keeps|].
    apply sub_keeps; [|exact Hx].
    intros p s n r _. unfold Re.line_comment.
    destruct (strip_prefix (lit "//") s); [|done]. by intros [= _ <-]. }
  assert (forall w, minify_js w x
          = strip
              (Re.sub (Re.literal (lit ")of[") (lit ") of["))
                 (Re.sub (Re.literal (lit ")of(") (lit ") of("))
                    (Re.sub (Re.literal (lit ")in[") (lit ") in["))
                       (Re.sub (Re.literal (lit ")in(") (lit ") in("))
                          (Re.sub (Re.padded "{}()[];,:<>!=+-*/%&|^")
                             (Re.sub (Re.spaces [SP]) (js_uncommented x))))))))
    as H.
  { intros w. unfold minify_js. fold (js_uncommented x).
    by rewrite (keyword_rules_dead w _ Hy). }
  split; [apply H|]. intros wide'. by rewrite !H.
Qed.

Lemma keyword_rules_need_dollar_witness :
  minify_js ascii_only (lit "var  a = 1 ; return /* c */ a") = lit "var a=1;return a"
  /\ (forall wide' : char -> bool,
        minify_js wide' (lit "var  a = 1 ; return /* c */ a")
        = minify_js ascii_only (lit "var  a = 1 ; return /* c */ a")).
Proof.
  destruct (keyword_rules_need_dollar ascii_only
              (lit "var  a = 1 ; return /* c */ a") eq_refl) as [H1 H2].
  split; [|exact H2]. etrans; [exact H1|]. vm_compute. reflexivity.
Defined.

(** ** The shape of the JavaScript output *)

Lemma head_space_solid a rest :
  a <> [] -> forallb (fun c => negb (is_space c)) a = true ->
  head_space (a ++ rest) = false.
Proof.
  destruct a as [|c a]; [done|]. cbn [forallb app head_space]. intros _ H.
  apply andb_true_iff in H as [Hc _]. by apply negb_true_iff.
Qed.

Lemma single_spaced_after_solid a rest :
  forallb (fun c => negb (is_space c)) a = true ->
  single_spaced rest = true -> single_spaced (a ++ rest) = true.
Proof.
  intros Ha Hrest. induction a as [|c a IH]; [exact Hrest|].
  cbn [forallb] in Ha. apply andb_true_iff in Ha as [Hc Ha].
  cbn [app]. by rewrite single_spaced_cons, Hc, (IH Ha).
Qed.

(** A substitution that only puts one space between two texts without
    white space keeps a single-spaced text single-spaced. *)
Lemma insertion_keeps_single_spaced (m : Re.matcher str) :
  (forall p s n r, m p s = Some (n, r) ->
     head_space s = false
     /\ exists a b, r = a ++ SP :: b
                    /\ a <> [] /\ forallb (fun c => negb (is_space c)) a = true
                    /\ b <> [] /\ forallb (fun c => negb (is_space c)) b = true) ->
  forall s p, single_spaced s = true ->
    single_spaced (Re.sub_scan m O p s) = true
    /\ head_space (Re.sub_scan m O p s) = head_space s.
Proof.
  intros Hm. induction s as [s IH] using ReFacts.length_ind. intros p Hs.
  destruct s as [|c t]; [done|]. rewrite ReFacts.sub_scan_cons.
  rewrite single_spaced_cons in Hs. apply andb_true_iff in Hs as [Hc Ht].
  destruct (m p (c :: t)) as [[n r]|] eqn:E.
  - destruct (Hm _ _ _ _ E) as (Hhead & a & b & -> & Ha & Hsa & Hb & Hsb).
    destruct (ReFacts.sub_scan_skip m (Nat.pred n) (Some c) t) as [q ->].
    destruct (IH (drop (Nat.pred n) t)
                ltac:(rewrite length_drop; simpl; lia) q
                (single_spaced_drop _ _ Ht)) as [Hrest _].
    rewrite <- app_assoc. cbn [app]. split.
    + apply single_spaced_after_solid; [exact Hsa|].
      rewrite single_spaced_cons, (head_space_solid b _ Hb Hsb).
      by rewrite (single_spaced_after_solid b _ Hsb Hrest).
    + by rewrite (head_space_solid a _ Ha Hsa).
  - destruct (IH t ltac:(simpl; lia) (Some c) Ht) as [Hrest Hh].
    by rewrite single_spaced_cons, Hh, Hc, Hrest.
Qed.

Lemma is_ident_not_space c : is_ident c = true -> is_space c = false.
Proof.
  unfold is_ident, is_space. intros Hi.
  repeat (apply orb_true_iff in Hi as [Hi|Hi]);
    repeat (apply andb_true_iff in Hi as [Hi ?]);
    repeat match goal with
           | H : (_ <=? _) = true |- _ => apply N.leb_le in H
           | H : (_ =? _) = true |- _ => apply N.eqb_eq in H
           end;
    repeat (apply orb_false_iff; split);
    try (apply andb_false_iff;
         first [left; apply N.leb_gt; lia | right; apply N.leb_gt; lia]);
    apply N.eqb_neq; lia.
Qed.

Lemma keywords_without_space :
  forallb (fun k => negb (bool_decide (k = []))
                    && forallb (fun c => negb (is_space c)) k)
    (keywords ++ [lit "in"; lit "of"]) = true.
Proof. vm_compute. reflexivity. Qed.

Lemma keyword_ident_starts wide ks s n r :
  Re.keyword_ident wide ks s = Some (n, r) ->
  exists k c u, In k ks /\ strip_prefix k s = Some (c :: u)
                /\ is_ident c = true /\ r = k ++ [SP; c].
Proof.
  induction ks as [|k ks IH]; [done|]. cbn [Re.keyword_ident].
  unfold Re.keyword_then_boundary.
  assert (Re.keyword_ident wide ks s = Some (n, r) ->
          exists k' c u, In k' (k :: ks) /\ strip_prefix k' s = Some (c :: u)
                         /\ is_ident c = true /\ r = k' ++ [SP; c]) as Hnext.
  { intros H. destruct (IH H) as (k' & c & u & Hin & Hrest).
    exists k', c, u. split; [by right|exact Hrest]. }
  destruct (strip_prefix k s) as [t|] eqn:E; [|exact Hnext].
  destruct (Re.boundary wide (last k) (head t)); [|exact Hnext].
  destruct t as [|c t]; [exact Hnext|].
  destruct (is_ident c) eqn:I; [|exact Hnext].
  intros [= _ <-]. exists k, c, t. by repeat split; [left|..].
Qed.

Lemma keyword_without_space k ks :
  forallb (fun k => negb (bool_decide (k = []))
                    && forallb (fun c => negb (is_space c)) k) ks = true ->
  In k ks -> k <> [] /\ forallb (fun c => negb (is_space c)) k = true.
Proof.
  intros Hks Hin. pose proof (proj1 (forallb_forall _ _) Hks k Hin) as H.
  apply andb_true_iff in H as [Hne Hsolid]. split; [|exact Hsolid].
  apply negb_true_iff, bool_decide_eq_false in Hne. exact Hne.
Qed.

Lemma space_after_keyword_inserts wide ks (p : option char) s n r :
  forallb (fun k => negb (bool_decide (k = []))
                    && forallb (fun c => negb (is_space c)) k) ks = true ->
  Re.space_after_keyword wide ks p s = Some (n, r) ->
  head_space s = false
  /\ exists a b, r = a ++ SP :: b
                 /\ a <> [] /\ forallb (fun c => negb (is_space c)) a = true
                 /\ b <> [] /\ forallb (fun c => negb (is_space c)) b = true.
Proof.
  intros Hks. unfold Re.space_after_keyword.
  destruct (Re.boundary wide p (head s)); [|done]. intros H.
  apply keyword_ident_starts in H as (k & c & u & Hin & Hp & I & ->).
  destruct (keyword_without_space k ks Hks Hin) as [Hne Hsolid].
  apply strip_prefix_app in Hp. subst s. split.
  - by apply head_space_solid.
  - exists k, [c]. repeat split; [exact Hne|exact Hsolid|done|].
    cbn [forallb]. by rewrite (is_ident_not_space c I).
Qed.

Lemma space_before_keyword_inserts wide ks (p : option char) s n r :
  forallb (fun k => negb (bool_decide (k = []))
                    && forallb (fun c => negb (is_space c)) k) ks = true ->
  Re.space_before_keyword wide ks p s = Some (n, r) ->
  head_space s = false
  /\ exists a b, r = a ++ SP :: b
                 /\ a <> [] /\ forallb (fun c => negb (is_space c)) a = true
                 /\ b <> [] /\ forallb (fun c => negb (is_space c)) b = true.
Proof.
  intros Hks. unfold Re.space_before_keyword. destruct s as [|c t]; [done|].
  destruct (is_ident c && Re.boundary wide (Some c) (head t)) eqn:H; [|done].
  apply andb_true_iff in H as [I _]. intros H.
  apply ident_keyword_starts in H as (k & u & Hin & _ & ->).
  destruct (keyword_without_space k ks Hks Hin) as [Hne Hsolid].
  pose proof (is_ident_not_space c I) as Hc. split; [exact Hc|].
  exists [c], k. repeat split; [done| |exact Hne|exact Hsolid].
  cbn [forallb]. by rewrite Hc.
Qed.

Lemma spaced_literal_inserts a b (p : option char) s n r :
  a <> [] -> forallb (fun c => negb (is_space c)) a = true ->
  b <> [] -> forallb (fun c => negb (is_space c)) b = true ->
  Re.literal (a ++ b) (a ++ SP :: b) p s = Some (n, r) ->
  head_space s = false
  /\ exists a b, r = a ++ SP :: b
                 /\ a <> [] /\ forallb (fun c => negb (is_space c)) a = true
                 /\ b <> [] /\ forallb (fun c => negb (is_space c)) b = true.
Proof.
  intros Ha Hsa Hb Hsb. unfold Re.literal, starts_with.
  destruct (strip_prefix (a ++ b) s) as [t|] eqn:E; [|done]. intros [= _ <-].
  apply strip_prefix_app in E. subst s. split.
  - rewrite <- app_assoc. by apply head_space_solid.
  - by exists a, b.
Qed.

Lemma js_specials_not_space c :
  one_of "{}()[];,:<>!=+-*/%&|^" c = true -> is_space c = false.
Proof. by apply one_of_not_space. Qed.

(** X8: for every input, the text [minify_js] returns has no white space
    at either end, and every white-space character in it is a single
    space: no newline or tab is left, and no two spaces stand in a row. *)
Theorem minify_js_output_shape (wide : char -> bool) (x : str) :
  strip (minify_js wide x) = minify_js wide x
  /\ single_spaced (minify_js wide x) = true.
Proof.
  unfold minify_js. split; [apply strip_idem|]. apply single_spaced_strip.
  apply insertion_keeps_single_spaced;
    [intros p s n r;
     by apply (spaced_literal_inserts [41] (lit "of["))|].
  apply insertion_keeps_single_spaced;
    [intros p s n r;
     by apply (spaced_literal_inserts [41] (lit "of("))|].
  apply insertion_keeps_single_spaced;
    [intros p s n r;
     by apply (spaced_literal_inserts [41] (lit "in["))|].
  apply insertion_keeps_single_spaced;
    [intros p s n r;
     by apply (spaced_literal_inserts [41] (lit "in("))|].
  apply insertion_keeps_single_spaced;
    [intros p s n r; apply space_before_keyword_inserts;
     apply keywords_without_space|].
  apply insertion_keeps_single_spaced.
  { intros p s n r. apply space_after_keyword_inserts.
    pose proof keywords_without_space as H. rewrite forallb_app in H.
    by apply andb_true_iff in H as [H _]. }
  apply (padded_preserves _ js_specials_not_space is_space).
  apply collapse_single_spaced.
Qed.

(** ** [minify_file] *)

Lemma truediv_by_size (a : Z) (c : char) (t : str) :
  truediv a (Z.of_nat (length (c :: t)))
  = inr (inject_Z a / inject_Z (Z.of_nat (length (c :: t))))%Q.
Proof.
  unfold truediv.
  destruct (Z.eqb_spec (Z.of_nat (length (c :: t))) 0) as [H|_]; [|reflexivity].
  simpl in H. lia.
Qed.

(** What [minify_file] does to an existing file that is not empty. *)
Lemma minify_file_on_text (wide : char -> bool) (min_sibling : string -> string)
    (input_file : string) (output_file : option string) (w : world)
    (html_content : str) :
  files w !! input_file = Some html_content -> html_content <> [] ->
  let minified_html := minify_html wide html_content in
  let output_path := match output_file with
                     | None => min_sibling input_file
                     | Some o => o
                     end in
  minify_file wide min_sibling input_file output_file w
  = ({| files := <[output_path := minified_html]> (files w);
        stdout := stdout w
                  ++ [SavedTo output_path;
                      OriginalSize (length html_content);
                      MinifiedSize (length minified_html);
                      Reduction
                        (inject_Z (Z.of_nat (length html_content)
                                   - Z.of_nat (length minified_html))
                         / inject_Z (Z.of_nat (length html_content)) * 100)%Q] |},
     Returned true).
Proof.
  intros Hfile Hne. cbv zeta. unfold minify_file. rewrite Hfile.
  destruct html_content as [|c t]; [done|].
  by rewrite truediv_by_size.
Qed.

Lemma minify_file_lookup_output (wide : char -> bool)
    (min_sibling : string -> string) (input_file : string)
    (output_file : option string) (w : world) (html_content : str) :
  files w !! input_file = Some html_content ->
  files (fst (minify_file wide min_sibling input_file output_file w))
  !! match output_file with
     | None => min_sibling input_file
     | Some o => o
     end
  = Some (minify_html wide html_content).
Proof.
  intros Hfile. destruct html_content as [|c t].
  - unfold minify_file. rewrite Hfile. cbn [fst files]. apply lookup_insert_eq.
  - rewrite (minify_file_on_text wide min_sibling input_file output_file w
               (c :: t) Hfile) by done.
    cbn [fst files]. apply lookup_insert_eq.
Qed.

Lemma minify_file_result (wide : char -> bool) (min_sibling : string -> string)
    (input_file : string) (output_file : option string) (w : world)
    (html_content : str) :
  files w !! input_file = Some html_content ->
  snd (minify_file wide min_sibling input_file output_file w)
  = match html_content with
    | [] => Raised ZeroDivisionError
    | _ :: _ => Returned true
    end.
Proof.
  intros Hfile. destruct html_content as [|c t].
  - unfold minify_file. by rewrite Hfile.
  - by rewrite (minify_file_on_text wide min_sibling input_file output_file w
                  (c :: t) Hfile).
Qed.

Lemma reduction_facts (o m : nat) :
  o <> O ->
  let q := (inject_Z (Z.of_nat o - Z.of_nat m) / inject_Z (Z.of_nat o) * 100)%Q in
  (q <= 100)%Q
  /\ ((q < 0)%Q <-> (o < m)%nat)
  /\ ((q == 100)%Q <-> m = O)
  /\ ((m <= o)%nat -> (0 <= q)%Q).
Proof.
  intros Ho q. subst q.
  destruct o as [|o]; [done|]. clear Ho.
  remember (Z.of_nat m) as b eqn:Hb.
  assert (0 <= b)%Z as Hb0 by lia.
  assert (forall k, (k < m)%nat <-> (Z.of_nat k < b)%Z) as Hlt by (intros; lia).
  assert (m = O <-> b = 0%Z) as Hz by lia.
  assert (forall k, (m <= k)%nat <-> (b <= Z.of_nat k)%Z) as Hle by (intros; lia).
  rewrite Hlt, Hz, Hle. clear Hlt Hz Hle Hb m.
  rewrite Nat2Z.inj_succ.
  remember (Z.of_nat o) as a eqn:Ha. assert (0 <= a)%Z as Ha0 by lia. clear Ha o.
  destruct (Z.succ a) as [|p|p] eqn:Hp; try lia.
  unfold Qle, Qlt, Qeq, Qdiv, Qmult, Qinv. simpl.
  repeat split; intros; nia.
Qed.

(** X11: the reduction [minify_file] reports for an input that is not
    empty is at most 100 percent; it is 100 exactly when the minified text
    is empty, negative exactly when the minified text is longer than the
    input, and not negative when no style and no script opening tag occurs
    in the input. *)
Theorem reported_reduction (wide : char -> bool) (min_sibling : string -> string)
    (input_file : string) (output_file : option string) (w : world)
    (html_content : str) :
  files w !! input_file = Some html_content -> html_content <> [] ->
  exists reduction : Q,
    last (stdout (fst (minify_file wide min_sibling input_file output_file w)))
    = Some (Reduction reduction)
    /\ (reduction <= 100)%Q
    /\ ((reduction == 100)%Q <-> minify_html wide html_content = [])
    /\ ((reduction < 0)%Q
        <-> (length html_content < length (minify_html wide html_content))%nat)
    /\ (anywhere (Re.ci_starts_with (lit "<style")) html_content = false ->
        anywhere (Re.ci_starts_with (lit "<script")) html_content = false ->
        (0 <= reduction)%Q).
Proof.
  intros Hfile Hne.
  rewrite (minify_file_on_text wide min_sibling input_file output_file w
             html_content Hfile Hne).
  cbn [fst stdout].
  destruct (reduction_facts (length html_content)
              (length (minify_html wide html_content))) as (H100 & Hneg & Hall & Hpos).
  { by destruct html_content. }
  eexists. split.
  { rewrite last_app_cons. reflexivity. }
  split; [exact H100|]. split; [|split; [exact Hneg|]].
  - rewrite Hall. by destruct (minify_html wide html_content).
  - intros Hstyle Hscript. apply Hpos.
    apply markup_steps_length_without_blocks; assumption.
Qed.

Lemma reported_reduction_witness :
  exists reduction : Q,
    last (stdout (fst (minify_file ascii_only (fun _ => "index.min.html"%string)
                         "index.html" None one_page)))
    = Some (Reduction reduction)
    /\ (reduction <= 100)%Q
    /\ ((reduction == 100)%Q
        <-> minify_html ascii_only (lit "<p> a </p>  <p> b </p>") = [])
    /\ ((reduction < 0)%Q
        <-> (length (lit "<p> a </p>  <p> b </p>")
             < length (minify_html ascii_only (lit "<p> a </p>  <p> b </p>")))%nat)
    /\ (anywhere (Re.ci_starts_with (lit "<style"))
          (lit "<p> a </p>  <p> b </p>") = false ->
        anywhere (Re.ci_starts_with (lit "<script"))
          (lit "<p> a </p>  <p> b </p>") = false ->
        (0 <= reduction)%Q).
Proof.
  apply (reported_reduction ascii_only (fun _ => "index.min.html"%string)
           "index.html" None one_page (lit "<p> a </p>  <p> b </p>")).
  - apply lookup_singleton_eq.
  - discriminate.
Defined.

(** X12: chaining two calls.  When a first call writes its output to a
    path and a second call reads that path, the second output holds the
    text minified twice; the second call returns [True] when the first
    minified text is not empty and raises [ZeroDivisionError] when it is
    empty (so for an input of white space only). *)
Theorem minify_file_chained (wide : char -> bool) (min_sibling : string -> string)
    (first second third : string) (w : world) (html_content : str) :
  files w !! first = Some html_content ->
  let w1 := fst (minify_file wide min_sibling first (Some second) w) in
  let '(w2, r2) := minify_file wide min_sibling second (Some third) w1 in
  files w2 !! third = Some (minify_html wide (minify_html wide html_content))
  /\ r2 = match minify_html wide html_content with
          | [] => Raised ZeroDivisionError
          | _ :: _ => Returned true
          end.
Proof.
  intros Hfile. cbv zeta.
  pose proof (minify_file_lookup_output wide min_sibling first (Some second) w
                html_content Hfile) as H1. cbn beta iota in H1.
  pose proof (minify_file_lookup_output wide min_sibling second (Some third) _
                _ H1) as H2. cbn beta iota in H2.
  pose proof (minify_file_result wide min_sibling second (Some third) _ _ H1) as H3.
  destruct (minify_file wide min_sibling second (Some third) _) as [w2 r2].
  split; [exact H2|exact H3].
Qed.

Lemma minify_file_chained_witness :
  let w1 := fst (minify_file ascii_only (fun _ => "index.min.html"%string)
                   "index.html" (Some "a.html"%string) one_page) in
  let '(w2, r2) := minify_file ascii_only (fun _ => "index.min.html"%string)
                     "a.html" (Some "b.html"%string) w1 in
  files w2 !! "b.html"%string
  = Some (minify_html ascii_only
            (minify_html ascii_only (lit "<p> a </p>  <p> b </p>")))
  /\ r2 = match minify_html ascii_only (lit "<p> a </p>  <p> b </p>") with
          | [] => Raised ZeroDivisionError
          | _ :: _ => Returned true
          end.
Proof.
  apply (minify_file_chained ascii_only (fun _ => "index.min.html"%string)
           "index.html" "a.html" "b.html" one_page
           (lit "<p> a </p>  <p> b </p>")).
  apply lookup_singleton_eq.
Defined.

(** ** The two ends of the HTML output *)

Lemma tail_space_cons c t : t <> [] -> tail_space (c :: t) = tail_space t.
Proof.
  intros Ht. unfold tail_space. rewrite last_cons.
  destruct (last t) eqn:E; [reflexivity|]. by apply last_None in E.
Qed.

Lemma tail_space_app a b : b <> [] -> tail_space (a ++ b) = tail_space b.
Proof.
  intros Hb. unfold tail_space. destruct b as [|x b]; [done|].
  by rewrite last_app_cons.
Qed.

Lemma tail_space_drop k t : drop k t <> [] -> tail_space (drop k t) = tail_space t.
Proof.
  intros H. rewrite <- (take_drop k t) at 2. by rewrite tail_space_app.
Qed.

Lemma rstrip_same s : tail_space s = false -> rstrip s = s.
Proof.
  induction s as [|c t IH]; [reflexivity|]. intros H. cbn [rstrip].
  destruct t as [|b t].
  - unfold tail_space in H. cbn in H. cbn [rstrip]. by rewrite H.
  - rewrite tail_space_cons in H by done. rewrite (IH H). reflexivity.
Qed.

Lemma rstrip_tail s : tail_space (rstrip s) = false.
Proof.
  induction s as [|c t IH]; [reflexivity|]. cbn [rstrip].
  destruct (rstrip t) as [|b r] eqn:E.
  - destruct (is_space c) eqn:Hc; [reflexivity|]. unfold tail_space. cbn.
    exact Hc.
  - by rewrite tail_space_cons.
Qed.

Lemma strip_same s :
  head_space s = false -> tail_space s = false -> strip s = s.
Proof.
  intros Hh Ht. unfold strip. rewrite (lstrip_same s Hh). by apply rstrip_same.
Qed.

(** Replacements that are not empty and have no white space at their ends
    keep the ends of a text free of white space. *)
Lemma sub_keeps_ends (m : Re.matcher str) (Hb : Re.blind m) :
  (forall s n r, m None s = Some (n, r) ->
     r <> [] /\ head_space r = false /\ tail_space r = false) ->
  forall s,
    (s <> [] -> Re.sub m s <> [])
    /\ (head_space s = false -> head_space (Re.sub m s) = false)
    /\ (tail_space s = false -> tail_space (Re.sub m s) = false).
Proof.
  intros Hm.
  apply (sub_ind m Hb
           (fun s out => (s <> [] -> out <> [])
                         /\ (head_space s = false -> head_space out = false)
                         /\ (tail_space s = false -> tail_space out = false))).
  - done.
  - intros c t _ (Hne & _ & Htail). split; [done|]. split; [done|].
    intros H. destruct t as [|b t].
    + by rewrite sub_nil.
    + rewrite tail_space_cons in H by done.
      rewrite tail_space_cons by (by apply Hne). by apply Htail.
  - intros c t n r E IH. destruct (Hm _ _ _ E) as (Hr & Hrh & Hrt).
    split; [by destruct r|]. split.
    + intros _. by rewrite head_space_app_l.
    + intros H.
      destruct (IH (drop (Nat.pred n) t)
                  ltac:(rewrite length_drop; lia)) as (Hne & _ & Htail).
      destruct (drop (Nat.pred n) t) as [|b u] eqn:Hd.
      * by rewrite sub_nil, app_nil_r.
      * rewrite tail_space_app by (by apply Hne). apply Htail.
        rewrite <- Hd. rewrite tail_space_drop by (by rewrite Hd).
        rewrite tail_space_cons in H; [exact H|].
        intros ->. by rewrite drop_nil in Hd.
Qed.

Lemma restore_keeps_ends (placeholder : nat -> str) blocks :
  Forall (fun b => b <> [] /\ head_space b = false /\ tail_space b = false)
    blocks ->
  forall idx s, head_space s = false -> tail_space s = false ->
    head_space (restore placeholder idx blocks s) = false
    /\ tail_space (restore placeholder idx blocks s) = false.
Proof.
  induction 1 as [|b blocks Hb _ IH]; intros idx s Hh Ht; [done|].
  cbn [restore]. unfold Re.replace.
  destruct (sub_keeps_ends (Re.literal (placeholder idx) b) (blind_literal _ _))
    with (s := s) as (_ & Hh' & Ht').
  { intros u n r. unfold Re.literal.
    destruct (starts_with (placeholder idx) u); [|done]. by intros [= _ <-]. }
  apply IH; [by apply Hh'|by apply Ht'].
Qed.

(** X15: for every document, the text [minify_html] returns neither
    starts nor ends with white space, also where a restored block stands
    at an end. *)
Theorem minify_html_output_stripped (wide : char -> bool) (doc : str) :
  strip (minify_html wide doc) = minify_html wide doc.
Proof.
  unfold minify_html. rewrite collapse_markup_numbers. cbv zeta.
  set (text := strip (Re.sub Re.tag_gap _)).
  assert (head_space text = false /\ tail_space text = false) as [Hh Ht]
    by (split; [apply strip_head|apply rstrip_tail]).
  generalize dependent text. intros text Hh Ht.
  destruct (restore_keeps_ends style_placeholder
              (map style_block
                 (Re.found (Re.pieces style_pattern doc)))) with (idx := O) (s := text)
    as [Hh1 Ht1]; [|exact Hh|exact Ht|].
  { apply Forall_map, Forall_forall. intros content _. unfold style_block.
    change (lit "</style>") with (lit "</style" ++ [62]).
    by rewrite !app_assoc, tail_space_app. }
  destruct (restore_keeps_ends script_placeholder
              (map (script_block wide)
                 (Re.found
                    (Re.pieces script_pattern
                       (Re.fill style_placeholder 0
                          (Re.pieces style_pattern doc))))))
    with (idx := O)
         (s := restore style_placeholder 0
                 (map style_block (Re.found (Re.pieces style_pattern doc))) text)
    as [Hh2 Ht2]; [|exact Hh1|exact Ht1|].
  { apply Forall_map, Forall_forall. intros groups _. unfold script_block.
    change (lit "</script>") with (lit "</script" ++ [62]).
    by rewrite !app_assoc, tail_space_app. }
  by apply strip_same.
Qed.

(** ** What the minifiers delete *)

Section Ink.

(** A choice of characters to look at, none of them white space. *)
Variable f : char -> bool.
Hypothesis f_not_space : forall c, is_space c = true -> f c = false.

Lemma filter_span s : List.filter f (take (span_len is_space s) s) = [].
Proof.
  induction s as [|c t IH]; [reflexivity|]. cbn [span_len].
  destruct (is_space c) eqn:Hc; [|reflexivity].
  cbn [take List.filter]. by rewrite (f_not_space c Hc).
Qed.

Lemma filter_lstrip s : List.filter f (lstrip s) = List.filter f s.
Proof.
  induction s as [|c t IH]; [reflexivity|]. cbn [lstrip].
  destruct (is_space c) eqn:Hc; [|reflexivity].
  cbn [List.filter]. by rewrite (f_not_space c Hc).
Qed.

Lemma filter_rstrip s : List.filter f (rstrip s) = List.filter f s.
Proof.
  induction s as [|c t IH]; [reflexivity|]. cbn [rstrip].
  destruct (rstrip t) as [|b r].
  - cbn [List.filter] in *. rewrite <- IH.
    destruct (is_space c) eqn:Hc; [|reflexivity]. by rewrite (f_not_space c Hc).
  - cbn [List.filter] in *. by rewrite IH.
Qed.

Lemma filter_strip s : List.filter f (strip s) = List.filter f s.
Proof. unfold strip. by rewrite filter_rstrip, filter_lstrip. Qed.

Lemma spaces_filter (p : option char) s n r :
  Re.spaces [SP] p s = Some (n, r) ->
  (1 <= n)%nat /\ List.filter f r = List.filter f (take n s).
Proof.
  unfold Re.spaces. destruct (span_len is_space s) as [|k] eqn:E; [done|].
  intros [= <- <-]. split; [lia|]. rewrite <- E, filter_span.
  cbn [List.filter]. by rewrite (f_not_space SP eq_refl).
Qed.

Lemma padded_filter set (p : option char) s n r :
  Re.padded set p s = Some (n, r) ->
  (1 <= n)%nat /\ List.filter f r = List.filter f (take n s).
Proof.
  unfold Re.padded. cbv zeta.
  destruct (drop (span_len is_space s) s) as [|c t] eqn:E; [done|].
  destruct (one_of set c); [|done]. intros [= <- <-]. split; [lia|].
  rewrite <- Nat.add_assoc, <- take_take_drop, E. cbn [Nat.add take].
  rewrite List.filter_app, filter_span. cbn [app List.filter].
  by rewrite filter_span.
Qed.

Lemma keyword_ident_filter wide ks s n r :
  Re.keyword_ident wide ks s = Some (n, r) ->
  (1 <= n)%nat /\ List.filter f r = List.filter f (take n s).
Proof.
  induction ks as [|k ks IH]; [done|]. cbn [Re.keyword_ident].
  unfold Re.keyword_then_boundary.
  destruct (strip_prefix k s) as [t|] eqn:E; [|exact IH].
  destruct (Re.boundary wide (last k) (head t)); [|exact IH].
  destruct t as [|c t]; [exact IH|].
  destruct (is_ident c); [|exact IH]. intros [= <- <-]. split; [lia|].
  apply strip_prefix_app in E. subst s.
  replace (S (length k)) with (length k + 1)%nat by lia.
  rewrite take_app_add. cbn [take]. rewrite !List.filter_app.
  cbn [List.filter]. by rewrite (f_not_space SP eq_refl).
Qed.

Lemma space_after_keyword_filter wide ks (p : option char) s n r :
  Re.space_after_keyword wide ks p s = Some (n, r) ->
  (1 <= n)%nat /\ List.filter f r = List.filter f (take n s).
Proof.
  unfold Re.space_after_keyword.
  destruct (Re.boundary wide p (head s)); [|done]. apply keyword_ident_filter.
Qed.

Lemma ident_keyword_filter wide c ks t n r :
  Re.ident_keyword wide c ks t = Some (n, r) ->
  (1 <= n)%nat /\ List.filter f r = List.filter f (take n (c :: t)).
Proof.
  induction ks as [|k ks IH]; [done|]. cbn [Re.ident_keyword].
  unfold Re.keyword_then_boundary.
  destruct (strip_prefix k t) as [u|] eqn:E; [|exact IH].
  destruct (Re.boundary wide (last k) (head u)); [|exact IH].
  intros [= <- <-]. split; [lia|].
  apply strip_prefix_app in E. subst t. cbn [take].
  rewrite take_app_length. cbn [List.filter].
  by rewrite (f_not_space SP eq_refl).
Qed.

Lemma space_before_keyword_filter wide ks (p : option char) s n r :
  Re.space_before_keyword wide ks p s = Some (n, r) ->
  (1 <= n)%nat /\ List.filter f r = List.filter f (take n s).
Proof.
  unfold Re.space_before_keyword. destruct s as [|c t]; [done|].
  destruct (is_ident c && Re.boundary wide (Some c) (head t)); [|done].
  apply ident_keyword_filter.
Qed.

Lemma spaced_literal_filter a b (p : option char) s n r :
  a <> [] ->
  Re.literal (a ++ b) (a ++ SP :: b) p s = Some (n, r) ->
  (1 <= n)%nat /\ List.filter f r = List.filter f (take n s).
Proof.
  intros Ha. unfold Re.literal, starts_with.
  destruct (strip_prefix (a ++ b) s) as [t|] eqn:E; [|done]. intros [= <- <-].
  apply strip_prefix_app in E. subst s. split.
  - destruct a; [done|]. simpl. lia.
  - rewrite take_app_length, !List.filter_app. cbn [List.filter].
    by rewrite (f_not_space SP eq_refl).
Qed.

Lemma tag_gap_filter (p : option char) s n r :
  Re.tag_gap p s = Some (n, r) ->
  (1 <= n)%nat /\ List.filter f r = List.filter f (take n s).
Proof.
  rewrite (blind_tag_gap p None). intros H.
  apply tag_gap_some in H as (t & k & u & -> & Hk & Hd & -> & ->).
  split; [lia|].
  replace (S k + 2)%nat with (S (S k + 1)) by lia. cbn [take].
  rewrite <- take_take_drop, Hd, <- Hk. cbn [take].
  change (62 :: take (span_len is_space t) t ++ 60 :: take 0 u)
    with ([62] ++ take (span_len is_space t) t ++ [60]).
  rewrite !List.filter_app, filter_span. cbn [List.filter app].
  by destruct (f 62).
Qed.

End Ink.

Lemma ink_not_space c : is_space c = true -> negb (is_space c) = false.
Proof. by intros ->. Qed.

Lemma sub_ink_sublist (m : Re.matcher str) s :
  (forall p u n r, m p u = Some (n, r) ->
     (1 <= n)%nat /\ sublist (ink r) (ink (take n u))) ->
  sublist (ink (Re.sub m s)) (ink s).
Proof.
  intros Hm.
  apply (ReFacts.sub_scan_filter m _ sublist) with (k := O); [| |exact Hm].
  - intros l. reflexivity.
  - intros a b c d. apply sublist_app.
Qed.

Lemma sub_filter_same (f : char -> bool) (m : Re.matcher str) s :
  (forall p u n r, m p u = Some (n, r) ->
     (1 <= n)%nat /\ List.filter f r = List.filter f (take n u)) ->
  List.filter f (Re.sub m s) = List.filter f s.
Proof.
  intros Hm.
  apply (ReFacts.sub_scan_filter m f eq (fun l => eq_refl)) with (k := O);
    [|exact Hm].
  by intros a b c d -> ->.
Qed.

Lemma same_is_sublist (u : str) n r :
  (1 <= n)%nat /\ ink r = ink (take n u) ->
  (1 <= n)%nat /\ sublist (ink r) (ink (take n u)).
Proof. intros [Hn ->]. by split. Qed.

Lemma delimited_deletes o c (p : option char) u n r :
  o <> [] -> Re.delimited o c p u = Some (n, r) ->
  (1 <= n)%nat /\ sublist (ink r) (ink (take n u)).
Proof.
  intros Ho. unfold Re.delimited. destruct (strip_prefix o u); [|done].
  destruct (Re.find _ _); [|done]. intros [= <- <-]. split.
  - destruct o; [done|]. simpl. lia.
  - apply sublist_nil_l.
Qed.

Lemma line_comment_deletes (p : option char) u n r :
  Re.line_comment p u = Some (n, r) ->
  (1 <= n)%nat /\ sublist (ink r) (ink (take n u)).
Proof.
  unfold Re.line_comment. destruct (strip_prefix (lit "//") u); [|done].
  intros [= <- <-]. split; [lia|apply sublist_nil_l].
Qed.

(** X2: for every input, the characters other than white space of the
    text [minify_css] returns, and of the text [minify_js] returns, are a
    subsequence of those of the input: apart from white space, the two
    minifiers only delete characters; they put in none and reorder
    none. *)
Theorem css_and_js_only_delete (wide : char -> bool) (x : str) :
  sublist (ink (minify_css x)) (ink x)
  /\ sublist (ink (minify_js wide x)) (ink x).
Proof.
  split.
  - unfold minify_css. unfold ink at 1. rewrite (filter_strip _ ink_not_space).
    fold (ink (Re.sub (Re.literal (lit ";}") (lit "}"))
                 (Re.sub (Re.padded "()")
                    (Re.sub (Re.padded "{}:;,>+~")
                       (Re.sub (Re.spaces [SP])
                          (Re.sub (Re.delimited (lit "/*") (lit "*/")) x)))))).
    etrans; [apply sub_ink_sublist|].
    { intros p u n r H. rewrite (blind_literal _ _ p None) in H.
      apply semi_brace_some in H as (rest & -> & -> & ->). split; [lia|].
      vm_compute. by apply sublist_cons. }
    etrans; [apply sub_ink_sublist|].
    { intros p u n r H. apply same_is_sublist.
      exact (padded_filter _ ink_not_space _ p u n r H). }
    etrans; [apply sub_ink_sublist|].
    { intros p u n r H. apply same_is_sublist.
      exact (padded_filter _ ink_not_space _ p u n r H). }
    etrans; [apply sub_ink_sublist|].
    { intros p u n r H. apply same_is_sublist.
      exact (spaces_filter _ ink_not_space p u n r H). }
    apply sub_ink_sublist. intros p u n r. by apply delimited_deletes.
  - unfold minify_js. unfold ink at 1. rewrite (filter_strip _ ink_not_space).
    etrans; [apply sub_ink_sublist|].
    { intros p u n r H. apply same_is_sublist.
      by apply (spaced_literal_filter _ ink_not_space [41] (lit "of[") p). }
    etrans; [apply sub_ink_sublist|].
    { intros p u n r H. apply same_is_sublist.
      by apply (spaced_literal_filter _ ink_not_space [41] (lit "of(") p). }
    etrans; [apply sub_ink_sublist|].
    { intros p u n r H. apply same_is_sublist.
      by apply (spaced_literal_filter _ ink_not_space [41] (lit "in[") p). }
    etrans; [apply sub_ink_sublist|].
    { intros p u n r H. apply same_is_sublist.
      by apply (spaced_literal_filter _ ink_not_space [41] (lit "in(") p). }
    etrans; [apply sub_ink_sublist|].
    { intros p u n r H. apply same_is_sublist.
      exact (space_before_keyword_filter _ ink_not_space _ _ p u n r H). }
    etrans; [apply sub_ink_sublist|].
    { intros p u n r H. apply same_is_sublist.
      exact (space_after_keyword_filter _ ink_not_space _ _ p u n r H). }
    etrans; [apply sub_ink_sublist|].
    { intros p u n r H. apply same_is_sublist.
      exact (padded_filter _ ink_not_space _ p u n r H). }
    etrans; [apply sub_ink_sublist|].
    { intros p u n r H. apply same_is_sublist.
      exact (spaces_filter _ ink_not_space p u n r H). }
    etrans; [apply sub_ink_sublist|].
    { intros p u n r. by apply delimited_deletes. }
    apply sub_ink_sublist. intros p u n r. apply line_comment_deletes.
Qed.

Lemma line_comment_same s :
  contains (lit "//") s = false -> Re.sub Re.line_comment s = s.
Proof.
  intros H. apply (sub_no_match _ blind_line_comment). intros i.
  pose proof (anywhere_false_drop _ i _ H) as Hu. unfold Re.line_comment.
  unfold starts_with in Hu. by destruct (strip_prefix (lit "//") (drop i s)).
Qed.

(** X16: on an input without "//" and without "/*", [minify_js] changes
    white space only: the characters other than white space of the output
    are those of the input, in the same order. *)
Theorem minify_js_changes_white_space_only (wide : char -> bool) (x : str) :
  contains (lit "//") x = false -> contains (lit "/*") x = false ->
  ink (minify_js wide x) = ink x.
Proof.
  intros Hline Hblock. unfold minify_js.
  rewrite (line_comment_same x Hline), (delimited_same _ _ x Hblock).
  unfold ink. rewrite (filter_strip _ ink_not_space).
  rewrite sub_filter_same
    by (intros p u n r;
        by apply (spaced_literal_filter _ ink_not_space [41] (lit "of[") p)).
  rewrite sub_filter_same
    by (intros p u n r;
        by apply (spaced_literal_filter _ ink_not_space [41] (lit "of(") p)).
  rewrite sub_filter_same
    by (intros p u n r;
        by apply (spaced_literal_filter _ ink_not_space [41] (lit "in[") p)).
  rewrite sub_filter_same
    by (intros p u n r;
        by apply (spaced_literal_filter _ ink_not_space [41] (lit "in(") p)).
  rewrite sub_filter_same
    by (intros p u n r; apply (space_before_keyword_filter _ ink_not_space)).
  rewrite sub_filter_same
    by (intros p u n r; apply (space_after_keyword_filter _ ink_not_space)).
  rewrite sub_filter_same
    by (intros p u n r; apply (padded_filter _ ink_not_space)).
  apply sub_filter_same. intros p u n r. apply (spaces_filter _ ink_not_space).
Qed.

Lemma minify_js_changes_white_space_only_witness :
  ink (minify_js ascii_only (lit "if ( a ) { return  b ; }"))
  = ink (lit "if ( a ) { return  b ; }").
Proof.
  exact (minify_js_changes_white_space_only ascii_only
           (lit "if ( a ) { return  b ; }") eq_refl eq_refl).
Defined.

Lemma filter_filter (f g : char -> bool) s :
  List.filter g (List.filter f s) = List.filter (fun c => f c && g c) s.
Proof.
  induction s as [|c t IH]; [reflexivity|]. cbn [List.filter].
  destruct (f c); cbn [List.filter andb]; by rewrite IH.
Qed.

(** X17: on an input without "/*", [minify_css] deletes white space and
    semicolons only: the characters other than white space and ";" of the
    output are those of the input, in the same order. *)
Theorem minify_css_deletes_white_space_and_semicolons_only (x : str) :
  contains (lit "/*") x = false ->
  List.filter (other_than 59) (ink (minify_css x))
  = List.filter (other_than 59) (ink x).
Proof.
  intros Hblock. unfold ink. rewrite !filter_filter.
  assert (forall c, is_space c = true ->
            negb (is_space c) && other_than 59 c = false) as Hf
    by (by intros c ->).
  unfold minify_css. rewrite (delimited_same _ _ x Hblock).
  rewrite (filter_strip _ Hf).
  rewrite sub_filter_same.
  2:{ intros p u n r H. rewrite (blind_literal _ _ p None) in H.
      apply semi_brace_some in H as (rest & -> & -> & ->).
      split; [lia|]. vm_compute. reflexivity. }
  rewrite sub_filter_same by (intros p u n r; apply (padded_filter _ Hf)).
  rewrite sub_filter_same by (intros p u n r; apply (padded_filter _ Hf)).
  apply sub_filter_same. intros p u n r. apply (spaces_filter _ Hf).
Qed.

Lemma minify_css_deletes_white_space_and_semicolons_only_witness :
  List.filter (other_than 59) (ink (minify_css (lit " a { color : red ; } ")))
  = List.filter (other_than 59) (ink (lit " a { color : red ; } ")).
Proof.
  exact (minify_css_deletes_white_space_and_semicolons_only
           (lit " a { color : red ; } ") eq_refl).
Defined.

(** X18: on a document without "<!--" in which no style and no script
    opening tag occurs (in any letter case), [minify_html] changes white
    space only: the characters other than white space of the output are
    those of the document, in the same order. *)
Theorem minify_html_changes_white_space_only (wide : char -> bool) (doc : str) :
  anywhere (Re.ci_starts_with (lit "<style")) doc = false ->
  anywhere (Re.ci_starts_with (lit "<script")) doc = false ->
  contains (lit "<!--") doc = false ->
  ink (minify_html wide doc) = ink doc.
Proof.
  intros Hstyle Hscript Hcomment.
  rewrite (minify_html_without_blocks wide doc Hstyle Hscript).
  rewrite (delimited_same _ _ doc Hcomment).
  unfold ink. rewrite (filter_strip _ ink_not_space).
  rewrite sub_filter_same
    by (intros p u n r; apply (tag_gap_filter _ ink_not_space)).
  apply sub_filter_same. intros p u n r. apply (spaces_filter _ ink_not_space).
Qed.

Lemma minify_html_changes_white_space_only_witness :
  ink (minify_html ascii_only (lit "<p> a </p>  <p> b </p>"))
  = ink (lit "<p> a </p>  <p> b </p>").
Proof.
  exact (minify_html_changes_white_space_only ascii_only
           (lit "<p> a </p>  <p> b </p>") eq_refl eq_refl eq_refl).
Defined.

(** * Pages with several blocks *)

(** ** A scan over a concatenation *)

Lemma sub_app_kept (m : Re.matcher str) (Hb : Re.blind m) a rest :
  (forall i, (i < length a)%nat -> m None (drop i a ++ rest) = None) ->
  Re.sub m (a ++ rest) = a ++ Re.sub m rest.
Proof.
  induction a as [|c t IH]; intros H; [reflexivity|].
  cbn [app]. rewrite (sub_cons m Hb).
  pose proof (H O ltac:(simpl; lia)) as H0. rewrite drop_0 in H0.
  cbn [app] in H0. rewrite H0. f_equal. apply IH.
  intros i Hi. apply (H (S i)). simpl. lia.
Qed.

Lemma sub_app_match (m : Re.matcher str) (Hb : Re.blind m) b rest r :
  b <> [] -> m None (b ++ rest) = Some (length b, r) ->
  Re.sub m (b ++ rest) = r ++ Re.sub m rest.
Proof.
  intros Hne Hm. destruct b as [|c b]; [done|]. cbn [app] in *.
  rewrite (sub_cons m Hb), Hm. cbn [length Nat.pred].
  by rewrite drop_app_length.
Qed.

(** The scan of a text followed by another, when every match that starts
    in the first is the match the first text alone gives. *)
Lemma sub_app_local (m : Re.matcher str) (Hb : Re.blind m) rest a :
  (forall i, (i < length a)%nat ->
     match m None (drop i a) with
     | Some (n, r) =>
         m None (drop i a ++ rest) = Some (n, r) /\ (n <= length a - i)%nat
     | None => m None (drop i a ++ rest) = None
     end) ->
  Re.sub m (a ++ rest) = Re.sub m a ++ Re.sub m rest.
Proof.
  induction a as [a IH] using length_ind. intros H.
  destruct a as [|c t]; [by rewrite sub_nil|].
  pose proof (H O ltac:(simpl; lia)) as H0. rewrite drop_0 in H0.
  cbn [app] in *. rewrite !(sub_cons m Hb).
  destruct (m None (c :: t)) as [[n r]|] eqn:E.
  - destruct H0 as [-> Hn]. rewrite <- app_assoc. f_equal.
    simpl in Hn. rewrite drop_app_le by lia.
    apply IH; [rewrite length_drop; simpl; lia|].
    intros i Hi. rewrite length_drop in Hi.
    specialize (H (S (Nat.pred n + i)) ltac:(simpl; lia)).
    cbn [drop] in H. rewrite <- !drop_drop in H.
    destruct (m None (drop i (drop (Nat.pred n) t))) as [[k u]|].
    + destruct H as [-> Hk]. split; [reflexivity|].
      rewrite length_drop. simpl in Hk. lia.
    + exact H.
  - rewrite H0. cbn [app]. f_equal. apply IH; [simpl; lia|].
    intros i Hi. specialize (H (S i) ltac:(simpl; lia)). cbn [drop] in H.
    destruct (m None (drop i t)) as [[k u]|].
    + destruct H as [-> Hk]. split; [reflexivity|]. simpl in Hk. lia.
    + exact H.
Qed.

Lemma pieces_app_kept {G : Type} (m : Re.matcher G) (Hb : Re.blind m) a rest :
  (forall i, (i < length a)%nat -> m None (drop i a ++ rest) = None) ->
  Re.pieces m (a ++ rest) = map Re.Kept a ++ Re.pieces m rest.
Proof.
  induction a as [|c t IH]; intros H; [reflexivity|].
  pose proof (H O ltac:(simpl; lia)) as H0. rewrite drop_0 in H0.
  unfold Re.pieces at 1. cbn [app Re.pieces_scan] in *. rewrite H0.
  cbn [map app]. f_equal. rewrite (pieces_scan_skip m Hb), drop_0.
  apply IH. intros i Hi. apply (H (S i)). simpl. lia.
Qed.

Lemma pieces_app_match {G : Type} (m : Re.matcher G) (Hb : Re.blind m)
    b rest g :
  b <> [] -> m None (b ++ rest) = Some (length b, g) ->
  Re.pieces m (b ++ rest) = Re.Found g :: Re.pieces m rest.
Proof.
  intros Hne Hm. destruct b as [|c b]; [done|].
  unfold Re.pieces at 1. cbn [app Re.pieces_scan] in *. rewrite Hm.
  f_equal. rewrite (pieces_scan_skip m Hb). cbn [length Nat.pred].
  by rewrite drop_app_length.
Qed.

Lemma fill_app {G : Type} (r : nat -> str) idx (a b : list (Re.piece G)) :
  Re.fill r idx (a ++ b)
  = Re.fill r idx a ++ Re.fill r (idx + length (Re.found a)) b.
Proof.
  revert idx. induction a as [|[c|g] a IH]; intros idx; cbn [app Re.fill Re.found].
  - by rewrite Nat.add_0_r.
  - by rewrite IH.
  - rewrite IH, <- app_assoc. cbn [length]. do 3 f_equal. lia.
Qed.

Lemma found_app {G : Type} (a b : list (Re.piece G)) :
  Re.found (a ++ b) = Re.found a ++ Re.found b.
Proof.
  induction a as [|[c|g] a IH]; cbn [app Re.found]; [done|done|].
  by rewrite IH.
Qed.

(** ** Placeholders *)

Lemma lit_cons a s : lit (String a s) = N_of_ascii a :: lit s.
Proof. reflexivity. Qed.

Lemma lit_inj s1 s2 : lit s1 = lit s2 -> s1 = s2.
Proof.
  revert s2. induction s1 as [|a s1 IH]; intros [|b s2]; try done.
  rewrite !lit_cons. intros [= Hab Hs]. f_equal; [|by apply IH].
  by rewrite <- (ascii_N_embedding a), <- (ascii_N_embedding b), Hab.
Qed.

Lemma to_uint_not_nil n : Nat.to_uint n <> Decimal.Nil.
Proof.
  rewrite <- (Unsigned.of_to n) at 1. rewrite Unsigned.to_of.
  apply unorm_nonnil.
Qed.

Lemma decimal_inj j k : decimal j = decimal k -> j = k.
Proof.
  unfold decimal. intros H. apply lit_inj in H.
  apply Unsigned.to_uint_inj.
  pose proof (NilZero.usu _ (to_uint_not_nil j)) as Hj.
  pose proof (NilZero.usu _ (to_uint_not_nil k)) as Hk.
  rewrite H in Hj. congruence.
Qed.

(** The decimal rendering of an index is a digit followed by digits. *)
Lemma decimal_digits n :
  exists d ds, decimal n = d :: ds
               /\ forallb (fun c => (48 <=? c) && (c <=? 57)) (d :: ds) = true.
Proof.
  unfold decimal. pose proof (to_uint_not_nil n) as Hn.
  assert (forall u, forallb (fun c => (48 <=? c) && (c <=? 57))
                      (lit (NilEmpty.string_of_uint u)) = true) as Hall.
  { induction u; cbn [NilEmpty.string_of_uint]; [reflexivity|..];
      rewrite lit_cons; cbn [forallb]; rewrite IHu; reflexivity. }
  destruct (Nat.to_uint n) as [|u|u|u|u|u|u|u|u|u|u] eqn:E; [done|..];
    cbn [NilZero.string_of_uint NilEmpty.string_of_uint];
    rewrite lit_cons; eexists _, _; (split; [reflexivity|]);
    cbn [forallb]; rewrite Hall; reflexivity.
Qed.

Lemma placeholder_shape script idx :
  exists d ds,
    placeholder script idx
    = (if script then lit "___SCRIPT_BLOCK_" else lit "___STYLE_BLOCK_")
      ++ (d :: ds) ++ lit "___"
    /\ decimal idx = d :: ds
    /\ forallb (fun c => (48 <=? c) && (c <=? 57)) (d :: ds) = true.
Proof.
  destruct (decimal_digits idx) as (d & ds & Hd & Hds). exists d, ds.
  split; [|done]. unfold placeholder, script_placeholder, style_placeholder.
  rewrite Hd. by destruct script.
Qed.

Lemma digits_keep (P : char -> bool) ds :
  (forall c, (48 <=? c) && (c <=? 57) = true -> P c = true) ->
  forallb (fun c => (48 <=? c) && (c <=? 57)) ds = true -> forallb P ds = true.
Proof.
  intros HP H. apply forallb_forall. intros c Hc. apply HP.
  exact (proj1 (forallb_forall _ _) H c Hc).
Qed.

(** What holds of "_", of the capital letters and of the digits holds of
    every character of a placeholder. *)
Lemma placeholder_chars (P : char -> bool) script idx :
  P 95 = true ->
  (forall c, (65 <=? c) && (c <=? 90) = true -> P c = true) ->
  (forall c, (48 <=? c) && (c <=? 57) = true -> P c = true) ->
  forallb P (placeholder script idx) = true.
Proof.
  intros Hu Hcap Hdig.
  destruct (placeholder_shape script idx) as (d & ds & -> & _ & Hds).
  rewrite !forallb_app, (digits_keep P _ Hdig Hds).
  assert (forall s, forallb (fun c => (c =? 95) || ((65 <=? c) && (c <=? 90)))
                      s = true -> forallb P s = true) as Hs.
  { intros s H. apply forallb_forall. intros c Hc.
    pose proof (proj1 (forallb_forall _ _) H c Hc) as Hc'.
    apply orb_true_iff in Hc' as [Hc'|Hc']; [|by apply Hcap].
    apply N.eqb_eq in Hc'. by subst c. }
  rewrite (Hs (lit "___") eq_refl).
  by destruct script; rewrite Hs.
Qed.

Lemma placeholder_not_empty script idx : placeholder script idx <> [].
Proof.
  destruct (placeholder_shape script idx) as (d & ds & -> & _). by destruct script.
Qed.

Lemma placeholder_head script idx : head (placeholder script idx) = Some 95.
Proof.
  destruct (placeholder_shape script idx) as (d & ds & -> & _). by destruct script.
Qed.

Lemma placeholder_no_lt script idx :
  forallb (other_than 60) (placeholder script idx) = true.
Proof.
  apply placeholder_chars; [reflexivity|..]; intros c Hc;
    apply andb_true_iff in Hc as [H1 H2]; apply N.leb_le in H1, H2;
    apply negb_true_iff, N.eqb_neq; lia.
Qed.

Lemma placeholder_solid script idx :
  forallb (fun c => negb (is_space c)) (placeholder script idx) = true.
Proof.
  apply placeholder_chars; [reflexivity|..]; intros c Hc;
    apply andb_true_iff in Hc as [H1 H2]; apply N.leb_le in H1, H2;
    apply negb_true_iff; unfold is_space;
    repeat (apply orb_false_iff; split);
    try (apply andb_false_iff;
         first [left; apply N.leb_gt; lia | right; apply N.leb_gt; lia]);
    apply N.eqb_neq; lia.
Qed.

(** ** Where an opening tag cannot start *)

Lemma no_straddle_at x q u v :
  Re.ci_starts_with q u = false -> head v = Some x ->
  forallb (fun h => negb (Re.ci_eq h x)) q = true ->
  Re.ci_starts_with q (u ++ v) = false.
Proof.
  unfold Re.ci_starts_with. revert u. induction q as [|a q IH]; intros u Hu Hv Hq.
  - by destruct u.
  - cbn [forallb] in Hq. apply andb_true_iff in Hq as [Ha Hq].
    destruct u as [|b u]; cbn [app Re.ci_strip_prefix] in *.
    + destruct v as [|y v]; [done|]. cbn [head] in Hv. injection Hv as ->.
      by destruct (Re.ci_eq a x).
    + destruct (Re.ci_eq a b); [|done]. by apply IH.
Qed.

Lemma drop_not_nil {A : Type} i (t : list A) :
  (i < length t)%nat -> exists b u, drop i t = b :: u.
Proof.
  intros Hi. destruct (drop i t) as [|b u] eqn:E; [|by eexists _, _].
  apply (f_equal length) in E. rewrite length_drop in E. simpl in E. lia.
Qed.

(** No opening tag starts in a text that holds none, when what follows
    cannot complete one. *)
Lemma quiet_text q x t rest :
  anywhere (Re.ci_starts_with (60 :: q)) t = false ->
  rest = [] \/ (head rest = Some x
                /\ forallb (fun h => negb (Re.ci_eq h x)) q = true) ->
  forall i, (i < length t)%nat ->
    Re.ci_starts_with (60 :: q) (drop i t ++ rest) = false.
Proof.
  intros Ht Hrest i Hi. pose proof (anywhere_false_drop _ i _ Ht) as Hu.
  destruct Hrest as [->|[Hx Hq]]; [by rewrite app_nil_r|].
  destruct (drop_not_nil i t Hi) as (b & u & E). rewrite E in *.
  unfold Re.ci_starts_with in *. cbn [app Re.ci_strip_prefix] in *.
  destruct (Re.ci_eq 60 b); [|done]. by apply (no_straddle_at x).
Qed.

Lemma quiet_app (P : str -> bool) a b rest :
  (forall i, (i < length a)%nat -> P (drop i a ++ b ++ rest) = false) ->
  (forall i, (i < length b)%nat -> P (drop i b ++ rest) = false) ->
  forall i, (i < length (a ++ b))%nat -> P (drop i (a ++ b) ++ rest) = false.
Proof.
  intros Ha Hb i Hi. rewrite length_app in Hi.
  destruct (decide (i < length a)%nat) as [Hlt|Hge].
  - rewrite drop_app_le by lia. rewrite <- app_assoc. by apply Ha.
  - rewrite drop_app_ge by lia. apply Hb. lia.
Qed.

Lemma quiet_no_lt q a rest :
  forallb (other_than 60) a = true ->
  forall i, (i < length a)%nat ->
    Re.ci_starts_with (60 :: q) (drop i a ++ rest) = false.
Proof.
  intros Ha i Hi.
  destruct (drop_head_ok (other_than 60) a rest i Hi Ha) as (c & t & -> & Hc).
  unfold Re.ci_starts_with. cbn [Re.ci_strip_prefix].
  rewrite (ci_eq_uncased 60 c eq_refl). unfold other_than in Hc.
  rewrite N.eqb_sym. by destruct (c =? 60).
Qed.

(** A text that starts with "<" and holds no other: no opening tag starts
    in it when none starts at its "<". *)
Lemma quiet_tag q o rest :
  forallb (other_than 60) o = true ->
  Re.ci_starts_with (60 :: q) ((60 :: o) ++ rest) = false ->
  forall i, (i < length (60%N :: o))%nat ->
    Re.ci_starts_with (60 :: q) (drop i (60 :: o) ++ rest) = false.
Proof.
  intros Ho H0 [|i] Hi; [exact H0|]. cbn [drop].
  apply quiet_no_lt; [exact Ho|]. simpl in Hi. lia.
Qed.

Lemma ci_eq_letter p c :
  Re.ci_eq p c = true ->
  c = p
  \/ (Re.is_lower_letter p = true
      /\ (c = p - 32 \/ c = 304 \/ c = 305 \/ c = 383 \/ c = 8490)).
Proof.
  unfold Re.ci_eq. intros H.
  apply orb_true_iff in H as [H|H]; [apply N.eqb_eq in H; by left|].
  apply andb_true_iff in H as [Hl H]. right. split; [exact Hl|].
  repeat first [apply orb_true_iff in H as [H|H]
               |apply andb_true_iff in H as [_ H]];
    apply N.eqb_eq in H; tauto.
Qed.

Lemma ci_eq_not_lt a b : Re.ci_eq a b = true -> b = 60 -> a = 60.
Proof.
  intros H Hb. destruct (ci_eq_letter a b H) as [E|[Hl E]]; [congruence|].
  unfold Re.is_lower_letter in Hl. apply andb_true_iff in Hl as [H1 H2].
  apply N.leb_le in H1, H2. lia.
Qed.

Lemma ci_tail_no_lt p o :
  Re.ci_strip_prefix p o = Some [] ->
  forallb (other_than 60) p = true -> forallb (other_than 60) o = true.
Proof.
  revert o. induction p as [|a p IH]; intros o H Hp.
  - cbn in H. by injection H as ->.
  - destruct o as [|b o]; [done|]. cbn [Re.ci_strip_prefix forallb] in *.
    apply andb_true_iff in Hp as [Ha Hp].
    destruct (Re.ci_eq a b) eqn:E; [|done]. rewrite (IH o H Hp), andb_true_r.
    unfold other_than in *. destruct (b =? 60) eqn:Hb; [|reflexivity].
    apply N.eqb_eq in Hb. rewrite (ci_eq_not_lt a b E Hb) in Ha. done.
Qed.

Lemma is_tag_strip p o : is_tag p o = true -> Re.ci_strip_prefix p o = Some [].
Proof.
  unfold is_tag. by destruct (Re.ci_strip_prefix p o) as [[|? ?]|].
Qed.

(** A tag in some letter case is "<" followed by characters other than
    "<". *)
Lemma is_tag_shape p o :
  is_tag (60 :: p) o = true -> forallb (other_than 60) p = true ->
  exists o', o = 60 :: o' /\ forallb (other_than 60) o' = true
             /\ Re.ci_strip_prefix p o' = Some [].
Proof.
  intros H Hp. apply is_tag_strip in H. destruct o as [|b o]; [done|].
  cbn [Re.ci_strip_prefix] in H. rewrite (ci_eq_uncased 60 b eq_refl) in H.
  destruct (60 =? b) eqn:E; [|done]. apply N.eqb_eq in E. subst b.
  exists o. split; [reflexivity|]. split; [|exact H].
  by apply (ci_tail_no_lt p).
Qed.

(** The opening tag of a script block is not the opening tag of a style
    block, and a closing tag is no opening tag. *)
Lemma script_opening_is_not_style o rest :
  is_tag (lit "<script") o = true ->
  Re.ci_starts_with (lit "<style") (o ++ rest) = false.
Proof.
  intros H. apply is_tag_strip in H.
  change (lit "<script") with (60 :: 115 :: 99 :: lit "ript") in H.
  change (lit "<style") with (60 :: 115 :: 116 :: lit "yle").
  unfold Re.ci_starts_with.
  destruct o as [|c0 [|c1 [|c2 o]]]; cbn [app Re.ci_strip_prefix] in *;
    [done| | |].
  { by destruct (Re.ci_eq 60 c0). }
  { destruct (Re.ci_eq 60 c0); [|done]. by destruct (Re.ci_eq 115 c1). }
  destruct (Re.ci_eq 60 c0); [|done]. destruct (Re.ci_eq 115 c1); [|done].
  destruct (Re.ci_eq 99 c2) eqn:E; [|done].
  assert (Re.ci_eq 116 c2 = false) as ->; [|done].
  destruct (ci_eq_letter 99 c2 E) as [->|[_ [->|[->|[->|[->| ->]]]]]];
    vm_compute; reflexivity.
Qed.

Lemma closing_is_not_opening a q p cl rest :
  is_tag (60 :: 47 :: p) cl = true -> Re.ci_eq a 47 = false ->
  Re.ci_starts_with (60 :: a :: q) (cl ++ rest) = false.
Proof.
  intros H Ha. apply is_tag_strip in H.
  destruct cl as [|c0 [|c1 cl]]; cbn [Re.ci_strip_prefix] in H; [done| |].
  { by destruct (Re.ci_eq 60 c0). }
  rewrite (ci_eq_uncased 60 c0 eq_refl), (ci_eq_uncased 47 c1 eq_refl) in H.
  destruct (60 =? c0) eqn:E0; [|done]. destruct (47 =? c1) eqn:E1; [|done].
  apply N.eqb_eq in E0, E1. subst c0 c1.
  unfold Re.ci_starts_with. cbn [app Re.ci_strip_prefix]. rewrite Ha.
  by destruct (Re.ci_eq 60 60).
Qed.

Lemma tag_free_spec tag s :
  tag_free tag s = true ->
  anywhere (Re.ci_starts_with (60 :: lit tag)) s = false.
Proof. unfold tag_free. intros H. by apply negb_true_iff in H. Qed.

(** No style opening tag starts inside a script block that holds none in
    its attribute text and content, whatever follows the block. *)
Lemma script_block_quiet o a c cl rest :
  well_formed (ScriptBlock o a c cl) = true ->
  forall i, (i < length (source (ScriptBlock o a c cl)))%nat ->
    Re.ci_starts_with (lit "<style")
      (drop i (source (ScriptBlock o a c cl)) ++ rest) = false.
Proof.
  cbn [well_formed source]. intros H.
  repeat (apply andb_true_iff in H as [H ?]).
  destruct (is_tag_shape (lit "script") o H eq_refl) as (o' & -> & Ho' & _).
  match goal with
  | Hcl : is_tag (lit "</script>") cl = true |- _ =>
      destruct (is_tag_shape (lit "/script>") cl Hcl eq_refl)
        as (cl' & Hcleq & Hcl' & _);
      pose proof (closing_is_not_opening 115 (lit "tyle") (lit "script>") cl
                    rest Hcl eq_refl) as Hclose
  end.
  change (lit "<style") with (60 :: lit "style").
  apply quiet_app.
  { apply quiet_tag; [exact Ho'|].
    rewrite <- app_assoc. by apply script_opening_is_not_style. }
  apply quiet_app.
  { apply (quiet_text _ 62); [by apply tag_free_spec|]. right. by split. }
  change (62 :: c ++ cl) with ([62] ++ c ++ cl).
  apply quiet_app; [by apply quiet_no_lt|].
  apply quiet_app.
  { apply (quiet_text _ 60); [by apply tag_free_spec|]. right.
    subst cl. by split. }
  subst cl. by apply quiet_tag.
Qed.

(** ** What the two scans find in a page *)

Lemma source_head b : well_formed b = true -> head (source b) = Some 60.
Proof.
  destruct b as [o a c cl|o a c cl]; cbn [well_formed source]; intros H;
    repeat (apply andb_true_iff in H as [H ?]).
  - by destruct (is_tag_shape (lit "style") o H eq_refl) as (o' & -> & _).
  - by destruct (is_tag_shape (lit "script") o H eq_refl) as (o' & -> & _).
Qed.

Lemma regular_cons b t r :
  regular ((b, t) :: r) = true ->
  well_formed b = true /\ markup_text t = true /\ regular r = true.
Proof.
  unfold regular. cbn [forallb fst snd]. intros H.
  apply andb_true_iff in H as [H Hr]. by apply andb_true_iff in H as [Hb Ht].
Qed.

Lemma markup_text_spec t :
  markup_text t = true ->
  anywhere (Re.ci_starts_with (60 :: lit "style")) t = false
  /\ anywhere (Re.ci_starts_with (60 :: lit "script")) t = false
  /\ comments_closed t = true.
Proof.
  unfold markup_text. intros H. apply andb_true_iff in H as [H Hc].
  apply andb_true_iff in H as [H1 H2]. by repeat split; [apply tag_free_spec..|].
Qed.

Lemma laid_source_head rest a b :
  regular rest = true ->
  laid (fun _ _ => source) (fun t => t) a b rest = []
  \/ head (laid (fun _ _ => source) (fun t => t) a b rest) = Some 60.
Proof.
  destruct rest as [|[x t] r]; [by left|]. intros H.
  apply regular_cons in H as (Hx & _ & _). right. cbn [laid].
  pose proof (source_head x Hx) as Hh. by destruct (source x).
Qed.

Lemma style_block_matches o a c cl rest :
  well_formed (StyleBlock o a c cl) = true ->
  style_pattern None (source (StyleBlock o a c cl) ++ rest)
  = Some (length (source (StyleBlock o a c cl)), c).
Proof.
  cbn [well_formed source]. intros H.
  repeat (apply andb_true_iff in H as [H ?]).
  unfold style_pattern. rewrite <- !app_assoc. cbn [app].
  rewrite <- !app_assoc.
  rewrite (block_at "style" None o a c cl rest); [reflexivity|..];
    [by apply is_tag_strip|done|by apply is_tag_strip| |reflexivity].
  by apply negb_true_iff.
Qed.

Lemma script_block_matches o a c cl rest :
  well_formed (ScriptBlock o a c cl) = true ->
  script_pattern None (source (ScriptBlock o a c cl) ++ rest)
  = Some (length (source (ScriptBlock o a c cl)), (a, c)).
Proof.
  cbn [well_formed source]. intros H.
  repeat (apply andb_true_iff in H as [H ?]).
  unfold script_pattern. rewrite <- !app_assoc. cbn [app].
  rewrite <- !app_assoc.
  rewrite (block_at "script" None o a c cl rest); [reflexivity|..];
    [by apply is_tag_strip|done|by apply is_tag_strip| |reflexivity].
  by apply negb_true_iff.
Qed.

Lemma source_not_nil b : well_formed b = true -> source b <> [].
Proof. intros H. pose proof (source_head b H). by destruct (source b). Qed.

(** The style scan of line 72. *)
Lemma style_scan rest :
  regular rest = true ->
  forall a b ns nc,
    Re.fill style_placeholder ns
      (Re.pieces style_pattern (laid (fun _ _ => source) (fun t => t) a b rest))
    = laid half (fun t => t) ns nc rest
    /\ Re.found
         (Re.pieces style_pattern (laid (fun _ _ => source) (fun t => t) a b rest))
       = style_contents rest.
Proof.
  induction rest as [|[x t] r IH]; intros Hreg a b ns nc; [done|].
  apply regular_cons in Hreg as (Hx & Ht & Hr).
  apply markup_text_spec in Ht as (Hstyle & _ & _).
  cbn [laid]. set (a' := if is_script x then a else S a).
  set (b' := if is_script x then S b else b).
  assert (Re.pieces style_pattern
            (t ++ laid (fun _ _ => source) (fun t => t) a' b' r)
          = map Re.Kept t
            ++ Re.pieces style_pattern
                 (laid (fun _ _ => source) (fun t => t) a' b' r)) as Htext.
  { apply (pieces_app_kept _ blind_style_pattern). intros i Hi.
    unfold style_pattern. rewrite block_needs_opening; [done|].
    apply (quiet_text (lit "style") 60); [exact Hstyle| |exact Hi].
    destruct (laid_source_head r a' b' Hr) as [->|Hh]; [by left|by right]. }
  destruct x as [o at_ c cl|o at_ c cl].
  - rewrite (pieces_app_match _ blind_style_pattern _ _ c
               (source_not_nil _ Hx) (style_block_matches o at_ c cl _ Hx)).
    rewrite Htext. cbn [Re.fill Re.found]. rewrite fill_app, found_app.
    destruct (fill_kept (G := str) style_placeholder (S ns) t) as [-> ->].
    cbn [length app]. rewrite Nat.add_0_r.
    destruct (IH Hr a' b' (S ns) nc) as [-> ->]. done.
  - rewrite (pieces_app_kept _ blind_style_pattern).
    2:{ intros i Hi. unfold style_pattern. rewrite block_needs_opening; [done|].
        by apply script_block_quiet. }
    rewrite Htext. rewrite !fill_app, !found_app.
    destruct (fill_kept (G := str) style_placeholder ns
                (source (ScriptBlock o at_ c cl))) as [-> ->].
    cbn [length app]. rewrite Nat.add_0_r.
    destruct (fill_kept (G := str) style_placeholder ns t) as [-> ->].
    cbn [length app]. rewrite Nat.add_0_r.
    destruct (IH Hr a' b' ns (S nc)) as [-> ->]. done.
Qed.

Lemma half_head rest ns nc :
  regular rest = true ->
  laid half (fun t => t) ns nc rest = []
  \/ head (laid half (fun t => t) ns nc rest) = Some 60
  \/ head (laid half (fun t => t) ns nc rest) = Some 95.
Proof.
  destruct rest as [|[x t] r]; [by left|]. intros H.
  apply regular_cons in H as (Hx & _ & _). right. cbn [laid]. unfold half.
  destruct (is_script x).
  - left. pose proof (source_head x Hx) as Hh. by destruct (source x).
  - right. pose proof (placeholder_head false ns) as Hh.
    cbn [placeholder] in Hh. by destruct (style_placeholder ns).
Qed.

(** The script scan of line 90, on the text the style scan leaves. *)
Lemma script_scan rest :
  regular rest = true ->
  forall ns nc,
    Re.fill script_placeholder nc
      (Re.pieces script_pattern (laid half (fun t => t) ns nc rest))
    = laid hole (fun t => t) ns nc rest
    /\ Re.found (Re.pieces script_pattern (laid half (fun t => t) ns nc rest))
       = script_groups rest.
Proof.
  induction rest as [|[x t] r IH]; intros Hreg ns nc; [done|].
  apply regular_cons in Hreg as (Hx & Ht & Hr).
  apply markup_text_spec in Ht as (_ & Hscript & _).
  cbn [laid]. set (ns' := if is_script x then ns else S ns).
  set (nc' := if is_script x then S nc else nc).
  assert (Re.pieces script_pattern (t ++ laid half (fun t => t) ns' nc' r)
          = map Re.Kept t
            ++ Re.pieces script_pattern (laid half (fun t => t) ns' nc' r))
    as Htext.
  { apply (pieces_app_kept _ blind_script_pattern). intros i Hi.
    unfold script_pattern. rewrite block_needs_opening; [done|].
    destruct (half_head r ns' nc' Hr) as [->|[Hh|Hh]].
    - apply (quiet_text (lit "script") 60); [exact Hscript|by left|exact Hi].
    - apply (quiet_text (lit "script") 60); [exact Hscript|by right|exact Hi].
    - apply (quiet_text (lit "script") 95); [exact Hscript|by right|exact Hi]. }
  destruct x as [o at_ c cl|o at_ c cl]; subst ns' nc'; cbn [is_script] in *.
  - change (half ns nc (StyleBlock o at_ c cl)) with (style_placeholder ns).
    change (hole ns nc (StyleBlock o at_ c cl)) with (style_placeholder ns).
    rewrite (pieces_app_kept _ blind_script_pattern).
    2:{ intros i Hi. unfold script_pattern. rewrite block_needs_opening; [done|].
        apply quiet_no_lt; [apply (placeholder_no_lt false)|exact Hi]. }
    rewrite Htext. rewrite !fill_app, !found_app.
    destruct (fill_kept (G := str * str) script_placeholder nc
                (style_placeholder ns)) as [-> ->].
    cbn [length app]. rewrite Nat.add_0_r.
    destruct (fill_kept (G := str * str) script_placeholder nc t) as [-> ->].
    cbn [length app placeholder]. rewrite Nat.add_0_r.
    destruct (IH Hr (S ns) nc) as [-> ->]. done.
  - change (half ns nc (ScriptBlock o at_ c cl))
      with (source (ScriptBlock o at_ c cl)).
    change (hole ns nc (ScriptBlock o at_ c cl)) with (script_placeholder nc).
    rewrite (pieces_app_match _ blind_script_pattern _ _ (at_, c)
               (source_not_nil _ Hx) (script_block_matches o at_ c cl _ Hx)).
    rewrite Htext. cbn [Re.fill Re.found]. rewrite fill_app, found_app.
    destruct (fill_kept (G := str * str) script_placeholder (S nc) t) as [-> ->].
    cbn [length app placeholder]. rewrite Nat.add_0_r.
    destruct (IH Hr ns (S nc)) as [-> ->]. done.
Qed.

(** ** The markup steps on a text with placeholders *)

Lemma starts_with_no_straddle x q u v :
  starts_with q u = false -> head v = Some x ->
  forallb (other_than x) q = true -> starts_with q (u ++ v) = false.
Proof.
  unfold starts_with. revert u. induction q as [|a q IH]; intros u Hu Hv Hq.
  - by destruct u.
  - cbn [forallb] in Hq. apply andb_true_iff in Hq as [Ha Hq].
    destruct u as [|b u]; cbn [app strip_prefix] in *.
    + destruct v as [|y v]; [done|]. cbn [head] in Hv. injection Hv as ->.
      unfold other_than in Ha. apply negb_true_iff in Ha. by rewrite Ha.
    + destruct (a =? b); [|done]. by apply IH.
Qed.

Lemma strip_prefix_of_app q t : strip_prefix q (q ++ t) = Some t.
Proof. induction q as [|a q IH]; [reflexivity|]. simpl. by rewrite N.eqb_refl. Qed.

Lemma starts_with_app q u v :
  starts_with q u = true -> starts_with q (u ++ v) = true.
Proof.
  unfold starts_with. destruct (strip_prefix q u) as [w|] eqn:E; [|done].
  intros _. apply strip_prefix_app in E. subst u.
  by rewrite <- app_assoc, strip_prefix_of_app.
Qed.

Lemma starts_with_length q u : starts_with q u = true -> (length q <= length u)%nat.
Proof.
  unfold starts_with. destruct (strip_prefix q u) as [w|] eqn:E; [|done].
  intros _. apply strip_prefix_app in E. subst u. rewrite length_app. lia.
Qed.

Lemma find_some stop w k :
  Re.find stop w = Some k -> stop (drop k w) = true /\ (k <= length w)%nat.
Proof.
  revert k. induction w as [|c w IH]; intros k; cbn [Re.find].
  - destruct (stop []) eqn:E; [|done]. intros [= <-]. by rewrite drop_0.
  - destruct (stop (c :: w)) eqn:E.
    + intros [= <-]. rewrite drop_0. split; [done|lia].
    + destruct (Re.find stop w) as [j|]; [|done]. intros [= <-].
      destruct (IH j eq_refl) as [H1 H2]. split; [exact H1|simpl; lia].
Qed.

Lemma find_app_same stop w r k :
  (forall u, stop u = true -> stop (u ++ r) = true) ->
  (forall u, stop u = false -> stop (u ++ r) = false) ->
  Re.find stop w = Some k -> Re.find stop (w ++ r) = Some k.
Proof.
  intros Hyes Hno. revert k. induction w as [|c w IH]; intros k; cbn [Re.find].
  - destruct (stop []) eqn:E; [|done]. intros [= <-].
    pose proof (Hyes [] E) as H. cbn [app] in H.
    destruct r; cbn [app Re.find]; by rewrite H.
  - destruct (stop (c :: w)) eqn:E.
    + intros [= <-]. pose proof (Hyes _ E) as H. cbn [app] in H.
      cbn [app Re.find]. by rewrite H.
    + destruct (Re.find stop w) as [j|] eqn:Ej; [|done]. intros [= <-].
      pose proof (Hno _ E) as H. cbn [app] in H.
      cbn [app Re.find]. rewrite H. by rewrite (IH j eq_refl).
Qed.

Lemma comments_closed_at t i w :
  comments_closed t = true ->
  strip_prefix (lit "<!--") (drop i t) = Some w ->
  exists k, Re.find (starts_with (lit "-->")) w = Some k.
Proof.
  unfold comments_closed. intros H Hw. apply negb_true_iff in H.
  pose proof (anywhere_false_drop _ i _ H) as Hi. cbv beta in Hi.
  unfold starts_with, comment_tail in Hi. rewrite Hw in Hi.
  cbn [andb] in Hi. apply negb_false_iff in Hi. unfold contains in Hi.
  destruct (Re.find (starts_with (lit "-->")) w) as [k|] eqn:E; [by exists k|].
  apply find_none in E. congruence.
Qed.

(** A comment that starts in a text whose comments are closed is the same
    comment when a text follows that does not start with "!", "-" or
    ">". *)
Lemma comment_local x t rest i :
  comments_closed t = true ->
  rest = [] \/ (head rest = Some x /\ forallb (other_than x) (lit "<!-->") = true) ->
  (i < length t)%nat ->
  match Re.delimited (lit "<!--") (lit "-->") None (drop i t) with
  | Some (n, r) =>
      Re.delimited (lit "<!--") (lit "-->") None (drop i t ++ rest) = Some (n, r)
      /\ (n <= length t - i)%nat
  | None => Re.delimited (lit "<!--") (lit "-->") None (drop i t ++ rest) = None
  end.
Proof.
  intros Hclosed Hrest Hi.
  destruct Hrest as [->|[Hx Hq]].
  { rewrite app_nil_r.
    destruct (Re.delimited _ _ None (drop i t)) as [[n r]|] eqn:E; [|done].
    split; [done|]. unfold Re.delimited in E.
    destruct (strip_prefix (lit "<!--") (drop i t)) as [w|] eqn:Ew; [|done].
    destruct (Re.find _ w) as [k|] eqn:Ek; [|done]. injection E as <- <-.
    apply strip_prefix_app in Ew. apply (f_equal length) in Ew.
    rewrite length_drop, length_app in Ew.
    destruct (find_some _ _ _ Ek) as [Hs Hk]. apply starts_with_length in Hs.
    rewrite length_drop in Hs.
    change (length (lit "<!--")) with 4%nat in *.
    change (length (lit "-->")) with 3%nat in *. lia. }
  assert (forallb (other_than x) (lit "-->") = true
          /\ forallb (other_than x) (lit "<!--") = true) as [Hc Ho].
  { change (lit "<!-->") with [60; 33; 45; 45; 62] in Hq.
    change (lit "-->") with [45; 45; 62]. change (lit "<!--") with [60; 33; 45; 45].
    cbn [forallb] in *.
    by destruct (other_than x 60), (other_than x 33), (other_than x 45),
      (other_than x 62). }
  unfold Re.delimited.
  destruct (strip_prefix (lit "<!--") (drop i t)) as [w|] eqn:Ew.
  - destruct (comments_closed_at t i w Hclosed Ew) as [k Ek]. rewrite Ek.
    pose proof Ew as Ew'. apply strip_prefix_app in Ew'. rewrite Ew'.
    rewrite <- app_assoc, strip_prefix_of_app.
    rewrite (find_app_same _ w rest k); [| | |exact Ek].
    + split; [reflexivity|]. apply (f_equal length) in Ew'.
      rewrite length_drop, length_app in Ew'.
      destruct (find_some _ _ _ Ek) as [Hs Hk]. apply starts_with_length in Hs.
      rewrite length_drop in Hs.
    change (length (lit "<!--")) with 4%nat in *.
    change (length (lit "-->")) with 3%nat in *. lia.
    + intros u. apply starts_with_app.
    + intros u Hu. by apply (starts_with_no_straddle x).
  - assert (starts_with (lit "<!--") (drop i t ++ rest) = false) as H.
    { apply (starts_with_no_straddle x); [by unfold starts_with; rewrite Ew|exact Hx|exact Ho]. }
    unfold starts_with in H.
    by destruct (strip_prefix (lit "<!--") (drop i t ++ rest)).
Qed.

(** A gap between tags that starts in a text is the same gap when a text
    follows that starts with neither white space nor "<". *)
Lemma tag_gap_local t rest i :
  rest = [] \/ head rest = Some 95 ->
  (i < length t)%nat ->
  match Re.tag_gap None (drop i t) with
  | Some (n, r) =>
      Re.tag_gap None (drop i t ++ rest) = Some (n, r) /\ (n <= length t - i)%nat
  | None => Re.tag_gap None (drop i t ++ rest) = None
  end.
Proof.
  intros Hrest Hi. rewrite <- (length_drop t i).
  assert (drop i t <> []) as Hne.
  { intros E. apply (f_equal length) in E. rewrite length_drop in E. simpl in E. lia. }
  destruct (drop i t) as [|c u]; [done|]. clear Hne Hi.
  assert (head_space rest = false) as Hsp.
  { destruct Hrest as [->|H]; [done|]. destruct rest as [|x rest]; [done|].
    cbn [head] in H. by injection H as ->. }
  unfold Re.tag_gap. cbn [app]. destruct (c =? 62); [|done].
  rewrite (span_len_app _ _ Hsp).
  pose proof (span_len_le is_space u) as Hle.
  destruct (span_len is_space u) as [|k]; [done|].
  rewrite drop_app_le by lia.
  destruct (drop (S k) u) as [|b v] eqn:E.
  - cbn [app]. destruct Hrest as [->|H]; [done|].
    destruct rest as [|x rest]; [done|]. cbn [head] in H. by injection H as ->.
  - cbn [app]. destruct (b =? 60); [|done]. split; [done|].
    apply (f_equal length) in E. rewrite length_drop in E. simpl in *. lia.
Qed.

Lemma hole_is_placeholder ns nc b :
  exists script idx, hole ns nc b = placeholder script idx.
Proof. unfold hole. by eexists _, _. Qed.

Lemma laid_hole_head g ns nc rest :
  laid hole g ns nc rest = [] \/ head (laid hole g ns nc rest) = Some 95.
Proof.
  destruct rest as [|[b t] r]; [by left|]. right. cbn [laid].
  destruct (hole_is_placeholder ns nc b) as (k & j & ->).
  pose proof (placeholder_head k j) as H. by destruct (placeholder k j).
Qed.

(** A substitution that leaves the placeholders alone and does not look
    past the end of a text acts on each text between the placeholders. *)
Lemma sub_laid (m : Re.matcher str) (good : str -> bool) (g : str -> str) :
  (forall script idx y,
     Re.sub m (placeholder script idx ++ y) = placeholder script idx ++ Re.sub m y) ->
  (forall x y, good x = true -> y = [] \/ head y = Some 95 ->
     Re.sub m (x ++ y) = Re.sub m x ++ Re.sub m y) ->
  forall rest ns nc,
    forallb (fun bt : block * str => good (g (snd bt))) rest = true ->
    Re.sub m (laid hole g ns nc rest)
    = laid hole (fun t => Re.sub m (g t)) ns nc rest.
Proof.
  intros Hhole Htext. induction rest as [|[b t] r IH]; intros ns nc Hgood.
  - apply ReFacts.sub_nil.
  - cbn [forallb snd] in Hgood. apply andb_true_iff in Hgood as [Ht Hr].
    cbn [laid]. destruct (hole_is_placeholder ns nc b) as (k & j & ->).
    rewrite Hhole, (Htext _ _ Ht (laid_hole_head _ _ _ _)). by rewrite (IH _ _ Hr).
Qed.

Lemma comments_keep_placeholder script idx y :
  Re.sub (Re.delimited (lit "<!--") (lit "-->")) (placeholder script idx ++ y)
  = placeholder script idx ++ Re.sub (Re.delimited (lit "<!--") (lit "-->")) y.
Proof.
  apply (sub_app_kept _ (ReFacts.blind_delimited _ _)). intros i Hi.
  pose proof (placeholder_no_lt script idx) as H.
  rewrite <- (take_drop i (placeholder script idx)), forallb_app in H.
  apply andb_true_iff in H as [_ H].
  destruct (drop i (placeholder script idx)) as [|c u] eqn:E.
  { apply (f_equal length) in E. rewrite length_drop in E. simpl in E. lia. }
  cbn [forallb] in H. apply andb_true_iff in H as [Hc _].
  unfold other_than in Hc. apply negb_true_iff in Hc.
  unfold Re.delimited. change (lit "<!--") with (60 :: lit "!--").
  cbn [app strip_prefix]. rewrite N.eqb_sym. by rewrite Hc.
Qed.

Lemma tag_gap_keeps_placeholder script idx y :
  Re.sub Re.tag_gap (placeholder script idx ++ y)
  = placeholder script idx ++ Re.sub Re.tag_gap y.
Proof.
  apply (sub_app_kept _ ReFacts.blind_tag_gap). intros i Hi.
  assert (forallb (other_than 62) (placeholder script idx) = true) as H.
  { apply placeholder_chars; [done| |]; intros c Hc; unfold other_than;
      apply andb_true_iff in Hc as [H1 H2]; apply negb_true_iff;
      apply N.leb_le in H1, H2; apply N.eqb_neq; lia. }
  rewrite <- (take_drop i (placeholder script idx)), forallb_app in H.
  apply andb_true_iff in H as [_ H].
  destruct (drop i (placeholder script idx)) as [|c u] eqn:E.
  { apply (f_equal length) in E. rewrite length_drop in E. simpl in E. lia. }
  cbn [forallb] in H. apply andb_true_iff in H as [Hc _].
  unfold other_than in Hc. apply negb_true_iff in Hc.
  unfold Re.tag_gap. cbn [app]. by rewrite Hc.
Qed.

(** The three markup steps of lines 93-102 on the working text: each text
    between the placeholders is rewritten on its own. *)
Lemma markup_laid t0 rest ns nc :
  comments_closed t0 = true ->
  forallb (fun bt : block * str => comments_closed (snd bt)) rest = true ->
  Re.sub Re.tag_gap
    (Re.sub (Re.spaces [SP])
       (Re.sub (Re.delimited (lit "<!--") (lit "-->"))
          (t0 ++ laid hole (fun t => t) ns nc rest)))
  = markup t0 ++ laid hole markup ns nc rest.
Proof.
  intros H0 Hrest.
  assert (forall x y, comments_closed x = true -> y = [] \/ head y = Some 95 ->
            Re.sub (Re.delimited (lit "<!--") (lit "-->")) (x ++ y)
            = Re.sub (Re.delimited (lit "<!--") (lit "-->")) x
              ++ Re.sub (Re.delimited (lit "<!--") (lit "-->")) y) as HU.
  { intros x y Hx Hy. apply (sub_app_local _ (ReFacts.blind_delimited _ _)).
    intros i Hi. apply (comment_local 95); [exact Hx| |exact Hi].
    destruct Hy as [->|Hy]; [by left|]. right. split; [exact Hy|by vm_compute]. }
  assert (forall x y, true = true -> y = [] \/ head y = Some 95 ->
            Re.sub (Re.spaces [SP]) (x ++ y)
            = Re.sub (Re.spaces [SP]) x ++ Re.sub (Re.spaces [SP]) y) as HC.
  { intros x y _ Hy. apply collapse_app.
    destruct Hy as [->|Hy]; [done|]. destruct y as [|c y]; [done|].
    cbn [head] in Hy. by injection Hy as ->. }
  assert (forall x y, true = true -> y = [] \/ head y = Some 95 ->
            Re.sub Re.tag_gap (x ++ y)
            = Re.sub Re.tag_gap x ++ Re.sub Re.tag_gap y) as HG.
  { intros x y _ Hy. apply (sub_app_local _ ReFacts.blind_tag_gap).
    intros i Hi. by apply tag_gap_local. }
  rewrite (HU _ _ H0 (laid_hole_head _ _ _ _)).
  rewrite (sub_laid _ comments_closed (fun t => t) comments_keep_placeholder HU
             rest ns nc Hrest).
  rewrite (HC _ _ eq_refl (laid_hole_head _ _ _ _)).
  rewrite (sub_laid _ (fun _ => true) _
             (fun k j y => collapse_solid _ _ y (placeholder_solid k j)) HC
             rest ns nc) by (clear; by induction rest).
  rewrite (HG _ _ eq_refl (laid_hole_head _ _ _ _)).
  rewrite (sub_laid _ (fun _ => true) _ tag_gap_keeps_placeholder HG
             rest ns nc) by (clear; by induction rest).
  reflexivity.
Qed.

(** ** Restoring commutes with [strip] *)

Lemma lstrip_split s :
  exists pre, s = pre ++ lstrip s /\ forallb is_space pre = true.
Proof.
  induction s as [|c t (pre & E & Hpre)]; [by exists []|]. cbn [lstrip].
  destruct (is_space c) eqn:Hc.
  - exists (c :: pre). cbn [app forallb]. rewrite Hc. split; [by f_equal|done].
  - by exists [].
Qed.

Lemma rstrip_blank s : forallb is_space s = true -> rstrip s = [].
Proof.
  induction s as [|c t IH]; [reflexivity|]. cbn [forallb rstrip]. intros H.
  apply andb_true_iff in H as [Hc Ht]. by rewrite (IH Ht), Hc.
Qed.

Lemma rstrip_split s :
  exists post, s = rstrip s ++ post /\ forallb is_space post = true.
Proof.
  induction s as [|c t (post & E & Hpost)]; [by exists []|]. cbn [rstrip].
  destruct (rstrip t) as [|d r] eqn:Hr.
  - cbn [app] in E. subst post. destruct (is_space c) eqn:Hc.
    + exists (c :: t). cbn [forallb]. by rewrite Hc.
    + by exists t.
  - exists post. split; [|exact Hpost]. cbn [app]. f_equal. exact E.
Qed.

Lemma rstrip_app_blank y post :
  forallb is_space post = true -> rstrip (y ++ post) = rstrip y.
Proof.
  intros H. induction y as [|c y IH]; cbn [app rstrip].
  - by apply rstrip_blank.
  - by rewrite IH.
Qed.

Lemma lstrip_app_blank pre z :
  forallb is_space pre = true -> lstrip (pre ++ z) = lstrip z.
Proof.
  induction pre as [|c pre IH]; [done|]. cbn [forallb app lstrip]. intros H.
  apply andb_true_iff in H as [Hc Hp]. rewrite Hc. by apply IH.
Qed.

Lemma strip_padded pre r post :
  forallb is_space pre = true -> forallb is_space post = true ->
  head_space r = false -> tail_space r = false ->
  strip (pre ++ r ++ post) = r.
Proof.
  intros Hpre Hpost Hh Ht. unfold strip. rewrite (lstrip_app_blank _ _ Hpre).
  destruct r as [|c r].
  - cbn [app]. by rewrite (lstrip_blank _ Hpost).
  - rewrite lstrip_same by exact Hh.
    rewrite (rstrip_app_blank _ _ Hpost). by apply rstrip_same.
Qed.

Lemma strip_split s :
  exists pre post,
    s = pre ++ strip s ++ post
    /\ forallb is_space pre = true /\ forallb is_space post = true.
Proof.
  destruct (lstrip_split s) as (pre & E1 & Hpre).
  destruct (rstrip_split (lstrip s)) as (post & E2 & Hpost).
  exists pre, post. unfold strip. by rewrite <- E2, <- E1.
Qed.

(** [s.replace(old, new)] after [strip] is [strip] after the replacement,
    for an [old] without white space and a [new] that neither starts nor
    ends with white space. *)
Lemma replace_strip old new s :
  old <> [] -> forallb (fun c => negb (is_space c)) old = true ->
  new <> [] -> head_space new = false -> tail_space new = false ->
  Re.replace old new (strip s) = strip (Re.replace old new s).
Proof.
  intros Hne Hsolid Hnew Hh Ht.
  destruct (strip_split s) as (pre & post & E & Hpre & Hpost).
  rewrite E at 2. unfold Re.replace.
  assert (forall x, is_space x = true -> forallb (other_than x) old = true) as Hx.
  { intros x Hx. clear -Hsolid Hx. induction old as [|c old IH]; [done|].
    cbn [forallb] in *. apply andb_true_iff in Hsolid as [Hc Ho].
    rewrite (IH Ho), andb_true_r. unfold other_than. apply negb_true_iff.
    apply N.eqb_neq. intros ->. by rewrite Hx in Hc. }
  assert (forall b rest, forallb is_space b = true ->
            Re.sub (Re.literal old new) (b ++ rest)
            = b ++ Re.sub (Re.literal old new) rest) as Hblank.
  { intros b rest Hb. apply (sub_app_kept _ (ReFacts.blind_literal _ _)).
    intros i Hi. unfold Re.literal.
    rewrite <- (take_drop i b), forallb_app in Hb. apply andb_true_iff in Hb as [_ Hb].
    destruct (drop i b) as [|x u] eqn:Eu.
    { apply (f_equal length) in Eu. rewrite length_drop in Eu. simpl in Eu. lia. }
    cbn [forallb] in Hb. apply andb_true_iff in Hb as [Hxs _].
    pose proof (Hx x Hxs) as Ho. destruct old as [|a old]; [done|].
    cbn [forallb] in Ho. apply andb_true_iff in Ho as [Ha _].
    unfold other_than in Ha. apply negb_true_iff in Ha.
    unfold starts_with. cbn [app strip_prefix]. by rewrite Ha. }
  rewrite Hblank by exact Hpre.
  rewrite (sub_app_local _ (ReFacts.blind_literal _ _)).
  - pose proof (Hblank post [] Hpost) as Hp. rewrite app_nil_r in Hp.
    rewrite ReFacts.sub_nil, app_nil_r in Hp. rewrite Hp.
    destruct (sub_keeps_ends (Re.literal old new) (ReFacts.blind_literal _ _))
      with (s := strip s) as (_ & Hh' & Ht').
    { intros u n r. unfold Re.literal.
      destruct (starts_with old u); [|done]. by intros [= _ <-]. }
    symmetry. apply strip_padded; [exact Hpre|exact Hpost| |].
    + apply Hh', strip_head.
    + apply Ht', rstrip_tail.
  - intros i Hi. unfold Re.literal.
    destruct (starts_with old (drop i (strip s))) eqn:Es.
    + rewrite (starts_with_app _ _ _ Es). split; [done|].
      apply starts_with_length in Es. by rewrite length_drop in Es.
    + destruct post as [|x post]; [by rewrite app_nil_r, Es|].
      cbn [forallb] in Hpost. apply andb_true_iff in Hpost as [Hxs _].
      by rewrite (starts_with_no_straddle x old _ (x :: post) Es eq_refl (Hx x Hxs)).
Qed.

Lemma restore_strip (placeholder : nat -> str) blocks :
  (forall idx, placeholder idx <> []
               /\ forallb (fun c => negb (is_space c)) (placeholder idx) = true) ->
  Forall (fun b => b <> [] /\ head_space b = false /\ tail_space b = false)
    blocks ->
  forall idx s,
    restore placeholder idx blocks (strip s)
    = strip (restore placeholder idx blocks s).
Proof.
  intros Hph. induction 1 as [|b blocks (Hb & Hh & Ht) _ IH]; intros idx s; [done|].
  cbn [restore]. destruct (Hph idx) as [Hne Hsolid].
  by rewrite (replace_strip _ _ _ Hne Hsolid Hb Hh Ht), IH.
Qed.

(** ** Where a placeholder cannot start *)

Lemma starts_with_same a q s : starts_with (a :: q) (a :: s) = starts_with q s.
Proof. unfold starts_with. cbn [strip_prefix]. by rewrite N.eqb_refl. Qed.

Lemma starts_with_other a c q s : a <> c -> starts_with (a :: q) (c :: s) = false.
Proof.
  intros H. unfold starts_with. cbn [strip_prefix].
  apply N.eqb_neq in H. by rewrite H.
Qed.

Lemma starts_with_split q u r :
  starts_with q (u ++ r) = true ->
  starts_with q u = true \/ exists v, q = u ++ v.
Proof.
  revert u. induction q as [|a q IH]; intros u H; [by left|].
  destruct u as [|c u]; [right; by exists (a :: q)|].
  cbn [app] in H. destruct (N.eq_dec a c) as [<-|Hac].
  - rewrite starts_with_same in H |- *.
    destruct (IH u H) as [Hu|[v ->]]; [by left|right; by exists v].
  - by rewrite starts_with_other in H.
Qed.

(** The literal texts of a goal written out character by character. *)
Ltac spell_out :=
  repeat match goal with
         | |- context [lit ?s] =>
             let v := eval vm_compute in (lit s) in change (lit s) with v
         end;
  cbn [app].

(** A mismatch within the characters written out. *)
Ltac mismatch :=
  cbn [app]; repeat rewrite starts_with_same;
  apply starts_with_other; first [done | congruence].

Lemma marker_has_word script idx w :
  contains (lit "BLOCK") (placeholder script idx ++ w) = true.
Proof.
  destruct script; unfold placeholder, script_placeholder, style_placeholder;
    rewrite <- !app_assoc; generalize (decimal idx ++ lit "___" ++ w);
    intros y; by vm_compute.
Qed.

Lemma inert_no_marker script idx u :
  inert u = true -> starts_with (placeholder script idx) u = false.
Proof.
  intros H. destruct (starts_with _ u) eqn:E; [|done]. unfold starts_with in E.
  destruct (strip_prefix _ u) as [w|] eqn:Ew; [|done].
  apply strip_prefix_app in Ew. subst u. unfold inert in H.
  by rewrite marker_has_word in H.
Qed.

Lemma inert_drop i u : inert u = true -> inert (drop i u) = true.
Proof.
  unfold inert. intros H. apply negb_true_iff in H. apply negb_true_iff.
  by apply contains_drop_false.
Qed.

Lemma inert_after_underscores t : inert t = true -> inert (lit "___" ++ t) = true.
Proof.
  unfold inert, contains. intros H. apply negb_true_iff in H. apply negb_true_iff.
  change (lit "___") with [95; 95; 95]. change (lit "BLOCK") with [66; 76; 79; 67; 75] in *.
  cbn [app anywhere]. rewrite !starts_with_other by done. exact H.
Qed.

(** One more character of the text is compared with the placeholder. *)
Ltac next_character u :=
  let c := fresh "c" in
  destruct u as [|c u];
  [mismatch
  |cbn [app];
   match goal with
   | |- starts_with (?a :: _) (c :: _) = false =>
       destruct (N.eq_dec a c) as [<-|];
       [rewrite starts_with_same|by apply starts_with_other]
   end].

(** A text without the word "BLOCK" that is followed by a placeholder
    does not end with the start of one. *)
Lemma text_before_placeholder script idx u r :
  u <> [] -> inert u = true ->
  starts_with (placeholder script idx) (u ++ lit "___" ++ r) = false.
Proof.
  intros Hne H. unfold inert, contains in H.
  change (lit "BLOCK") with [66; 76; 79; 67; 75] in H.
  destruct script; unfold placeholder, script_placeholder, style_placeholder;
    generalize (decimal idx ++ lit "___"); intros D; spell_out;
    (destruct u as [|c u]; [done|]); cbn [app];
    (destruct (N.eq_dec 95 c) as [<-|]; [rewrite starts_with_same|by apply starts_with_other]).
  - do 14 (next_character u). by vm_compute in H.
  - do 13 (next_character u). by vm_compute in H.
Qed.

Lemma text_no_marker script idx u r :
  u <> [] -> inert u = true -> boundary r ->
  starts_with (placeholder script idx) (u ++ r) = false.
Proof.
  intros Hne H [->|[Hr|[r' ->]]].
  - rewrite app_nil_r. by apply inert_no_marker.
  - apply (starts_with_no_straddle 60); [by apply inert_no_marker|exact Hr|].
    apply placeholder_no_lt.
  - by apply text_before_placeholder.
Qed.

Lemma pass_text script idx new u r :
  inert u = true -> boundary r ->
  Re.replace (placeholder script idx) new (u ++ r)
  = u ++ Re.replace (placeholder script idx) new r.
Proof.
  intros H Hr. apply (sub_app_kept _ (ReFacts.blind_literal _ _)).
  intros i Hi. unfold Re.literal. rewrite text_no_marker; [done| | |exact Hr].
  - intros E. apply (f_equal length) in E. rewrite length_drop in E. simpl in E. lia.
  - by apply inert_drop.
Qed.

Lemma forallb_last {A : Type} (P : A -> bool) (l : list A) z :
  forallb P l = true -> last l = Some z -> P z = true.
Proof.
  intros H Hl. apply last_Some in Hl as [l' ->].
  rewrite forallb_app in H. apply andb_true_iff in H as [_ H].
  cbn [forallb] in H. by apply andb_true_iff in H as [H _].
Qed.

Lemma last_of_drop {A : Type} i (l : list A) :
  (i < length l)%nat -> last (drop i l) = last l.
Proof.
  intros Hi. rewrite <- (take_drop i l) at 2. rewrite last_app.
  destruct (last (drop i l)) eqn:E; [done|]. apply last_None in E.
  apply (f_equal length) in E. rewrite length_drop in E. simpl in E. lia.
Qed.

(** No placeholder starts in a restored block. *)
Lemma pass_block script idx new b r :
  inert b = true -> last b = Some 62 ->
  Re.replace (placeholder script idx) new (b ++ r)
  = b ++ Re.replace (placeholder script idx) new r.
Proof.
  intros H Hl. apply (sub_app_kept _ (ReFacts.blind_literal _ _)).
  intros i Hi. unfold Re.literal.
  destruct (starts_with _ (drop i b ++ r)) eqn:E; [|done]. exfalso.
  apply starts_with_split in E as [E|[v E]].
  - by rewrite inert_no_marker in E by (by apply inert_drop).
  - assert (forallb (other_than 62) (placeholder script idx) = true) as Hp.
    { apply placeholder_chars; [done| |]; intros c Hc; unfold other_than;
        apply andb_true_iff in Hc as [H1 H2]; apply negb_true_iff;
        apply N.leb_le in H1, H2; apply N.eqb_neq; lia. }
    rewrite E, forallb_app in Hp. apply andb_true_iff in Hp as [Hp _].
    by pose proof (forallb_last _ _ 62 Hp ltac:(by rewrite last_of_drop)).
Qed.

Lemma pass_match script idx new r :
  Re.replace (placeholder script idx) new (placeholder script idx ++ r)
  = new ++ Re.replace (placeholder script idx) new r.
Proof.
  apply (sub_app_match _ (ReFacts.blind_literal _ _)).
  - apply placeholder_not_empty.
  - unfold Re.literal, starts_with. by rewrite strip_prefix_of_app.
Qed.

Lemma digits_marker a b x y :
  forallb (fun c => (48 <=? c) && (c <=? 57)) a = true ->
  forallb (fun c => (48 <=? c) && (c <=? 57)) b = true ->
  starts_with (a ++ 95 :: x) (b ++ 95 :: y) = true -> a = b.
Proof.
  assert (forall c, (48 <=? c) && (c <=? 57) = true -> c <> 95) as Hd.
  { intros c Hc. apply andb_true_iff in Hc as [H1 H2]. apply N.leb_le in H1, H2. lia. }
  revert b. induction a as [|c a IH]; intros [|d b] Ha Hb H; cbn [app forallb] in *.
  - done.
  - apply andb_true_iff in Hb as [Hc _]. apply Hd in Hc.
    by rewrite starts_with_other in H.
  - apply andb_true_iff in Ha as [Hc _]. apply Hd in Hc.
    by rewrite starts_with_other in H.
  - apply andb_true_iff in Ha as [_ Ha]. apply andb_true_iff in Hb as [_ Hb].
    destruct (N.eq_dec c d) as [<-|Hcd].
    + rewrite starts_with_same in H. f_equal. by apply IH.
    + by rewrite starts_with_other in H.
Qed.

(** No placeholder starts inside another one, nor at its start unless
    they are the same. *)
Lemma hole_body_no_marker script idx script' idx' :
  script' <> script \/ idx' <> idx ->
  exists body,
    placeholder script' idx' = body ++ lit "___"
    /\ forall i y, (i < length body)%nat ->
         starts_with (placeholder script idx) (drop i body ++ lit "___" ++ y)
         = false.
Proof.
  intros Hdiff.
  destruct (decimal_digits idx') as (d & ds & Ed & Hds).
  destruct (decimal_digits idx) as (e & es & Ee & Hes).
  assert (forall c, (48 <=? c) && (c <=? 57) = true -> 95 <> c) as Hdigit.
  { intros c Hc. apply andb_true_iff in Hc as [H1 H2]. apply N.leb_le in H1, H2. lia. }
  assert (95 <> d) as Hd.
  { apply Hdigit. cbn [forallb] in Hds. by apply andb_true_iff in Hds as [Hds _]. }
  set (prefix := if script' then lit "___SCRIPT_BLOCK_" else lit "___STYLE_BLOCK_").
  exists (prefix ++ d :: ds). split.
  { unfold placeholder, script_placeholder, style_placeholder, prefix.
    rewrite Ed. destruct script'; by rewrite <- app_assoc. }
  intros i y Hi.
  destruct (decide (i < length prefix)%nat) as [Hp|Hp].
  - assert (starts_with (e :: es ++ lit "___") ((d :: ds) ++ lit "___" ++ y) = true ->
            script' = script -> False) as Hsame.
    { intros H Hk. apply (digits_marker (e :: es) (d :: ds)) in H; [|done|done].
      rewrite <- Ed, <- Ee in H. apply decimal_inj in H. destruct Hdiff; congruence. }
    assert (i < 16)%nat as Hp16.
    { subst prefix. revert Hp. destruct script';
        [change (length (lit "___SCRIPT_BLOCK_")) with 16%nat
        |change (length (lit "___STYLE_BLOCK_")) with 15%nat]; lia. }
    unfold placeholder, script_placeholder, style_placeholder. rewrite Ee.
    destruct script, script'; subst prefix; revert Hsame;
      spell_out; intros Hsame;
      (destruct i as [|i];
       [rewrite drop_0; cbn [app]; first [mismatch|idtac]
       |do 16 (try (destruct i as [|i]; [cbn [drop app]; by mismatch|]));
        exfalso; lia]).
    + repeat rewrite starts_with_same.
      apply not_true_is_false. intros E. exact (Hsame E eq_refl).
    + repeat rewrite starts_with_same.
      apply not_true_is_false. intros E. exact (Hsame E eq_refl).
  - rewrite drop_app_ge by lia.
    pose proof (forallb_drop _ (i - length prefix) _ Hds) as Hdrop.
    destruct (drop (i - length prefix) (d :: ds)) as [|c u] eqn:Eu.
    { apply (f_equal length) in Eu. rewrite length_drop in Eu.
      rewrite length_app in Hi. simpl in *. lia. }
    cbn [forallb] in Hdrop. apply andb_true_iff in Hdrop as [Hc _].
    apply Hdigit in Hc. destruct script; unfold placeholder, script_placeholder,
      style_placeholder; spell_out; by apply starts_with_other.
Qed.

Lemma pass_hole script idx new script' idx' t r :
  script' <> script \/ idx' <> idx -> inert t = true -> boundary r ->
  Re.replace (placeholder script idx) new (placeholder script' idx' ++ t ++ r)
  = placeholder script' idx' ++ t ++ Re.replace (placeholder script idx) new r.
Proof.
  intros Hdiff Ht Hr.
  destruct (hole_body_no_marker script idx script' idx' Hdiff) as (body & -> & Hbody).
  rewrite <- !app_assoc. unfold Re.replace at 1.
  rewrite (sub_app_kept _ (ReFacts.blind_literal _ _)).
  - f_equal. rewrite (app_assoc (lit "___") t r).
    change (Re.sub (Re.literal ?a ?b) ?c) with (Re.replace a b c).
    rewrite pass_text; [by rewrite <- app_assoc|by apply inert_after_underscores|exact Hr].
  - intros i Hi. unfold Re.literal. by rewrite Hbody.
Qed.

(** ** The loops of lines 104-110 on a page *)

Lemma rebuilt_capped wide x :
  head (rebuilt wide x) = Some 60 /\ last (rebuilt wide x) = Some 62.
Proof.
  destruct x as [o at_ c cl|o at_ c cl]; cbn [rebuilt];
    unfold style_block, script_block; (split; [reflexivity|]);
    rewrite !app_assoc, last_app; reflexivity.
Qed.

Lemma partly_boundary wide a b g ns nc rest :
  boundary (laid (partly wide a b) g ns nc rest).
Proof.
  destruct rest as [|[x t] r]; [by left|]. right. cbn [laid]. unfold partly.
  destruct (if is_script x then _ else _).
  - left. destruct (rebuilt_capped wide x) as [H _].
    by destruct (rebuilt wide x).
  - right. unfold hole, placeholder, script_placeholder, style_placeholder.
    destruct (is_script x); rewrite <- !app_assoc.
    + change (lit "___SCRIPT_BLOCK_") with (lit "___" ++ lit "SCRIPT_BLOCK_").
      rewrite <- app_assoc. by eexists.
    + change (lit "___STYLE_BLOCK_") with (lit "___" ++ lit "STYLE_BLOCK_").
      rewrite <- app_assoc. by eexists.
Qed.

Lemma replace_nil old new : Re.replace old new [] = [].
Proof. apply ReFacts.sub_nil. Qed.

(** One round of the loop of lines 105-106. *)
Lemma restore_one_style wide a b new g rest :
  forallb (fun bt : block * str =>
             inert (rebuilt wide (fst bt)) && inert (g (snd bt))) rest = true ->
  forall ns nc,
    ((ns <= a)%nat -> registered wide false rest !! (a - ns)%nat = Some new) ->
    Re.replace (style_placeholder a) new (laid (partly wide a b) g ns nc rest)
    = laid (partly wide (S a) b) g ns nc rest.
Proof.
  change style_placeholder with (placeholder false).
  induction rest as [|[x t] r IH]; intros Hin ns nc Hreg; [apply replace_nil|].
  cbn [forallb fst snd] in Hin. apply andb_true_iff in Hin as [Hx Hr].
  apply andb_true_iff in Hx as [Hx Ht]. specialize (IH Hr).
  destruct (rebuilt_capped wide x) as [_ Hlast].
  cbn [laid].
  pose proof (partly_boundary wide a b g (if is_script x then ns else S ns)
                (if is_script x then S nc else nc) r) as Hb.
  destruct x as [o at_ c cl|o at_ c cl]; cbn [is_script] in *.
  - change (partly wide a b ns nc (StyleBlock o at_ c cl))
      with (if (ns <? a)%nat then style_block c else placeholder false ns).
    change (partly wide (S a) b ns nc (StyleBlock o at_ c cl))
      with (if (ns <? S a)%nat then style_block c else placeholder false ns).
    cbn [rebuilt] in Hx, Hlast.
    change (registered wide false ((StyleBlock o at_ c cl, t) :: r))
      with (style_block c :: registered wide false r) in Hreg.
    destruct (Nat.ltb_spec ns a) as [Hlt|Hge];
      destruct (Nat.ltb_spec ns (S a)) as [Hlt'|Hge']; try lia.
    + rewrite (pass_block _ _ _ _ _ Hx Hlast), (pass_text _ _ _ _ _ Ht Hb).
      rewrite IH; [done|]. intros Hle. specialize (Hreg ltac:(lia)).
      replace (a - ns)%nat with (S (a - S ns)) in Hreg by lia. exact Hreg.
    + assert (ns = a) as -> by lia. specialize (Hreg ltac:(lia)).
      rewrite Nat.sub_diag in Hreg. injection Hreg as <-.
      rewrite pass_match, (pass_text _ _ _ _ _ Ht Hb).
      rewrite IH; [done|]. intros Hle. lia.
    + assert (false <> false \/ ns <> a) as Hdiff by (right; lia).
      rewrite (pass_hole _ _ _ _ _ _ _ Hdiff Ht Hb).
      rewrite IH; [done|]. intros Hle. lia.
  - change (partly wide a b ns nc (ScriptBlock o at_ c cl))
      with (if (nc <? b)%nat then script_block wide (at_, c) else placeholder true nc).
    change (partly wide (S a) b ns nc (ScriptBlock o at_ c cl))
      with (if (nc <? b)%nat then script_block wide (at_, c) else placeholder true nc).
    cbn [rebuilt] in Hx, Hlast.
    change (registered wide false ((ScriptBlock o at_ c cl, t) :: r))
      with (registered wide false r) in Hreg.
    destruct (nc <? b)%nat.
    + rewrite (pass_block _ _ _ _ _ Hx Hlast), (pass_text _ _ _ _ _ Ht Hb).
      by rewrite (IH _ _ Hreg).
    + assert (true <> false \/ nc <> a) as Hdiff by (by left).
      rewrite (pass_hole _ _ _ _ _ _ _ Hdiff Ht Hb).
      by rewrite (IH _ _ Hreg).
Qed.

(** One round of the loop of lines 109-110. *)
Lemma restore_one_script wide a b new g rest :
  forallb (fun bt : block * str =>
             inert (rebuilt wide (fst bt)) && inert (g (snd bt))) rest = true ->
  forall ns nc,
    ((nc <= b)%nat -> registered wide true rest !! (b - nc)%nat = Some new) ->
    Re.replace (script_placeholder b) new (laid (partly wide a b) g ns nc rest)
    = laid (partly wide a (S b)) g ns nc rest.
Proof.
  change script_placeholder with (placeholder true).
  induction rest as [|[x t] r IH]; intros Hin ns nc Hreg; [apply replace_nil|].
  cbn [forallb fst snd] in Hin. apply andb_true_iff in Hin as [Hx Hr].
  apply andb_true_iff in Hx as [Hx Ht]. specialize (IH Hr).
  destruct (rebuilt_capped wide x) as [_ Hlast].
  cbn [laid].
  pose proof (partly_boundary wide a b g (if is_script x then ns else S ns)
                (if is_script x then S nc else nc) r) as Hb.
  destruct x as [o at_ c cl|o at_ c cl]; cbn [is_script] in *.
  - change (partly wide a b ns nc (StyleBlock o at_ c cl))
      with (if (ns <? a)%nat then style_block c else placeholder false ns).
    change (partly wide a (S b) ns nc (StyleBlock o at_ c cl))
      with (if (ns <? a)%nat then style_block c else placeholder false ns).
    cbn [rebuilt] in Hx, Hlast.
    change (registered wide true ((StyleBlock o at_ c cl, t) :: r))
      with (registered wide true r) in Hreg.
    destruct (ns <? a)%nat.
    + rewrite (pass_block _ _ _ _ _ Hx Hlast), (pass_text _ _ _ _ _ Ht Hb).
      by rewrite (IH _ _ Hreg).
    + assert (false <> true \/ ns <> b) as Hdiff by (by left).
      rewrite (pass_hole _ _ _ _ _ _ _ Hdiff Ht Hb).
      by rewrite (IH _ _ Hreg).
  - change (partly wide a b ns nc (ScriptBlock o at_ c cl))
      with (if (nc <? b)%nat then script_block wide (at_, c) else placeholder true nc).
    change (partly wide a (S b) ns nc (ScriptBlock o at_ c cl))
      with (if (nc <? S b)%nat then script_block wide (at_, c) else placeholder true nc).
    cbn [rebuilt] in Hx, Hlast.
    change (registered wide true ((ScriptBlock o at_ c cl, t) :: r))
      with (script_block wide (at_, c) :: registered wide true r) in Hreg.
    destruct (Nat.ltb_spec nc b) as [Hlt|Hge];
      destruct (Nat.ltb_spec nc (S b)) as [Hlt'|Hge']; try lia.
    + rewrite (pass_block _ _ _ _ _ Hx Hlast), (pass_text _ _ _ _ _ Ht Hb).
      rewrite IH; [done|]. intros Hle. specialize (Hreg ltac:(lia)).
      replace (b - nc)%nat with (S (b - S nc)) in Hreg by lia. exact Hreg.
    + assert (nc = b) as -> by lia. specialize (Hreg ltac:(lia)).
      rewrite Nat.sub_diag in Hreg. injection Hreg as <-.
      rewrite pass_match, (pass_text _ _ _ _ _ Ht Hb).
      rewrite IH; [done|]. intros Hle. lia.
    + assert (true <> true \/ nc <> b) as Hdiff by (right; lia).
      rewrite (pass_hole _ _ _ _ _ _ _ Hdiff Ht Hb).
      rewrite IH; [done|]. intros Hle. lia.
Qed.

(** The loops, from any round on. *)
Lemma restore_styles wide b g rest pre :
  inert pre = true ->
  forallb (fun bt : block * str =>
             inert (rebuilt wide (fst bt)) && inert (g (snd bt))) rest = true ->
  forall k a,
    (a + k)%nat = length (registered wide false rest) ->
    restore style_placeholder a (drop a (registered wide false rest))
      (pre ++ laid (partly wide a b) g 0 0 rest)
    = pre ++ laid (partly wide (length (registered wide false rest)) b) g 0 0 rest.
Proof.
  intros Hpre Hin. induction k as [|k IH]; intros a Ha.
  - rewrite Nat.add_0_r in Ha. subst a. by rewrite drop_all.
  - destruct (lookup_lt_is_Some_2 (registered wide false rest) a ltac:(lia))
      as [new Hnew].
    rewrite (drop_S _ _ _ Hnew). cbn [restore].
    change (style_placeholder a) with (placeholder false a).
    rewrite (pass_text _ _ _ _ _ Hpre (partly_boundary _ _ _ _ _ _ _)).
    change (placeholder false a) with (style_placeholder a).
    rewrite (restore_one_style _ _ _ new _ _ Hin).
    + apply IH. lia.
    + intros _. by rewrite Nat.sub_0_r.
Qed.

Lemma restore_scripts wide a g rest pre :
  inert pre = true ->
  forallb (fun bt : block * str =>
             inert (rebuilt wide (fst bt)) && inert (g (snd bt))) rest = true ->
  forall k b,
    (b + k)%nat = length (registered wide true rest) ->
    restore script_placeholder b (drop b (registered wide true rest))
      (pre ++ laid (partly wide a b) g 0 0 rest)
    = pre ++ laid (partly wide a (length (registered wide true rest))) g 0 0 rest.
Proof.
  intros Hpre Hin. induction k as [|k IH]; intros b Hb.
  - rewrite Nat.add_0_r in Hb. subst b. by rewrite drop_all.
  - destruct (lookup_lt_is_Some_2 (registered wide true rest) b ltac:(lia))
      as [new Hnew].
    rewrite (drop_S _ _ _ Hnew). cbn [restore].
    change (script_placeholder b) with (placeholder true b).
    rewrite (pass_text _ _ _ _ _ Hpre (partly_boundary _ _ _ _ _ _ _)).
    change (placeholder true b) with (script_placeholder b).
    rewrite (restore_one_script _ _ _ new _ _ Hin).
    + apply IH. lia.
    + intros _. by rewrite Nat.sub_0_r.
Qed.

Lemma hole_is_partly wide g rest ns nc :
  laid hole g ns nc rest = laid (partly wide 0 0) g ns nc rest.
Proof.
  revert ns nc. induction rest as [|[x t] r IH]; intros ns nc; [done|].
  cbn [laid]. rewrite IH. unfold partly. by destruct (is_script x).
Qed.

Lemma partly_done wide a b g rest :
  forall ns nc,
    (ns + length (registered wide false rest) <= a)%nat ->
    (nc + length (registered wide true rest) <= b)%nat ->
    laid (partly wide a b) g ns nc rest = laid (fun _ _ => rebuilt wide) g ns nc rest.
Proof.
  induction rest as [|[x t] r IH]; intros ns nc Ha Hb; [done|].
  cbn [laid]. unfold partly at 1.
  destruct x as [o at_ c cl|o at_ c cl]; cbn [is_script].
  - change (registered wide false ((StyleBlock o at_ c cl, t) :: r))
      with (style_block c :: registered wide false r) in Ha.
    change (registered wide true ((StyleBlock o at_ c cl, t) :: r))
      with (registered wide true r) in Hb.
    cbn [length] in Ha. destruct (Nat.ltb_spec ns a); [|lia].
    rewrite IH; [done|lia|lia].
  - change (registered wide false ((ScriptBlock o at_ c cl, t) :: r))
      with (registered wide false r) in Ha.
    change (registered wide true ((ScriptBlock o at_ c cl, t) :: r))
      with (script_block wide (at_, c) :: registered wide true r) in Hb.
    cbn [length] in Hb. destruct (Nat.ltb_spec nc b); [|lia].
    rewrite IH; [done|lia|lia].
Qed.

(** ** [minify_html] on a page *)

(** The working text and the registries of a page (lines 72-102). *)
Lemma working_text wide t0 rest :
  markup_text t0 = true -> regular rest = true ->
  collapse_markup wide (page t0 rest)
  = (strip (markup t0 ++ laid hole markup 0 0 rest),
     registered wide false rest, registered wide true rest).
Proof.
  intros H0 Hreg. rewrite collapse_markup_numbers. cbv zeta.
  apply markup_text_spec in H0 as (Hstyle & Hscript & Hclosed).
  unfold page.
  rewrite (pieces_app_kept _ blind_style_pattern).
  2:{ intros i Hi. unfold style_pattern. rewrite block_needs_opening; [done|].
      apply (quiet_text (lit "style") 60); [exact Hstyle| |exact Hi].
      destruct (laid_source_head rest 0 0 Hreg) as [->|Hh]; [by left|by right]. }
  rewrite fill_app, found_app.
  destruct (fill_kept (G := str) style_placeholder 0 t0) as [-> ->].
  cbn [length app]. rewrite Nat.add_0_r.
  destruct (style_scan rest Hreg 0 0 0 0)%nat as [-> ->].
  rewrite (pieces_app_kept _ blind_script_pattern).
  2:{ intros i Hi. unfold script_pattern. rewrite block_needs_opening; [done|].
      destruct (half_head rest 0 0 Hreg) as [->|[Hh|Hh]].
      - apply (quiet_text (lit "script") 60); [exact Hscript|by left|exact Hi].
      - apply (quiet_text (lit "script") 60); [exact Hscript|by right|exact Hi].
      - apply (quiet_text (lit "script") 95); [exact Hscript|by right|exact Hi]. }
  rewrite fill_app, found_app.
  destruct (fill_kept (G := str * str) script_placeholder 0 t0) as [-> ->].
  cbn [length app]. rewrite Nat.add_0_r.
  destruct (script_scan rest Hreg 0 0)%nat as [-> ->].
  rewrite markup_laid; [done|exact Hclosed|].
  clear -Hreg. induction rest as [|[x t] r IH]; [done|].
  apply regular_cons in Hreg as (_ & Ht & Hr).
  apply markup_text_spec in Ht as (_ & _ & Ht).
  cbn [forallb snd]. by rewrite Ht, (IH Hr).
Qed.

Lemma registered_ends wide script rest :
  Forall (fun b => b <> [] /\ head_space b = false /\ tail_space b = false)
    (registered wide script rest).
Proof.
  unfold registered. destruct script; apply Forall_map, Forall_forall.
  - intros groups _. unfold script_block. split; [done|]. split; [done|].
    change (lit "</script>") with (lit "</script" ++ [62]).
    by rewrite !app_assoc, tail_space_app.
  - intros content _. unfold style_block. split; [done|]. split; [done|].
    change (lit "</style>") with (lit "</style" ++ [62]).
    by rewrite !app_assoc, tail_space_app.
Qed.

(** For a page whose minified texts and blocks do not hold the word
    "BLOCK", [minify_html] returns the minified texts with every block
    rebuilt in its place, in the order of the page. *)
Lemma minify_html_page wide t0 rest :
  markup_text t0 = true -> regular rest = true ->
  inert (markup t0) = true ->
  forallb (fun bt : block * str =>
             inert (rebuilt wide (fst bt)) && inert (markup (snd bt))) rest = true ->
  minify_html wide (page t0 rest) = minified_page wide t0 rest.
Proof.
  intros H0 Hreg Hpre Hin. unfold minify_html, minified_page.
  rewrite (working_text wide t0 rest H0 Hreg).
  rewrite (restore_strip style_placeholder);
    [|intros idx; split;
      [apply (placeholder_not_empty false)|apply (placeholder_solid false)]
     |apply registered_ends].
  rewrite (restore_strip script_placeholder);
    [|intros idx; split;
      [apply (placeholder_not_empty true)|apply (placeholder_solid true)]
     |apply registered_ends].
  f_equal. rewrite (hole_is_partly wide).
  pose proof (restore_styles wide 0 markup rest (markup t0) Hpre Hin
                (length (registered wide false rest)) 0 eq_refl) as Hs.
  rewrite drop_0 in Hs. rewrite Hs.
  pose proof (restore_scripts wide (length (registered wide false rest)) markup
                rest (markup t0) Hpre Hin
                (length (registered wide true rest)) 0 eq_refl) as Hc.
  rewrite drop_0 in Hc. rewrite Hc.
  f_equal. apply partly_done; simpl; lia.
Qed.

(** ** The opening tags of a page *)

Lemma openings_nil tag : openings tag [] = 0%nat.
Proof. reflexivity. Qed.

Lemma openings_cons tag c s :
  openings tag (c :: s)
  = ((if Re.ci_starts_with (60%N :: lit tag) (c :: s) then 1 else 0)
     + openings tag s)%nat.
Proof. reflexivity. Qed.

Lemma openings_app_quiet tag a b :
  (forall i, (i < length a)%nat ->
     Re.ci_starts_with (60 :: lit tag) (drop i a ++ b) = false) ->
  openings tag (a ++ b) = openings tag b.
Proof.
  induction a as [|c a IH]; intros H; [done|].
  cbn [app]. rewrite openings_cons.
  pose proof (H O ltac:(simpl; lia)) as H0. rewrite drop_0 in H0.
  cbn [app] in H0. rewrite H0. cbn [Nat.add]. apply IH.
  intros i Hi. apply (H (S i)). simpl. lia.
Qed.

Lemma openings_app_local tag a b :
  (forall i, (i < length a)%nat ->
     Re.ci_starts_with (60 :: lit tag) (drop i a ++ b)
     = Re.ci_starts_with (60 :: lit tag) (drop i a)) ->
  openings tag (a ++ b) = (openings tag a + openings tag b)%nat.
Proof.
  induction a as [|c a IH]; intros H; [done|].
  cbn [app]. rewrite !openings_cons.
  pose proof (H O ltac:(simpl; lia)) as H0. rewrite drop_0 in H0.
  cbn [app] in H0. rewrite H0. rewrite IH; [lia|].
  intros i Hi. apply (H (S i)). simpl. lia.
Qed.

Lemma ci_starts_with_app p u v :
  Re.ci_starts_with p u = true -> Re.ci_starts_with p (u ++ v) = true.
Proof.
  unfold Re.ci_starts_with. revert u. induction p as [|a p IH]; intros u; [done|].
  destruct u as [|b u]; [done|]. cbn [app Re.ci_strip_prefix].
  destruct (Re.ci_eq a b); [apply IH|done].
Qed.

Lemma space_is_no_tag_letter script x :
  is_space x = true ->
  forallb (fun h => negb (Re.ci_eq h x)) (lit (tag_name script)) = true.
Proof.
  intros Hx.
  assert (forall h, Re.is_lower_letter h = true -> Re.ci_eq h x = false) as Hh.
  { intros h Hlow. destruct (Re.ci_eq h x) eqn:E; [|done]. exfalso.
    unfold Re.is_lower_letter in Hlow. apply andb_true_iff in Hlow as [H1 H2].
    apply N.leb_le in H1, H2.
    unfold is_space in Hx.
    rewrite !orb_true_iff, !andb_true_iff, !N.leb_le, !N.eqb_eq in Hx.
    destruct (ci_eq_letter h x E) as [Hc|[_ Hc]]; lia. }
  destruct script; unfold tag_name; spell_out; cbn [forallb];
    rewrite !Hh by done; done.
Qed.

(** [strip] removes no opening tag. *)
Lemma openings_strip script s :
  openings (tag_name script) (strip s) = openings (tag_name script) s.
Proof.
  destruct (strip_split s) as (pre & post & E & Hpre & Hpost).
  assert (forall b, forallb is_space b = true -> forallb (other_than 60) b = true)
    as Hblank.
  { intros b Hb. induction b as [|c b IH]; [done|]. cbn [forallb] in *.
    apply andb_true_iff in Hb as [Hc Hb]. rewrite (IH Hb), andb_true_r.
    unfold other_than. apply negb_true_iff, N.eqb_neq. intros ->. done. }
  rewrite E at 2.
  rewrite openings_app_quiet by (by apply quiet_no_lt, Hblank).
  rewrite openings_app_local.
  - rewrite <- (app_nil_r post) at 1.
    rewrite openings_app_quiet by (by apply quiet_no_lt, Hblank).
    rewrite openings_nil. lia.
  - intros i Hi.
    destruct (Re.ci_starts_with _ (drop i (strip s))) eqn:Es.
    + by apply ci_starts_with_app.
    + destruct post as [|x post]; [by rewrite app_nil_r|].
      cbn [forallb] in Hpost. apply andb_true_iff in Hpost as [Hx _].
      destruct (drop_not_nil i (strip s) Hi) as (b & u & Eu). rewrite Eu in *.
      unfold Re.ci_starts_with in *. cbn [app Re.ci_strip_prefix] in *.
      destruct (Re.ci_eq 60 b); [|done].
      apply (no_straddle_at x); [exact Es|done|].
      by apply space_is_no_tag_letter.
Qed.

Lemma style_opening_is_not_script o rest :
  is_tag (lit "<style") o = true ->
  Re.ci_starts_with (lit "<script") (o ++ rest) = false.
Proof.
  intros H. apply is_tag_strip in H.
  change (lit "<script") with (60 :: 115 :: 99 :: lit "ript").
  change (lit "<style") with (60 :: 115 :: 116 :: lit "yle") in H.
  unfold Re.ci_starts_with.
  destruct o as [|c0 [|c1 [|c2 o]]]; cbn [app Re.ci_strip_prefix] in *;
    [done| | |].
  { by destruct (Re.ci_eq 60 c0). }
  { destruct (Re.ci_eq 60 c0); [|done]. by destruct (Re.ci_eq 115 c1). }
  destruct (Re.ci_eq 60 c0); [|done]. destruct (Re.ci_eq 115 c1); [|done].
  destruct (Re.ci_eq 116 c2) eqn:E; [|done].
  assert (Re.ci_eq 99 c2 = false) as ->; [|done].
  destruct (ci_eq_letter 116 c2 E) as [->|[_ [->|[->|[->|[->| ->]]]]]];
    vm_compute; reflexivity.
Qed.

Lemma opening_starts p o rest :
  is_tag p o = true -> Re.ci_starts_with p (o ++ rest) = true.
Proof.
  intros H. apply is_tag_strip in H. unfold Re.ci_starts_with.
  by rewrite (ci_strip_prefix_app _ _ rest H).
Qed.

(** The opening tags that start in a block: its own, and none after it. *)
Lemma block_openings tag a0 q p p' o a c cl rest :
  lit tag = a0 :: q -> Re.ci_eq a0 47 = false ->
  forallb (fun h => negb (Re.ci_eq h 62)) (a0 :: q) = true ->
  forallb (fun h => negb (Re.ci_eq h 60)) (a0 :: q) = true ->
  forallb (other_than 60) p = true ->
  forallb (other_than 60) (47 :: p') = true ->
  is_tag (60 :: p) o = true -> is_tag (60 :: 47 :: p') cl = true ->
  tag_free tag a = true -> tag_free tag c = true ->
  openings tag (o ++ a ++ 62 :: c ++ cl ++ rest)
  = ((if Re.ci_starts_with (60%N :: lit tag) (o ++ a ++ 62%N :: c ++ cl ++ rest)
      then 1 else 0) + openings tag rest)%nat.
Proof.
  intros Htag Ha0 Hgt Hlt Hp Hp' Ho Hcl Hat Hc.
  destruct (is_tag_shape p o Ho Hp) as (o' & -> & Ho' & _).
  destruct (is_tag_shape (47 :: p') cl Hcl Hp') as (cl' & Ecl & Hcl' & _).
  cbn [app]. rewrite openings_cons. f_equal.
  rewrite openings_app_quiet by (by apply quiet_no_lt).
  rewrite openings_app_quiet.
  2:{ apply (quiet_text _ 62); [by apply tag_free_spec|]. right.
      split; [done|]. by rewrite Htag. }
  change (62 :: c ++ cl ++ rest) with ([62] ++ c ++ cl ++ rest).
  rewrite openings_app_quiet by (by apply quiet_no_lt).
  rewrite openings_app_quiet.
  2:{ apply (quiet_text _ 60); [by apply tag_free_spec|]. right.
      subst cl. split; [done|]. by rewrite Htag. }
  rewrite openings_app_quiet; [done|]. rewrite Ecl.
  apply quiet_tag; [exact Hcl'|]. rewrite <- Ecl, Htag.
  by apply (closing_is_not_opening a0 q p').
Qed.

Lemma source_openings script x rest :
  tagged x = true -> plain_parts x = true ->
  openings (tag_name script) (source x ++ rest)
  = ((if Bool.eqb (is_script x) script then 1 else 0)
     + openings (tag_name script) rest)%nat.
Proof.
  intros Htagged Hplain.
  destruct x as [o a c cl|o a c cl]; cbn [tagged plain_parts source is_script] in *;
    apply andb_true_iff in Htagged as [Ho Hcl];
    apply andb_true_iff in Hplain as [Ha Hc];
    unfold tagless in Ha, Hc;
    apply andb_true_iff in Ha as [Ha1 Ha2];
    apply andb_true_iff in Hc as [Hc1 Hc2];
    rewrite <- !app_assoc; cbn [app]; rewrite <- !app_assoc;
    destruct script; cbn [tag_name Bool.eqb].
  - rewrite (block_openings "script" 115 (lit "cript") (lit "style")
               (lit "style>") o a c cl rest) by done.
    change (60 :: lit "script") with (lit "<script").
    by rewrite (style_opening_is_not_script o _ Ho).
  - rewrite (block_openings "style" 115 (lit "tyle") (lit "style")
               (lit "style>") o a c cl rest) by done.
    change (60 :: lit "style") with (lit "<style").
    by rewrite (opening_starts _ o _ Ho).
  - rewrite (block_openings "script" 115 (lit "cript") (lit "script")
               (lit "script>") o a c cl rest) by done.
    change (60 :: lit "script") with (lit "<script").
    by rewrite (opening_starts _ o _ Ho).
  - rewrite (block_openings "style" 115 (lit "tyle") (lit "script")
               (lit "script>") o a c cl rest) by done.
    change (60 :: lit "style") with (lit "<style").
    by rewrite (script_opening_is_not_style o _ Ho).
Qed.

Lemma tagged_head x : tagged x = true -> head (source x) = Some 60.
Proof.
  destruct x as [o a c cl|o a c cl]; cbn [tagged source]; intros H;
    apply andb_true_iff in H as [Ho _].
  - by destruct (is_tag_shape (lit "style") o Ho eq_refl) as (o' & -> & _).
  - by destruct (is_tag_shape (lit "script") o Ho eq_refl) as (o' & -> & _).
Qed.

Lemma tagless_spec script s :
  tagless s = true -> tag_free (tag_name script) s = true.
Proof.
  unfold tagless. intros H. apply andb_true_iff in H as [H1 H2].
  by destruct script.
Qed.

(** A page whose blocks hold no further opening tag has one opening tag
    for each block. *)
Lemma openings_laid script (h : block -> block) g rest :
  forallb (fun bt : block * str =>
             tagged (h (fst bt)) && plain_parts (h (fst bt))
             && Bool.eqb (is_script (h (fst bt))) (is_script (fst bt))
             && tagless (g (snd bt))) rest = true ->
  forall ns nc,
    openings (tag_name script) (laid (fun _ _ x => source (h x)) g ns nc rest)
    = blocks_of script rest.
Proof.
  induction rest as [|[x t] r IH]; intros H ns nc; [done|].
  cbn [forallb fst snd] in H. apply andb_true_iff in H as [H Hr].
  repeat (apply andb_true_iff in H as [H ?]).
  cbn [laid]. rewrite source_openings by done.
  rewrite openings_app_quiet.
  - rewrite (IH Hr). unfold blocks_of. cbn [List.filter fst].
    match goal with
    | Hk : Bool.eqb (is_script (h x)) (is_script x) = true |- _ =>
        apply eqb_prop in Hk; rewrite Hk
    end.
    by destruct (Bool.eqb (is_script x) script).
  - apply (quiet_text _ 60); [by apply tag_free_spec, tagless_spec|].
    destruct r as [|[y u] r]; [by left|]. right. cbn [laid].
    cbn [forallb fst] in Hr. apply andb_true_iff in Hr as [Hy _].
    repeat (apply andb_true_iff in Hy as [Hy ?]).
    pose proof (tagged_head _ Hy) as Hh.
    split; [by destruct (source (h y))|by destruct script].
Qed.

Lemma rebuilt_canonical wide x : rebuilt wide x = source (canonical wide x).
Proof.
  destruct x as [o a c cl|o a c cl]; cbn [rebuilt canonical source];
    unfold style_block, script_block; cbn [fst snd]; by rewrite <- ?app_assoc.
Qed.

Lemma laid_ext f f' g ns nc rest :
  (forall a b x, f a b x = f' a b x) ->
  laid f g ns nc rest = laid f' g ns nc rest.
Proof.
  intros H. revert ns nc. induction rest as [|[x t] r IH]; intros ns nc; [done|].
  cbn [laid]. by rewrite H, IH.
Qed.

Lemma well_formed_tagged x : well_formed x = true -> tagged x = true.
Proof.
  destruct x as [o a c cl|o a c cl]; cbn [well_formed tagged]; intros H;
    repeat (apply andb_true_iff in H as [H ?]); by apply andb_true_iff.
Qed.

(** The opening tags of a page: one for each block. *)
Lemma page_openings script t0 rest :
  markup_text t0 = true -> regular rest = true ->
  forallb (fun bt : block * str => plain_parts (fst bt)) rest = true ->
  openings (tag_name script) (page t0 rest) = blocks_of script rest.
Proof.
  intros H0 Hreg Hplain. unfold page.
  assert (forallb (fun bt : block * str =>
                     tagged (fst bt) && plain_parts (fst bt)
                     && Bool.eqb (is_script (fst bt)) (is_script (fst bt))
                     && tagless (snd bt)) rest = true) as Hall.
  { clear H0. induction rest as [|[x t] r IH]; [done|].
    apply regular_cons in Hreg as (Hx & Ht & Hr).
    cbn [forallb fst snd] in *. apply andb_true_iff in Hplain as [Hp Hpr].
    rewrite (IH Hr Hpr), (well_formed_tagged _ Hx), Hp, eqb_reflx.
    unfold markup_text in Ht. apply andb_true_iff in Ht as [Ht _].
    unfold tagless. by rewrite Ht. }
  rewrite openings_app_quiet.
  - exact (openings_laid script (fun x => x) (fun t => t) rest Hall 0%nat 0%nat).
  - apply markup_text_spec in H0 as (Hstyle & Hscript & _).
    destruct (laid_source_head rest 0 0 Hreg) as [->|Hh].
    + destruct script; by apply (quiet_text _ 60); [|left].
    + destruct script; by apply (quiet_text _ 60); [|right].
Qed.

(** The opening tags of the minified page: one for each block. *)
Lemma minified_openings script wide t0 rest :
  tagless (markup t0) = true ->
  forallb (fun bt : block * str =>
             plain_parts (canonical wide (fst bt)) && tagless (markup (snd bt)))
    rest = true ->
  openings (tag_name script) (minified_page wide t0 rest) = blocks_of script rest.
Proof.
  intros H0 Hplain. unfold minified_page. rewrite openings_strip.
  rewrite (laid_ext _ (fun _ _ x => source (canonical wide x)))
    by (intros; apply rebuilt_canonical).
  assert (forallb (fun bt : block * str =>
                     tagged (canonical wide (fst bt))
                     && plain_parts (canonical wide (fst bt))
                     && Bool.eqb (is_script (canonical wide (fst bt)))
                          (is_script (fst bt))
                     && tagless (markup (snd bt))) rest = true) as Hall.
  { clear H0. induction rest as [|[x t] r IH]; [done|].
    cbn [forallb fst snd] in *. apply andb_true_iff in Hplain as [Hp Hpr].
    rewrite (IH Hpr). apply andb_true_iff in Hp as [-> ->].
    by destruct x. }
  rewrite openings_app_quiet.
  - exact (openings_laid script (canonical wide) markup rest Hall 0%nat 0%nat).
  - apply (quiet_text _ 60); [by apply tag_free_spec, tagless_spec|].
    destruct rest as [|[y u] r]; [by left|]. right. cbn [laid].
    split; [by destruct y|by destruct script].
Qed.

(** ** Blocks of a page: restoration, and attribute text *)

(** C5 (as stated, refuted): a placeholder marker in the input is replaced
    by the block as well, so one style block comes out twice; a block
    inside an HTML comment is removed with the comment, so it does not come
    out at all; and a style block inside a script block is registered but
    never restored: the output holds its placeholder in its place. *)
Lemma block_count_not_preserved :
  (fun wide =>
     let doc := lit "___STYLE_BLOCK_0___<style>a</style>" in
     let out := minify_html wide doc in
     (out, openings "style" doc, openings "style" out))
  = (fun _ => (lit "<style>a</style><style>a</style>", 1%nat, 2%nat))
  /\ (fun wide =>
        let doc := lit "<p>x</p><!-- <script>a</script> -->" in
        let out := minify_html wide doc in
        (out, openings "script" doc, openings "script" out))
     = (fun _ => (lit "<p>x</p>", 1%nat, 0%nat))
  /\ (fun wide =>
        let doc := lit "<script><style>a</style></script>" in
        let out := minify_html wide doc in
        (out, openings "style" doc, openings "style" out))
     = (fun _ => (lit "<script>___STYLE_BLOCK_0___</script>", 1%nat, 0%nat)).
Proof. repeat split; vm_compute; reflexivity. Qed.

(** C5 (amended): take a page: a first markup text, then any number of
    style and script blocks in any order, each followed by a markup text,
    where a markup text holds no style or script opening tag and no
    comment left open, a block is a region the pattern of its kind
    matches, and no style opening tag stands inside a script block.  If no
    minified text and no rebuilt block of the page holds the word "BLOCK"
    (every placeholder holds it), then the output is the minified first
    text followed, in the order of the page, by every rebuilt block and
    the minified text after it, stripped: every placeholder is replaced by
    its own block, once, and no block is lost.  If moreover no opening tag
    starts in a minified text, in the attribute text or content of a block
    or in the content of a rebuilt block, then the output holds as many
    style opening tags, and as many script opening tags, as the page,
    which is the number of blocks of that kind. *)
Theorem every_block_restored_once (wide : char -> bool) (t0 : str)
    (rest : list (block * str)) :
  markup_text t0 = true -> regular rest = true ->
  inert (markup t0) = true ->
  forallb (fun bt : block * str =>
             inert (rebuilt wide (fst bt)) && inert (markup (snd bt))) rest = true ->
  minify_html wide (page t0 rest) = minified_page wide t0 rest
  /\ (tagless (markup t0) = true ->
      forallb (fun bt : block * str =>
                 plain_parts (fst bt) && plain_parts (canonical wide (fst bt))
                 && tagless (markup (snd bt))) rest = true ->
      forall script : bool,
        openings (tag_name script) (minify_html wide (page t0 rest))
        = openings (tag_name script) (page t0 rest)
        /\ openings (tag_name script) (page t0 rest) = blocks_of script rest).
Proof.
  intros H0 Hreg Hpre Hin.
  pose proof (minify_html_page wide t0 rest H0 Hreg Hpre Hin) as Hout.
  split; [exact Hout|]. intros Htag Hplain script.
  assert (forallb (fun bt : block * str => plain_parts (fst bt)) rest = true
          /\ forallb (fun bt : block * str =>
                        plain_parts (canonical wide (fst bt))
                        && tagless (markup (snd bt))) rest = true) as [Hp1 Hp2].
  { clear -Hplain. induction rest as [|[x t] r IH]; [done|].
    cbn [forallb fst snd] in *. apply andb_true_iff in Hplain as [Hx Hr].
    destruct (IH Hr) as [-> ->].
    apply andb_true_iff in Hx as [Hx ->]. by apply andb_true_iff in Hx as [-> ->]. }
  rewrite Hout, (minified_openings script wide t0 rest Htag Hp2).
  by rewrite (page_openings script t0 rest H0 Hreg Hp1).
Qed.

Lemma every_block_restored_once_witness :
  minify_html ascii_only
    (lit "<p> a </p> <!-- c -->  <style media=x> p { color : red ; } </style> <b> _x_ </b> <SCRIPT src='a'> var  a = 1 ; </SCRIPT><i>t</i>  <STYLE>b { }</STYLE>")
  = lit "<p> a </p> <style>p{color:red}</style> <b> _x_ </b> <script src='a'>var a=1;</script><i>t</i> <style>b{}</style>"
  /\ openings "style"
       (minify_html ascii_only (page three_blocks_first_text three_blocks))
     = 2%nat
  /\ openings "style" (page three_blocks_first_text three_blocks) = 2%nat
  /\ openings "script"
       (minify_html ascii_only (page three_blocks_first_text three_blocks))
     = 1%nat
  /\ openings "script" (page three_blocks_first_text three_blocks) = 1%nat.
Proof.
  destruct (every_block_restored_once ascii_only three_blocks_first_text
              three_blocks eq_refl eq_refl eq_refl eq_refl) as [Hout Hcount].
  destruct (Hcount eq_refl eq_refl false) as [Hs1 Hs2].
  destruct (Hcount eq_refl eq_refl true) as [Hc1 Hc2].
  split; [|split; [|split; [|split]]].
  - etrans; [exact Hout|]. vm_compute. reflexivity.
  - etrans; [exact Hs1|]. exact Hs2.
  - exact Hs2.
  - etrans; [exact Hc1|]. exact Hc2.
  - exact Hc2.
Defined.

(** C7 (as stated, refuted): the attribute text of a script block that
    holds the placeholder of a later script block is not preserved: the
    loop of lines 109-110 replaces the placeholder inside the restored
    block by the later block. *)
Lemma script_attributes_altered :
  (fun wide =>
     minify_html wide
       (lit "<script ___SCRIPT_BLOCK_1___>a</script><script>b</script>"))
  = (fun _ => lit "<script <script>b</script>>a</script><script>b</script>").
Proof. vm_compute. reflexivity. Qed.

(** C7 (amended): for every page as in C5 whose minified texts and rebuilt
    blocks do not hold the word "BLOCK", and for every block of it,
    wherever the block stands: the registry of a style block holds, and
    the output shows in the place of the block, the bare "<style>", the
    minified content and "</style>", without the attribute text of the
    opening tag; the registry of a script block holds, and the output
    shows in its place, "<script", the attribute text character for
    character, ">", the content (minified unless blank) and "</script>". *)
Theorem style_attributes_dropped_script_attributes_kept_in_every_block
    (wide : char -> bool) (t0 : str) (rest : list (block * str)) :
  markup_text t0 = true -> regular rest = true ->
  inert (markup t0) = true ->
  forallb (fun bt : block * str =>
             inert (rebuilt wide (fst bt)) && inert (markup (snd bt))) rest = true ->
  (let '(_, style_blocks, script_blocks) := collapse_markup wide (page t0 rest) in
   style_blocks
   = map (fun content => lit "<style>" ++ minify_css content ++ lit "</style>")
       (style_contents rest)
   /\ script_blocks
      = map (fun groups : str * str =>
               lit "<script" ++ fst groups ++ lit ">"
               ++ match strip (snd groups) with
                  | [] => snd groups
                  | _ => minify_js wide (snd groups)
                  end
               ++ lit "</script>")
          (script_groups rest))
  /\ minify_html wide (page t0 rest)
     = strip
         (markup t0
          ++ laid (fun _ _ b =>
                     match b with
                     | StyleBlock _ _ content _ =>
                         lit "<style>" ++ minify_css content ++ lit "</style>"
                     | ScriptBlock _ attrs content _ =>
                         lit "<script" ++ attrs ++ lit ">"
                         ++ match strip content with
                            | [] => content
                            | _ => minify_js wide content
                            end
                         ++ lit "</script>"
                     end) markup 0 0 rest).
Proof.
  intros H0 Hreg Hpre Hin. split.
  - by rewrite (working_text wide t0 rest H0 Hreg).
  - rewrite (minify_html_page wide t0 rest H0 Hreg Hpre Hin).
    reflexivity.
Qed.

Lemma style_attributes_dropped_script_attributes_kept_in_every_block_witness :
  minify_html ascii_only
    (lit "<h1> T </h1>  <script type='module'  defer> f ( ) ; </script> <p>  x<Style media='print'> a { b : c } </Style> </p> ")
  = lit "<h1> T </h1> <script type='module'  defer>f();</script> <p> x<style>a{b:c}</style> </p>"
  /\ snd (collapse_markup ascii_only (page two_blocks_first_text two_blocks))
     = [lit "<script type='module'  defer>f();</script>"]
  /\ snd (fst (collapse_markup ascii_only (page two_blocks_first_text two_blocks)))
     = [lit "<style>a{b:c}</style>"].
Proof.
  destruct (style_attributes_dropped_script_attributes_kept_in_every_block
              ascii_only two_blocks_first_text two_blocks
              eq_refl eq_refl eq_refl eq_refl) as [Hreg Hout].
  split; [|split].
  - etrans; [exact Hout|]. vm_compute. reflexivity.
  - destruct (collapse_markup ascii_only (page two_blocks_first_text two_blocks))
      as [[text style_blocks] script_blocks].
    destruct Hreg as [_ ->]. vm_compute. reflexivity.
  - destruct (collapse_markup ascii_only (page two_blocks_first_text two_blocks))
      as [[text style_blocks] script_blocks].
    destruct Hreg as [-> _]. vm_compute. reflexivity.
Defined.
